(** * Notepad_app: the browser-side behaviour layer

    A shallow embedding of the two script files of the repository,

    - [src/static/script.js]: the page script with the multi-theme switch
      (module [MultiTheme]) and the reminder flow listening on the
      [/notifications] event stream (module [StreamApp]);
    - [src/unnamed/part_000]: the page script with the dark-theme toggle
      (module [DarkTheme]), the active/completed view toggle (module
      [NoteToggle]), the reminder flow polling [/get_reminders] (module
      [PollingApp]), and the two file-upload widgets (module [Upload]).

    The page is an explicit state; every handler is a function from page
    to page.  Asynchronous work (a pending [fetch], a pending
    [setTimeout]) is kept in the state and resumed by an event of the
    environment, so a run of the page is a fold of a handler over a list
    of events. *)

From Stdlib Require Import NArith ZArith String Ascii DecimalString.
From stdpp Require Import gmap list fin_maps.

Set Default Proof Using "Type".

(** ** JavaScript values *)

Module JS.

(** A JavaScript string is a sequence of UTF-16 code units; [length]
    and [slice] count code units. *)
Abbreviation jsstring := (list N).

(** An ASCII string literal of the source. *)
Definition lit (s : string) : jsstring :=
  (λ a, N_of_ascii a) <$> list_ascii_of_string s.
Arguments lit s%_string.

(** The literal "…" (U+2026, one code unit). *)
Definition ellipsis : jsstring := [8230%N].

(** The values the scripts read from storage, attributes and the
    records of the server: a string, [null], or nothing at all
    ([undefined]). *)
Inductive jsval :=
| JUndefined
| JNull
| JStr (s : jsstring).

#[global] Instance jsval_eq_dec : EqDecision jsval.
Proof. solve_decision. Defined.

(** ToBoolean. *)
Definition truthy (v : jsval) : bool :=
  match v with
  | JStr (_ :: _) => true
  | _ => false
  end.

(** ToString, as a template literal or a DOM setter applies it. *)
Definition to_string (v : jsval) : jsstring :=
  match v with
  | JUndefined => lit "undefined"
  | JNull => lit "null"
  | JStr s => s
  end.

(** [el.textContent = v]: a missing value empties the text. *)
Definition set_textContent (v : jsval) : jsstring :=
  match v with
  | JStr s => s
  | _ => []
  end.

(** [v || d] for a string default [d]. *)
Definition or_else (v : jsval) (d : jsstring) : jsstring :=
  if truthy v then to_string v else d.

(** A numeric id inside a template literal. *)
Definition num (n : N) : jsstring :=
  lit (NilEmpty.string_of_uint (N.to_uint n)).

(** [s.slice(0, n)] *)
Definition slice0 (n : nat) (s : jsstring) : jsstring := take n s.

(** [localStorage]: [getItem] answers [null] for a missing key. *)
Definition getItem (key : jsstring) (ls : gmap (list N) (list N)) : jsval :=
  match ls !! key with
  | Some v => JStr v
  | None => JNull
  end.

Definition setItem (key value : jsstring) (ls : gmap (list N) (list N))
  : gmap (list N) (list N) :=
  <[key := value]> ls.

(** [arr.indexOf(x)]: the first position of [x], or -1. *)
Fixpoint indexOf (x : jsstring) (arr : list jsstring) : Z :=
  match arr with
  | [] => -1
  | y :: arr' =>
      if decide (y = x) then 0
      else let i := indexOf x arr' in
           if (i <? 0)%Z then -1 else (i + 1)%Z
  end.

(** [element.classList], an ordered set of tokens. *)
Module ClassList.
Definition contains (c : jsstring) (l : list jsstring) : bool :=
  bool_decide (c ∈ l).
Definition add (c : jsstring) (l : list jsstring) : list jsstring :=
  if contains c l then l else l ++ [c].
Definition remove (c : jsstring) (l : list jsstring) : list jsstring :=
  filter (λ d, d ≠ c) l.
Definition toggle (c : jsstring) (l : list jsstring) : list jsstring :=
  if contains c l then remove c l else add c l.
End ClassList.

End JS.

Import JS.

(** ** Theme selection *)

(** *** The multi-theme switch of [src/static/script.js] *)

Module MultiTheme.

(** One entry of the theme table: a desktop and a mobile style sheet. *)
Record sheets := { desktop : jsstring; mobile : jsstring }.

Definition themes : list (jsstring * sheets) :=
  [ (lit "default",
     {| desktop := lit "/static/style1.css";
        mobile := lit "/static/style1_mobile.css" |});
    (lit "matrix",
     {| desktop := lit "/static/style2.css";
        mobile := lit "/static/style2_mobile.css" |});
    (lit "light",
     {| desktop := lit "/static/style3.css";
        mobile := lit "/static/style3_mobile.css" |}) ].

Definition themeOrder : list jsstring := [lit "matrix"; lit "light"].

(** [themes] is an object literal, so [themes[name]] also finds what
    [Object.prototype] provides; these members are objects or
    functions (truthy) without a [desktop] or [mobile] property. *)
Definition object_prototype : list jsstring :=
  [ lit "constructor"; lit "__defineGetter__"; lit "__defineSetter__";
    lit "hasOwnProperty"; lit "__lookupGetter__"; lit "__lookupSetter__";
    lit "isPrototypeOf"; lit "propertyIsEnumerable"; lit "toString";
    lit "valueOf"; lit "__proto__"; lit "toLocaleString" ].

Inductive property :=
| Own (s : sheets)
| Inherited
| Missing.

Fixpoint own (name : jsstring) (table : list (jsstring * sheets)) : option sheets :=
  match table with
  | [] => None
  | (k, s) :: table' => if decide (k = name) then Some s else own name table'
  end.

(** [themes[name]] *)
Definition themes_get (name : jsstring) : property :=
  match own name themes with
  | Some s => Own s
  | None => if bool_decide (name ∈ object_prototype) then Inherited else Missing
  end.

(** The page as the server sends it, with the browser's storage. *)
Record Page := {
  themeLink : option jsstring;      (* href of #theme-link, if the element exists *)
  switchButton : bool;              (* does #theme-switch exist *)
  localStorage : gmap (list N) (list N)
}.

(** The page once [initTheme] has installed its handlers: the link's
    href, the storage, and the closure variable [currentTheme]. *)
Record Live := {
  href : jsstring;
  storage : gmap (list N) (list N);
  currentTheme : jsstring
}.

(** [applyTheme(name)]; [isMobile] is what [isMobileDevice()] answers
    at the time of the call. *)
Definition applyTheme (isMobile : bool) (name : jsstring) (l : Live) : Live :=
  let name :=
    match themes_get name with
    | Missing => lit "matrix"
    | _ => name
    end in
  let selected :=
    match themes_get name with
    | Own s => JStr (if isMobile then mobile s else desktop s)
    | _ => JUndefined
    end in
  {| href := to_string selected;
     storage := setItem (lit "themeName") name (storage l);
     currentTheme := currentTheme l |}.

(** [initTheme()]: [None] when it returns before installing anything. *)
Definition initTheme (isMobile : bool) (p : Page) : option Live :=
  match themeLink p, switchButton p with
  | Some h, true =>
      let current := or_else (getItem (lit "themeName") (localStorage p)) (lit "matrix") in
      Some (applyTheme isMobile current
              {| href := h; storage := localStorage p; currentTheme := current |})
  | _, _ => None
  end.

(** The [DOMContentLoaded] listener as far as the theme goes.  It
    awaits [sendTimezoneToServer()] first, and that promise keeps its
    rejection, which ends the listener before anything is initialised;
    [timezoneSent] tells whether the promise is fulfilled (an ok
    response to /set_timezone with a JSON body). *)
Definition onDOMContentLoaded (timezoneSent isMobile : bool) (p : Page) : option Live :=
  if timezoneSent then initTheme isMobile p else None.

(** The click handler of the switch button.  [themeOrder[next]] out of
    range would be [undefined], whose property key is "undefined". *)
Definition click (isMobile : bool) (l : Live) : Live :=
  let idx := indexOf (currentTheme l) themeOrder in
  let next := Z.rem (idx + 1) (Z.of_nat (length themeOrder)) in
  let current := default (to_string JUndefined) (themeOrder !! Z.to_nat next) in
  applyTheme isMobile current
    {| href := href l; storage := storage l; currentTheme := current |}.

(** The resize handler of the window. *)
Definition resize (isMobile : bool) (l : Live) : Live :=
  applyTheme isMobile (currentTheme l) l.

(** Loading the page again: the markup comes from the server anew, the
    storage is the browser's. *)
Definition reload (served : Page) (l : Live) : Page :=
  {| themeLink := themeLink served;
     switchButton := switchButton served;
     localStorage := storage l |}.

End MultiTheme.

(** *** The dark-theme toggle of [src/unnamed/part_000] *)

Module DarkTheme.

Record Page := {
  body_classList : list jsstring;   (* document.body.classList *)
  switchButton : bool;              (* does #theme-switch exist *)
  localStorage : gmap (list N) (list N)
}.

(** [v === s] for a string [s]. *)
Definition strict_eq (v : jsval) (s : jsstring) : bool :=
  match v with
  | JStr t => bool_decide (t = s)
  | _ => false
  end.

(** [initTheme()]; the boolean tells whether the click handler was
    installed. *)
Definition initTheme (p : Page) : Page * bool :=
  if switchButton p then
    let currentTheme := getItem (lit "theme") (localStorage p) in
    if strict_eq currentTheme (lit "dark") then
      ({| body_classList := ClassList.add (lit "dark-theme") (body_classList p);
          switchButton := switchButton p;
          localStorage := localStorage p |}, true)
    else (p, true)
  else (p, false).

(** The [DOMContentLoaded] listener as far as the theme goes: nothing
    it calls before [initTheme] can end it. *)
Definition onDOMContentLoaded (p : Page) : Page * bool := initTheme p.

(** The click handler of the switch button. *)
Definition click (p : Page) : Page :=
  let classes := ClassList.toggle (lit "dark-theme") (body_classList p) in
  {| body_classList := classes;
     switchButton := switchButton p;
     localStorage :=
       if ClassList.contains (lit "dark-theme") classes
       then setItem (lit "theme") (lit "dark") (localStorage p)
       else setItem (lit "theme") (lit "light") (localStorage p) |}.

(** Loading the page again. *)
Definition reload (served : Page) (p : Page) : Page :=
  {| body_classList := body_classList served;
     switchButton := switchButton served;
     localStorage := localStorage p |}.

End DarkTheme.

(** ** The active/completed view toggle of [src/unnamed/part_000] *)

Module NoteToggle.

(** [#toggle-notes-btn] with its two data attributes. *)
Record Button := {
  textContent : jsstring;
  data_view_active : option jsstring;
  data_view_completed : option jsstring
}.

(** The elements [initNoteToggle] and [switchView] look up; a
    container is given by its [style.display]. *)
Record Page := {
  toggleBtn : option Button;
  activeContainer : option jsstring;
  completedContainer : option jsstring;
  search : option jsstring          (* value of #search *)
}.

(** The page once the click handler is installed, with the closure
    variables of [initNoteToggle]. *)
Record Live := {
  active_display : jsstring;
  completed_display : jsstring;
  label : jsstring;                 (* toggleBtn.textContent *)
  search_value : option jsstring;
  viewActiveText : jsval;
  viewCompletedText : jsval;
  showingCompleted : bool
}.

(** [el.getAttribute(name)] *)
Definition getAttribute (a : option jsstring) : jsval :=
  match a with
  | Some s => JStr s
  | None => JNull
  end.

Definition initNoteToggle (p : Page) : option Live :=
  match toggleBtn p, activeContainer p, completedContainer p with
  | Some b, Some a, Some c =>
      Some {| active_display := a;
              completed_display := c;
              label := textContent b;
              search_value := search p;
              viewActiveText := getAttribute (data_view_active b);
              viewCompletedText := getAttribute (data_view_completed b);
              showingCompleted := false |}
  | _, _, _ => None
  end.

Inductive completion := Returns | Throws.

(** [switchView()]; the last statement throws when [#search] is
    missing, after the view has been switched. *)
Definition switchView (l : Live) : Live * completion :=
  let showing := negb (showingCompleted l) in
  let l1 :=
    if showing then
      {| active_display := lit "none";
         completed_display := lit "block";
         label := set_textContent (viewActiveText l);
         search_value := search_value l;
         viewActiveText := viewActiveText l;
         viewCompletedText := viewCompletedText l;
         showingCompleted := showing |}
    else
      {| active_display := lit "block";
         completed_display := lit "none";
         label := set_textContent (viewCompletedText l);
         search_value := search_value l;
         viewActiveText := viewActiveText l;
         viewCompletedText := viewCompletedText l;
         showingCompleted := showing |} in
  match search_value l1 with
  | Some _ =>
      ({| active_display := active_display l1;
          completed_display := completed_display l1;
          label := label l1;
          search_value := Some [];
          viewActiveText := viewActiveText l1;
          viewCompletedText := viewCompletedText l1;
          showingCompleted := showingCompleted l1 |}, Returns)
  | None => (l1, Throws)
  end.

(** A run of clicks. *)
Definition clicks (n : nat) (l : Live) : Live :=
  Nat.iter n (λ l, (switchView l).1) l.

End NoteToggle.

(** ** The reminder pages *)

(** What both reminder flows act on: the popups in the document, the
    requests sent, the promises and timers still pending, the browser
    notifications shown, and the console. *)

Module Browser.

Inductive Method := GET | POST.

#[global] Instance Method_eq_dec : EqDecision Method.
Proof. solve_decision. Defined.

(** A request as [fetch] sends it, its defaults filled in. *)
Record Request := {
  req_method : Method;
  req_url : jsstring;
  req_credentials : jsstring
}.

(** The second argument of [fetch]. *)
Record Init := {
  init_method : option Method;
  init_credentials : option jsstring
}.

Definition no_init : Init :=
  {| init_method := None; init_credentials := None |}.
Definition post : Init :=
  {| init_method := Some POST; init_credentials := None |}.

(** [new Request(url, init)]: the method defaults to GET and the
    credentials mode to "same-origin". *)
Definition request (url : jsstring) (init : Init) : Request :=
  {| req_method := default GET (init_method init);
     req_url := url;
     req_credentials := default (lit "same-origin") (init_credentials init) |}.

(** A reminder record as the server sends it. *)
Record Reminder := {
  id : N;
  title : jsval;
  content : jsval
}.

(** What [partials/popup_partial.html] holds inside its
    [.reminder-popup] element. *)
Record Template := {
  has_title : bool;        (* #popup-title *)
  has_content : bool;      (* #popup-content *)
  has_dismiss : bool;      (* .dismiss *)
  has_mark_done : bool     (* .mark-done *)
}.

(** A popup node: the texts written into it and the note id its
    [onclick] closures captured, when they were installed. *)
Record Popup := {
  popup_node : nat;
  popup_title : jsstring;
  popup_content : jsstring;
  dismiss_onclick : option N;
  mark_done_onclick : option N
}.

Record Notification := {
  notification_title : jsstring;
  notification_body : jsstring;
  notification_icon : jsstring
}.

Inductive Permission := Default | Granted | Denied.

Inductive Log :=
| Info (s : jsstring)
| Error (s : jsstring).

(** The continuation of a pending [fetch]. *)
Inductive Pending :=
| AwaitTemplate (noteId : N) (title content : jsval)
    (* showPopup waits for the popup template *)
| AwaitLogged (msg : jsstring)
    (* .catch(error => console.error(msg, error)) *)
| AwaitDone (node : nat) (noteId : N)
    (* mark-done waits for /done *)
| AwaitClose (node : nat) (msg : jsstring)
    (* .catch(console.error(msg)).finally(closePopup) *)
| AwaitReminders.
    (* checkForReminders waits for /get_reminders *)

(** The callback of a pending [setTimeout]. *)
Inductive Callback :=
| ClosePopup (node : nat)
| SetupNotifications.

Record Timer := {
  callback : Callback;
  delay : N
}.

Record Page := {
  popups : list Popup;               (* .reminder-popup children of document.body *)
  requests : list Request;           (* every request sent, oldest first *)
  pending : gmap nat Pending;        (* by position in [requests] *)
  timers : gmap nat Timer;           (* by timer id *)
  next_timer : nat;
  notifications : list Notification;
  console : list Log;
  permission : option Permission;    (* None: no Notification in window *)
  prompting : bool;                  (* a permission prompt is open *)
  eventSource : bool;                (* the /notifications stream is open *)
  interval : bool                    (* the one-minute interval is set *)
}.

Definition set_popups (v : list Popup) (st : Page) : Page :=
  {| popups := v; requests := requests st; pending := pending st;
     timers := timers st; next_timer := next_timer st;
     notifications := notifications st; console := console st;
     permission := permission st; prompting := prompting st;
     eventSource := eventSource st; interval := interval st |}.

Definition set_pending (v : gmap nat Pending) (st : Page) : Page :=
  {| popups := popups st; requests := requests st; pending := v;
     timers := timers st; next_timer := next_timer st;
     notifications := notifications st; console := console st;
     permission := permission st; prompting := prompting st;
     eventSource := eventSource st; interval := interval st |}.

Definition set_timers (v : gmap nat Timer) (st : Page) : Page :=
  {| popups := popups st; requests := requests st; pending := pending st;
     timers := v; next_timer := next_timer st;
     notifications := notifications st; console := console st;
     permission := permission st; prompting := prompting st;
     eventSource := eventSource st; interval := interval st |}.

Definition set_console (v : list Log) (st : Page) : Page :=
  {| popups := popups st; requests := requests st; pending := pending st;
     timers := timers st; next_timer := next_timer st;
     notifications := notifications st; console := v;
     permission := permission st; prompting := prompting st;
     eventSource := eventSource st; interval := interval st |}.

Definition set_permission (v : option Permission) (b : bool) (st : Page) : Page :=
  {| popups := popups st; requests := requests st; pending := pending st;
     timers := timers st; next_timer := next_timer st;
     notifications := notifications st; console := console st;
     permission := v; prompting := b;
     eventSource := eventSource st; interval := interval st |}.

Definition set_eventSource (v : bool) (st : Page) : Page :=
  {| popups := popups st; requests := requests st; pending := pending st;
     timers := timers st; next_timer := next_timer st;
     notifications := notifications st; console := console st;
     permission := permission st; prompting := prompting st;
     eventSource := v; interval := interval st |}.

Definition set_interval (v : bool) (st : Page) : Page :=
  {| popups := popups st; requests := requests st; pending := pending st;
     timers := timers st; next_timer := next_timer st;
     notifications := notifications st; console := console st;
     permission := permission st; prompting := prompting st;
     eventSource := eventSource st; interval := v |}.

(** [console.log] / [console.error] *)
Definition log (entry : Log) (st : Page) : Page :=
  set_console (console st ++ [entry]) st.

(** [fetch(url, init)] followed by the continuation [k]. *)
Definition fetch (url : jsstring) (init : Init) (k : Pending) (st : Page) : Page :=
  {| popups := popups st;
     requests := requests st ++ [request url init];
     pending := <[length (requests st) := k]> (pending st);
     timers := timers st; next_timer := next_timer st;
     notifications := notifications st; console := console st;
     permission := permission st; prompting := prompting st;
     eventSource := eventSource st; interval := interval st |}.

(** [setTimeout(cb, ms)] *)
Definition setTimeout (cb : Callback) (ms : N) (st : Page) : Page :=
  {| popups := popups st; requests := requests st; pending := pending st;
     timers := <[next_timer st := {| callback := cb; delay := ms |}]> (timers st);
     next_timer := S (next_timer st);
     notifications := notifications st; console := console st;
     permission := permission st; prompting := prompting st;
     eventSource := eventSource st; interval := interval st |}.

(** [new Notification(title, { body, icon })] *)
Definition notify (n : Notification) (st : Page) : Page :=
  {| popups := popups st; requests := requests st; pending := pending st;
     timers := timers st; next_timer := next_timer st;
     notifications := notifications st ++ [n]; console := console st;
     permission := permission st; prompting := prompting st;
     eventSource := eventSource st; interval := interval st |}.

(** ["Notification" in window && Notification.permission === p] *)
Definition permission_is (p : Permission) (st : Page) : bool :=
  match permission st, p with
  | Some Default, Default | Some Granted, Granted | Some Denied, Denied => true
  | _, _ => false
  end.

(** [document.body.appendChild(popup)] *)
Definition appendChild (p : Popup) (st : Page) : Page :=
  set_popups (popups st ++ [p]) st.

(** [popup.remove()], nothing when the node is not in the document. *)
Definition remove (node : nat) (st : Page) : Page :=
  set_popups (filter (λ p, popup_node p ≠ node) (popups st)) st.

(** The popup a click lands on: only a node in the document can be
    clicked. *)
Definition popup_at (node : nat) (st : Page) : option Popup :=
  snd <$> list_find (λ p, popup_node p = node) (popups st).

(** How a pending [fetch] settles. *)
Inductive Body :=
| Html (t : option Template)     (* markup; [Some] when it holds a .reminder-popup *)
| Json (rs : list Reminder)      (* a JSON array of reminder records *)
| Unreadable.

Inductive Response :=
| Rejected                          (* the request failed *)
| Resolved (ok : bool) (b : Body).  (* a response, with [response.ok] *)

(** [tempDiv.querySelector('.reminder-popup')] on the response text. *)
Definition querySelector_popup (b : Body) : option Template :=
  match b with
  | Html t => t
  | _ => None
  end.

(** A parsed stream message. *)
Record Message := {
  msg_type : jsval;
  msg_data : option (list Reminder);   (* None: not an array *)
  msg_message : jsval
}.

(** What the environment does to the page. *)
Inductive Event :=
| OnMessage (m : option Message)     (* stream data; None: JSON.parse throws *)
| OnError                            (* the stream fails *)
| Settle (req : nat) (r : Response)  (* a pending fetch settles *)
| ClickDismiss (node : nat)
| ClickMarkDone (node : nat)
| Fire (timer : nat)                 (* a pending timeout elapses *)
| Tick                               (* the interval elapses *)
| Answer (p : Permission).           (* the user answers the prompt *)

(** A page just loaded. *)
Definition fresh (perm : option Permission) : Page :=
  {| popups := []; requests := []; pending := ∅; timers := ∅;
     next_timer := 0; notifications := []; console := [];
     permission := perm; prompting := false;
     eventSource := false; interval := false |}.

(** [/reminded/${id}] and [/done/${id}] *)
Definition reminded_url (noteId : N) : jsstring := lit "/reminded/" ++ num noteId.
Definition done_url (noteId : N) : jsstring := lit "/done/" ++ num noteId.

End Browser.

(** *** The stream variant, [initNotifications] of [src/static/script.js] *)

Module StreamApp.
Import Browser.

(** [safeFetch(url, options)]: [{ credentials: 'same-origin', ...options }] *)
Definition safeFetch (url : jsstring) (options : Init) (k : Pending) (st : Page) : Page :=
  fetch url
    {| init_method := init_method options;
       init_credentials :=
         Some (default (lit "same-origin") (init_credentials options)) |}
    k st.

(** The promise of [safeFetch] is fulfilled only by an ok response. *)
Definition fulfilled (r : Response) : bool :=
  match r with
  | Resolved true _ => true
  | _ => false
  end.

Definition requestNotificationPermission (st : Page) : Page :=
  if permission_is Default st then set_permission (permission st) true st else st.

(** [title || "Reminder"] *)
Definition titleText (title : jsval) : jsstring :=
  or_else title (lit "Reminder").

(** [content ? (content.length > 200 ? content.slice(0, 200) + "…" : content) : "No content"] *)
Definition contentText (content : jsval) : jsstring :=
  if truthy content then
    let s := to_string content in
    if 200 <? length s then slice0 200 s ++ ellipsis else s
  else lit "No content".

(** [showPopup(noteId, title, content)] up to the template request. *)
Definition showPopup (noteId : N) (title content : jsval) (st : Page) : Page :=
  let st :=
    if permission_is Granted st then
      notify {| notification_title := titleText title;
                notification_body := contentText content;
                notification_icon := lit "/static/favicon.ico" |} st
    else st in
  fetch (lit "partials/popup_partial.html") no_init
    (AwaitTemplate noteId title content) st.

(** The rest of [showPopup], once the template request [node] has
    settled.  A missing element makes the callback throw where it is
    first used, which the final [catch] logs. *)
Definition showPopup_then (node : nat) (noteId : N) (title content : jsval)
    (r : Response) (st : Page) : Page :=
  let failed := log (Error (lit "Failed to load popup template:")) in
  let popup d m :=
    {| popup_node := node;
       popup_title := titleText title;
       popup_content := contentText content;
       dismiss_onclick := d;
       mark_done_onclick := m |} in
  match r with
  | Rejected => failed st
  | Resolved _ b =>
      match querySelector_popup b with
      | None => failed st
      | Some t =>
          if negb (has_title t) then failed st
          else if negb (has_content t) then failed st
          else if negb (has_dismiss t) then
            failed (appendChild (popup None None) st)
          else if negb (has_mark_done t) then
            failed (appendChild (popup (Some noteId) None) st)
          else
            setTimeout (ClosePopup node) 120000
              (appendChild (popup (Some noteId) (Some noteId)) st)
      end
  end.

(** [popup.querySelector(".dismiss").onclick] *)
Definition dismiss (node : nat) (noteId : N) (st : Page) : Page :=
  remove node
    (safeFetch (reminded_url noteId) post
       (AwaitLogged (lit "Error marking as reminded:")) st).

(** [popup.querySelector(".mark-done").onclick] up to the first request. *)
Definition mark_done (node : nat) (noteId : N) (st : Page) : Page :=
  safeFetch (done_url noteId) post (AwaitDone node noteId) st.

(** The body of [message.data.forEach]. *)
Definition receive (reminder : Reminder) (st : Page) : Page :=
  safeFetch (reminded_url (id reminder)) post
    (AwaitLogged (lit "Error marking as reminded:"))
    (showPopup (id reminder) (title reminder) (content reminder) st).

(** [v === s] for a string literal [s]. *)
Definition strict_eq (v : jsval) (s : jsstring) : bool :=
  match v with
  | JStr t => bool_decide (t = s)
  | _ => false
  end.

(** [eventSource.onmessage]; a thrown exception ends the handler. *)
Definition onmessage (parsed : option Message) (st : Page) : Page :=
  match parsed with
  | None => st
  | Some message =>
      if strict_eq (msg_type message) (lit "connected") then
        log (Info (lit "Notification stream connected successfully")) st
      else if strict_eq (msg_type message) (lit "heartbeat") then
        log (Info (lit "Heartbeat received")) st
      else if strict_eq (msg_type message) (lit "reminders") then
        let st := log (Info (lit "Received reminders from server:")) st in
        match msg_data message with
        | Some data => foldl (λ st reminder, receive reminder st) st data
        | None => st
        end
      else if strict_eq (msg_type message) (lit "error") then
        log (Error (lit "Error from notification stream:")) st
      else st
  end.

(** [eventSource.onerror] *)
Definition onerror (st : Page) : Page :=
  let st := log (Error (lit "EventSource connection failed.")) st in
  let st := log (Error (lit "EventSource readyState:")) st in
  let st := log (Error (lit "This error is usually caused by one of the following:")) st in
  let st := set_eventSource false st in
  let st := log (Info (lit "Will attempt to reconnect in 5 seconds...")) st in
  setTimeout SetupNotifications 5000 st.

Definition setupNotifications (st : Page) : Page :=
  let st := log (Info (lit "Attempting to connect to /notifications for Server-Sent Events.")) st in
  set_eventSource true st.

(** [initNotifications()]; [hasEventSource] is [window.EventSource]. *)
Definition initNotifications (hasEventSource : bool) (st : Page) : Page :=
  if negb hasEventSource then
    log (Error (lit "Your browser does not support Server-Sent Events. Notifications will not work.")) st
  else setupNotifications (requestNotificationPermission st).

(** A pending request settles and its continuation runs. *)
Definition settle (req : nat) (r : Response) (st : Page) : Page :=
  match pending st !! req with
  | None => st
  | Some k =>
      let st := set_pending (delete req (pending st)) st in
      match k with
      | AwaitTemplate noteId title content =>
          showPopup_then req noteId title content r st
      | AwaitLogged msg =>
          if fulfilled r then st else log (Error msg) st
      | AwaitDone node noteId =>
          if fulfilled r then
            safeFetch (reminded_url noteId) post
              (AwaitClose node (lit "Error marking note as done:")) st
          else remove node (log (Error (lit "Error marking note as done:")) st)
      | AwaitClose node msg =>
          remove node (if fulfilled r then st else log (Error msg) st)
      | AwaitReminders => st
      end
  end.

(** A pending timeout elapses. *)
Definition fire (timer : nat) (st : Page) : Page :=
  match timers st !! timer with
  | None => st
  | Some t =>
      let st := set_timers (delete timer (timers st)) st in
      match callback t with
      | ClosePopup node => remove node st
      | SetupNotifications => setupNotifications st
      end
  end.

Definition handle (e : Event) (st : Page) : Page :=
  match e with
  | OnMessage m => if eventSource st then onmessage m st else st
  | OnError => if eventSource st then onerror st else st
  | Settle req r => settle req r st
  | ClickDismiss node =>
      match popup_at node st ≫= dismiss_onclick with
      | Some noteId => dismiss node noteId st
      | None => st
      end
  | ClickMarkDone node =>
      match popup_at node st ≫= mark_done_onclick with
      | Some noteId => mark_done node noteId st
      | None => st
      end
  | Fire timer => fire timer st
  | Tick => st
  | Answer p =>
      if prompting st then
        log (Info (lit "Notification permission:")) (set_permission (Some p) false st)
      else st
  end.

Definition run (es : list Event) (st : Page) : Page :=
  foldl (λ st e, handle e st) st es.

End StreamApp.

(** *** The polling variant, [initNotifications] of [src/unnamed/part_000] *)

Module PollingApp.
Import Browser.

(** The promise of a plain [fetch] is fulfilled by any response. *)
Definition fulfilled (r : Response) : bool :=
  match r with
  | Resolved _ _ => true
  | Rejected => false
  end.

(** [title || "Reminder"] *)
Definition titleText (title : jsval) : jsstring :=
  or_else title (lit "Reminder").

(** [content ? (content.length > 200 ? content.slice(0, 200) + "…" : content) : "No content"] *)
Definition contentText (content : jsval) : jsstring :=
  if truthy content then
    let s := to_string content in
    if 200 <? length s then slice0 200 s ++ ellipsis else s
  else lit "No content".

(** [showPopup(noteId, title, content)] up to the template request. *)
Definition showPopup (noteId : N) (title content : jsval) (st : Page) : Page :=
  fetch (lit "/partials/popup_partial.html") no_init
    (AwaitTemplate noteId title content) st.

(** The rest of [showPopup], once the template request [node] has
    settled. *)
Definition showPopup_then (node : nat) (noteId : N) (title content : jsval)
    (r : Response) (st : Page) : Page :=
  let failed := log (Error (lit "Failed to load popup template:")) in
  let popup d m :=
    {| popup_node := node;
       popup_title := titleText title;
       popup_content := contentText content;
       dismiss_onclick := d;
       mark_done_onclick := m |} in
  match r with
  | Rejected => failed st
  | Resolved _ b =>
      match querySelector_popup b with
      | None => failed st
      | Some t =>
          if negb (has_title t) then failed st
          else if negb (has_content t) then failed st
          else if negb (has_dismiss t) then
            failed (appendChild (popup None None) st)
          else if negb (has_mark_done t) then
            failed (appendChild (popup (Some noteId) None) st)
          else
            setTimeout (ClosePopup node) 120000
              (appendChild (popup (Some noteId) (Some noteId)) st)
      end
  end.

(** [popup.querySelector(".dismiss").onclick] *)
Definition dismiss (node : nat) (noteId : N) (st : Page) : Page :=
  remove node
    (fetch (reminded_url noteId) post
       (AwaitLogged (lit "Error marking as reminded:")) st).

(** [popup.querySelector(".mark-done").onclick] up to the first request. *)
Definition mark_done (node : nat) (noteId : N) (st : Page) : Page :=
  fetch (done_url noteId) post (AwaitDone node noteId) st.

(** The body of [reminders.forEach]. *)
Definition receive (reminder : Reminder) (st : Page) : Page :=
  let st :=
    if permission_is Granted st then
      notify {| notification_title := or_else (title reminder) (lit "Reminder");
                notification_body :=
                  if truthy (content reminder) then
                    let s := to_string (content reminder) in
                    if 200 <? length s then slice0 200 s ++ ellipsis else s
                  else lit "No content";
                notification_icon := lit "/static/favicon.ico" |} st
    else st in
  let st := showPopup (id reminder) (title reminder) (content reminder) st in
  fetch (reminded_url (id reminder)) post
    (AwaitLogged (lit "Error marking as reminded:")) st.

(** [checkForReminders()] up to the request. *)
Definition checkForReminders (st : Page) : Page :=
  fetch (lit "/get_reminders") no_init AwaitReminders st.

(** The rest of [checkForReminders]: [response.json()] and the loop. *)
Definition checkForReminders_then (r : Response) (st : Page) : Page :=
  match r with
  | Resolved _ (Json reminders) =>
      if 0 <? length reminders then
        foldl (λ st reminder, receive reminder st) st reminders
      else st
  | _ => log (Error (lit "Error checking reminders:")) st
  end.

(** [initNotifications()] *)
Definition initNotifications (st : Page) : Page :=
  let st :=
    if permission_is Default st then set_permission (permission st) true st
    else st in
  let st := set_interval true st in
  checkForReminders st.

(** A pending request settles and its continuation runs. *)
Definition settle (req : nat) (r : Response) (st : Page) : Page :=
  match pending st !! req with
  | None => st
  | Some k =>
      let st := set_pending (delete req (pending st)) st in
      match k with
      | AwaitTemplate noteId title content =>
          showPopup_then req noteId title content r st
      | AwaitLogged msg =>
          if fulfilled r then st else log (Error msg) st
      | AwaitDone node noteId =>
          if fulfilled r then
            fetch (reminded_url noteId) post
              (AwaitClose node (lit "Error marking note as done:")) st
          else remove node (log (Error (lit "Error marking note as done:")) st)
      | AwaitClose node msg =>
          remove node (if fulfilled r then st else log (Error msg) st)
      | AwaitReminders => checkForReminders_then r st
      end
  end.

(** A pending timeout elapses. *)
Definition fire (timer : nat) (st : Page) : Page :=
  match timers st !! timer with
  | None => st
  | Some t =>
      let st := set_timers (delete timer (timers st)) st in
      match callback t with
      | ClosePopup node => remove node st
      | SetupNotifications => st
      end
  end.

Definition handle (e : Event) (st : Page) : Page :=
  match e with
  | OnMessage _ => st
  | OnError => st
  | Settle req r => settle req r st
  | ClickDismiss node =>
      match popup_at node st ≫= dismiss_onclick with
      | Some noteId => dismiss node noteId st
      | None => st
      end
  | ClickMarkDone node =>
      match popup_at node st ≫= mark_done_onclick with
      | Some noteId => mark_done node noteId st
      | None => st
      end
  | Fire timer => fire timer st
  | Tick => if interval st then checkForReminders st else st
  | Answer p =>
      if prompting st then set_permission (Some p) false st else st
  end.

Definition run (es : list Event) (st : Page) : Page :=
  foldl (λ st e, handle e st) st es.

End PollingApp.

(** ** File upload, [initFileUpload] of [src/unnamed/part_000] *)

Module Upload.

(** [#upload-progress-<noteId>] with its [.progress-fill] and
    [.progress-text] children, where they exist. *)
Record ProgressBox := {
  display : jsstring;               (* style.display of the container *)
  fill_width : option jsstring;     (* style.width of .progress-fill *)
  progress_text : option jsstring   (* textContent of .progress-text *)
}.

(** A [div.file-item] of the attachment list. *)
Record FileItem := {
  item_file_id : jsstring;          (* attribute data-file-id *)
  item_name : jsstring;             (* textContent of span.file-name *)
  item_href : jsstring;             (* href of a.download-btn *)
  item_title : jsstring
}.

(** A [div.file-entry] of a dropzone's [.note-files]. *)
Record FileEntry := {
  entry_href : jsstring;
  entry_text : jsstring
}.

(** A [.dropzone] element and the [.note-files] list next to it. *)
Record Zone := {
  classList : list jsstring;
  note_files : option (list FileEntry)
}.

(** The JSON body of an upload response. *)
Record Data := {
  ok : bool;                        (* is [data.ok] truthy *)
  file_id : option N;
  filename : jsval;
  error : jsval
}.

Inductive Response :=
| Rejected                                (* fetch fails *)
| Responded (res_ok : bool) (data : option Data).
                                          (* None: the body is not JSON *)

(** The POST request of an upload with the files of its form data. *)
Record Request := {
  url : jsstring;
  form_files : list jsstring
}.

Inductive Pending :=
| AwaitFiles (noteId : jsstring)    (* handleFiles waits for the response *)
| AwaitZone (zone : nat).           (* uploadFile waits for the response *)

Record Timer := {
  hide : jsstring;                  (* the progress container to hide *)
  delay : N
}.

Record Page := {
  progress : gmap (list N) ProgressBox;      (* by note id *)
  attached : gmap (list N) (list FileItem);  (* #attached-files-<noteId> *)
  zones : gmap nat Zone;
  requests : list Request;
  pending : gmap nat Pending;
  timers : gmap nat Timer;
  next_timer : nat;
  alerts : list jsstring;
  console : list jsstring;
  reloaded : bool
}.

Definition set_progress (v : gmap (list N) ProgressBox) (st : Page) : Page :=
  {| progress := v; attached := attached st; zones := zones st;
     requests := requests st; pending := pending st; timers := timers st;
     next_timer := next_timer st; alerts := alerts st;
     console := console st; reloaded := reloaded st |}.

Definition set_attached (v : gmap (list N) (list FileItem)) (st : Page) : Page :=
  {| progress := progress st; attached := v; zones := zones st;
     requests := requests st; pending := pending st; timers := timers st;
     next_timer := next_timer st; alerts := alerts st;
     console := console st; reloaded := reloaded st |}.

Definition set_zones (v : gmap nat Zone) (st : Page) : Page :=
  {| progress := progress st; attached := attached st; zones := v;
     requests := requests st; pending := pending st; timers := timers st;
     next_timer := next_timer st; alerts := alerts st;
     console := console st; reloaded := reloaded st |}.

Definition set_pending (v : gmap nat Pending) (st : Page) : Page :=
  {| progress := progress st; attached := attached st; zones := zones st;
     requests := requests st; pending := v; timers := timers st;
     next_timer := next_timer st; alerts := alerts st;
     console := console st; reloaded := reloaded st |}.

Definition set_timers (v : gmap nat Timer) (st : Page) : Page :=
  {| progress := progress st; attached := attached st; zones := zones st;
     requests := requests st; pending := pending st; timers := v;
     next_timer := next_timer st; alerts := alerts st;
     console := console st; reloaded := reloaded st |}.

(** [fetch(url, { method: 'POST', body })] followed by [k]. *)
Definition fetch (u : jsstring) (files : list jsstring) (k : Pending) (st : Page) : Page :=
  {| progress := progress st; attached := attached st; zones := zones st;
     requests := requests st ++ [{| url := u; form_files := files |}];
     pending := <[length (requests st) := k]> (pending st);
     timers := timers st; next_timer := next_timer st; alerts := alerts st;
     console := console st; reloaded := reloaded st |}.

(** [setTimeout(() => { progressContainer.style.display = 'none' }, ms)] *)
Definition setTimeout (noteId : jsstring) (ms : N) (st : Page) : Page :=
  {| progress := progress st; attached := attached st; zones := zones st;
     requests := requests st; pending := pending st;
     timers := <[next_timer st := {| hide := noteId; delay := ms |}]> (timers st);
     next_timer := S (next_timer st); alerts := alerts st;
     console := console st; reloaded := reloaded st |}.

Definition console_error (msg : jsstring) (st : Page) : Page :=
  {| progress := progress st; attached := attached st; zones := zones st;
     requests := requests st; pending := pending st; timers := timers st;
     next_timer := next_timer st; alerts := alerts st;
     console := console st ++ [msg]; reloaded := reloaded st |}.

Definition alert (msg : jsstring) (st : Page) : Page :=
  {| progress := progress st; attached := attached st; zones := zones st;
     requests := requests st; pending := pending st; timers := timers st;
     next_timer := next_timer st; alerts := alerts st ++ [msg];
     console := console st; reloaded := reloaded st |}.

Definition location_reload (st : Page) : Page :=
  {| progress := progress st; attached := attached st; zones := zones st;
     requests := requests st; pending := pending st; timers := timers st;
     next_timer := next_timer st; alerts := alerts st;
     console := console st; reloaded := true |}.

(** [`${data.file_id}`] *)
Definition file_id_string (i : option N) : jsstring :=
  match i with
  | Some n => num n
  | None => to_string JUndefined
  end.

(** Is [data.file_id] truthy. *)
Definition file_id_truthy (i : option N) : bool :=
  match i with
  | Some n => negb (n =? 0)%N
  | None => false
  end.

Definition set_display (v : jsstring) (b : ProgressBox) : ProgressBox :=
  {| display := v; fill_width := fill_width b; progress_text := progress_text b |}.
Definition set_width (v : jsstring) (b : ProgressBox) : ProgressBox :=
  {| display := display b; fill_width := Some v; progress_text := progress_text b |}.
Definition set_text (v : jsstring) (b : ProgressBox) : ProgressBox :=
  {| display := display b; fill_width := fill_width b; progress_text := Some v |}.

(** [handleFiles(files, noteId)] up to the request.  A missing
    element makes the handler throw at its first use. *)
Definition handleFiles (files : list jsstring) (noteId : jsstring) (st : Page) : Page :=
  if bool_decide (length files = 0) then st
  else
    match progress st !! noteId with
    | None => st
    | Some box =>
        let box := set_display (lit "block") box in
        match fill_width box with
        | None => set_progress (<[noteId := box]> (progress st)) st
        | Some _ =>
            let box := set_width (lit "0%") box in
            match progress_text box with
            | None => set_progress (<[noteId := box]> (progress st)) st
            | Some _ =>
                let box := set_text (lit "Uploading...") box in
                fetch (lit "/upload_file/" ++ noteId) files (AwaitFiles noteId)
                  (set_progress (<[noteId := box]> (progress st)) st)
            end
        end
    end.

(** The [catch] callback of [handleFiles]. *)
Definition handleFiles_catch (noteId : jsstring) (st : Page) : Page :=
  let st := console_error (lit "Error uploading file:") st in
  let st :=
    set_progress
      (alter (λ b, set_text (lit "Upload failed. Please try again.")
                     (set_width (lit "0%") b)) noteId (progress st)) st in
  setTimeout noteId 3000 st.

(** The rest of [handleFiles], once the response has arrived. *)
Definition handleFiles_then (noteId : jsstring) (r : Response) (st : Page) : Page :=
  match r with
  | Responded _ (Some data) =>
      if ok data then
        let st :=
          set_progress
            (alter (λ b, set_text (lit "Upload complete!")
                           (set_width (lit "100%") b)) noteId (progress st)) st in
        let fileItem :=
          {| item_file_id := file_id_string (file_id data);
             item_name := set_textContent (filename data);
             item_href := lit "/download_file/" ++ file_id_string (file_id data);
             item_title := lit "Download" |} in
        match attached st !! noteId with
        | Some items =>
            let st := set_attached (<[noteId := items ++ [fileItem]]> (attached st)) st in
            setTimeout noteId 1500 st
        | None => handleFiles_catch noteId st
        end
      else handleFiles_catch noteId st
  | _ => handleFiles_catch noteId st
  end.

Definition zone_classes (f : list jsstring → list jsstring) (zone : nat) (st : Page) : Page :=
  set_zones
    (alter (λ z, {| classList := f (classList z); note_files := note_files z |})
       zone (zones st)) st.

(** [uploadFile(noteId, file, zone)] up to the first [await]. *)
Definition uploadFile (noteId : jsval) (file : jsstring) (zone : nat) (st : Page) : Page :=
  let st := zone_classes (ClassList.add (lit "uploading")) zone st in
  fetch (lit "/upload_file/" ++ to_string noteId) [file] (AwaitZone zone) st.

(** The [try] block of [uploadFile] after the response; [None] when it
    throws. *)
Definition uploadFile_try (zone : nat) (r : Response) (st : Page) : option Page :=
  match r with
  | Rejected => None
  | Responded _ None => None
  | Responded res_ok (Some data) =>
      if res_ok && ok data then
        match zones st !! zone with
        | None => None
        | Some z =>
            match note_files z with
            | Some entries =>
                let href0 :=
                  lit "/download_file/" ++
                  (if file_id_truthy (file_id data) then file_id_string (file_id data) else []) in
                let a :=
                  {| entry_href :=
                       if file_id_truthy (file_id data)
                       then lit "/download_file/" ++ file_id_string (file_id data)
                       else href0;
                     entry_text := set_textContent (filename data) |} in
                Some (set_zones
                        (<[zone := {| classList := classList z;
                                      note_files := Some (a :: entries) |}]> (zones st)) st)
            | None => Some (location_reload st)
            end
        end
      else Some (alert (or_else (error data) (lit "Upload failed")) st)
  end.

(** The rest of [uploadFile]: [try], [catch] and [finally]; the
    console entry stands for the error object logged. *)
Definition uploadFile_then (zone : nat) (r : Response) (st : Page) : Page :=
  let st :=
    match uploadFile_try zone r st with
    | Some st => st
    | None => alert (lit "Upload error") (console_error (lit "err") st)
    end in
  zone_classes (ClassList.remove (lit "uploading")) zone st.

Inductive Event :=
| Settle (req : nat) (r : Response)
| Fire (timer : nat).

Definition settle (req : nat) (r : Response) (st : Page) : Page :=
  match pending st !! req with
  | None => st
  | Some k =>
      let st := set_pending (delete req (pending st)) st in
      match k with
      | AwaitFiles noteId => handleFiles_then noteId r st
      | AwaitZone zone => uploadFile_then zone r st
      end
  end.

Definition fire (timer : nat) (st : Page) : Page :=
  match timers st !! timer with
  | None => st
  | Some t =>
      let st := set_timers (delete timer (timers st)) st in
      set_progress (alter (set_display (lit "none")) (hide t) (progress st)) st
  end.

Definition handle (e : Event) (st : Page) : Page :=
  match e with
  | Settle req r => settle req r st
  | Fire timer => fire timer st
  end.

End Upload.

(** ** What the specification says of a reminder *)

Module Spec.
Import Browser.

(** The title to display: the reminder's title when non-empty,
    "Reminder" otherwise. *)
Definition displayed_title (title : jsval) : jsstring :=
  match title with
  | JStr (c :: s) => c :: s
  | _ => lit "Reminder"
  end.

(** The body to display: the content when non-empty and at most 200
    characters long, its first 200 characters followed by "…" when
    longer, "No content" when empty or absent. *)
Definition displayed_content (content : jsval) : jsstring :=
  match content with
  | JStr (c :: s) =>
      if bool_decide (length (c :: s) ≤ 200) then c :: s
      else take 200 (c :: s) ++ ellipsis
  | _ => lit "No content"
  end.

(** The acknowledgment of a reminder: POST /reminded/{id}. *)
Definition acknowledgment (noteId : N) : Request :=
  {| req_method := POST;
     req_url := reminded_url noteId;
     req_credentials := lit "same-origin" |}.

(** POST /done/{id}. *)
Definition done_request (noteId : N) : Request :=
  {| req_method := POST;
     req_url := done_url noteId;
     req_credentials := lit "same-origin" |}.


(** The notification shown for a reminder. *)
Definition shown (r : Reminder) : Notification :=
  {| notification_title := displayed_title (title r);
     notification_body := displayed_content (content r);
     notification_icon := lit "/static/favicon.ico" |}.

(** The popup shown for a reminder from a well-formed template. *)
Definition popup_of (node : nat) (r : Reminder) : Popup :=
  {| popup_node := node;
     popup_title := displayed_title (title r);
     popup_content := displayed_content (content r);
     dismiss_onclick := Some (id r);
     mark_done_onclick := Some (id r) |}.

(** The page [st'] differs from [st] in its console at most. *)
Definition unchanged (st st' : Page) : Prop :=
  st' = set_console (console st') st.

(** The requests one received reminder causes. *)
Definition stream_requests (r : Reminder) : list Request :=
  [request (lit "partials/popup_partial.html") no_init; acknowledgment (id r)].

Definition polling_requests (r : Reminder) : list Request :=
  [request (lit "/partials/popup_partial.html") no_init; acknowledgment (id r)].

(** A handler either leaves the pending timers alone or adds one under
    the next free id. *)
Definition keeps_timers (st st' : Page) : Prop :=
  timers st' = timers st
  ∨ ∃ t, timers st' = <[next_timer st := t]> (timers st).

(** What holds of every page a run reaches: pending requests and the
    nodes of popups lie within the request log, and pending timers
    below the next timer id. *)
Definition well_formed (st : Page) : Prop :=
  (∀ k, is_Some (pending st !! k) → k < length (requests st))
  ∧ (∀ p, p ∈ popups st → popup_node p < length (requests st))
  ∧ (∀ t, is_Some (timers st !! t) → t < next_timer st).

(** A well-formed popup template. *)
Definition template : Template :=
  {| has_title := true; has_content := true;
     has_dismiss := true; has_mark_done := true |}.

(** The close timers still pending whose popup is no longer in the
    document. *)
Definition stale_timers (st : Page) : list nat :=
  (map_to_list (timers st)) ≫= λ it,
    match callback it.2 with
    | ClosePopup node =>
        if bool_decide (node ∈ popup_node <$> popups st) then [] else [it.1]
    | SetupNotifications => []
    end.

End Spec.

(** ** What the specification says of an upload *)

Module UploadSpec.
Import Upload.

(** The outcome of an upload: the data of a response whose [ok] is
    true, nothing when [ok] is false or the request failed. *)
Definition uploaded (resp : Response) : option Data :=
  match resp with
  | Responded _ (Some data) => if ok data then Some data else None
  | _ => None
  end.

(** The progress box while the upload runs. *)
Definition uploading_box : ProgressBox :=
  {| display := lit "block";
     fill_width := Some (lit "0%");
     progress_text := Some (lit "Uploading...") |}.

End UploadSpec.

(** ** What holds of the popups on a page *)

Module PopupSpec.
Import Browser.

(** Every popup whose mark-done handler is installed has its
    two-minute close timer pending. *)
Definition timed (st : Page) : Prop :=
  ∀ p, p ∈ popups st → is_Some (mark_done_onclick p) →
    ∃ t, timers st !! t =
           Some {| callback := ClosePopup (popup_node p); delay := 120000 |}.

End PopupSpec.

(** ** Runs of the theme handlers *)

Module ThemeRuns.

(** What the user does to a page with the multi-theme switch; each
    event comes with what [isMobileDevice()] answers at that time. *)
Inductive Event :=
| Click (isMobile : bool)
| Resize (isMobile : bool).

Definition handle (e : Event) (l : MultiTheme.Live) : MultiTheme.Live :=
  match e with
  | Click isMobile => MultiTheme.click isMobile l
  | Resize isMobile => MultiTheme.resize isMobile l
  end.

Definition run (es : list Event) (l : MultiTheme.Live) : MultiTheme.Live :=
  foldl (λ l e, handle e l) l es.

(** The device as the last handler saw it. *)
Definition device (isMobile : bool) (es : list Event) : bool :=
  foldl (λ _ e, match e with Click m | Resize m => m end) isMobile es.

(** The style sheet of a theme for a device. *)
Definition sheet (isMobile : bool) (s : MultiTheme.sheets) : jsstring :=
  if isMobile then MultiTheme.mobile s else MultiTheme.desktop s.

(** The link follows the storage: the stored name is a theme of the
    table and the link is its sheet for the device; the closure
    variable holds no inherited member's name. *)
Definition follows (isMobile : bool) (l : MultiTheme.Live) : Prop :=
  MultiTheme.themes_get (MultiTheme.currentTheme l) ≠ MultiTheme.Inherited
  ∧ ∃ n s, MultiTheme.storage l !! lit "themeName" = Some n
           ∧ MultiTheme.own n MultiTheme.themes = Some s
           ∧ MultiTheme.href l = sheet isMobile s.

(** A run of clicks on the dark-theme toggle. *)
Definition dark_clicks (n : nat) (p : DarkTheme.Page) : DarkTheme.Page :=
  Nat.iter n DarkTheme.click p.

End ThemeRuns.

(** ** The handlers that start an upload, [initFileUpload] of [src/unnamed/part_000] *)

Module UploadEvents.
Import Upload.

(** The entry [uploadFile] puts in front of the note's files. *)
Definition file_entry (data : Data) : FileEntry :=
  {| entry_href :=
       lit "/download_file/" ++
       (if file_id_truthy (file_id data) then file_id_string (file_id data) else []);
     entry_text := set_textContent (filename data) |}.

(** [pat] taken off the front of [s], when [s] starts with it. *)
Fixpoint strip_prefix (pat s : jsstring) : option jsstring :=
  match pat, s with
  | [], _ => Some s
  | p :: pat', c :: s' => if decide (p = c) then strip_prefix pat' s' else None
  | _ :: _, [] => None
  end.

(** [s.replace(pat, '')] for a string [pat]: the first occurrence of
    [pat] is taken out, and [s] is returned as it is when there is
    none. *)
Fixpoint replace (pat s : jsstring) : jsstring :=
  match strip_prefix pat s with
  | Some rest => rest
  | None =>
      match s with
      | [] => []
      | c :: s' => c :: replace pat s'
      end
  end.

(** A [.dropzone]: its key among the zones of the page and what
    [zone.dataset.noteId] reads. *)
Record Dropzone := {
  zone : nat;
  dataset_noteId : jsval
}.

(** The events [initDropzones] listens to, with the files of the input
    or of the data transfer. *)
Inductive ZoneEvent :=
| ZoneClick
| InputChange (files : list jsstring)
| ZoneDragover
| ZoneDragleave
| ZoneDrop (files : list jsstring).

(** The listeners of [initDropzones]; a click opens the file chooser
    of the input and changes nothing on the page. *)
Definition dropzone_on (e : ZoneEvent) (d : Dropzone) (st : Page) : Page :=
  match e with
  | ZoneClick => st
  | InputChange files =>
      match files with
      | file :: _ => uploadFile (dataset_noteId d) file (zone d) st
      | [] => st
      end
  | ZoneDragover => zone_classes (ClassList.add (lit "dragover")) (zone d) st
  | ZoneDragleave => zone_classes (ClassList.remove (lit "dragover")) (zone d) st
  | ZoneDrop files =>
      let st := zone_classes (ClassList.remove (lit "dragover")) (zone d) st in
      match files with
      | file :: _ => uploadFile (dataset_noteId d) file (zone d) st
      | [] => st
      end
  end.

(** A [.file-attachment-area]: its id, the data-note-id attribute of
    its [.file-input], and the classes of its [.drop-zone]. *)
Record Area := {
  area_id : jsstring;
  input_noteId : jsval;
  drop_classList : list jsstring
}.

Inductive AreaEvent :=
| Dragenter
| Dragover
| Dragleave
| Drop (files : list jsstring)
| Change (files : list jsstring).

(** [highlight(e)] and [unhighlight(e)] on the drop area. *)
Definition highlight (a : Area) : Area :=
  {| area_id := area_id a; input_noteId := input_noteId a;
     drop_classList := ClassList.add (lit "drag-over") (drop_classList a) |}.

Definition unhighlight (a : Area) : Area :=
  {| area_id := area_id a; input_noteId := input_noteId a;
     drop_classList := ClassList.remove (lit "drag-over") (drop_classList a) |}.

(** [handleDrop(e)] *)
Definition handleDrop (a : Area) (files : list jsstring) (st : Page) : Page :=
  let noteId := replace (lit "file-drop-") (area_id a) in
  handleFiles files noteId st.

(** The listeners of [initFileAttachmentAreas], in the order they were
    added; [preventDefaults] changes nothing on the page. *)
Definition area_on (e : AreaEvent) (a : Area) (st : Page) : Area * Page :=
  match e with
  | Dragenter | Dragover => (highlight a, st)
  | Dragleave => (unhighlight a, st)
  | Drop files => (unhighlight a, handleDrop a files st)
  | Change files => (a, handleFiles files (to_string (input_noteId a)) st)
  end.

Definition area_run (es : list AreaEvent) (a : Area) (st : Page) : Area * Page :=
  foldl (λ s e, area_on e s.1 s.2) (a, st) es.

End UploadEvents.

(** ** Search *)

(** [encodeURIComponent], after ECMAScript's Encode: the unreserved
    characters stay, every other code point is written as the
    percent-encoded octets of its UTF-8 form, and a surrogate without
    its partner makes the call throw a URIError ([None]). *)

Module URI.

Definition between (lo hi c : N) : bool := ((lo <=? c) && (c <=? hi))%N.

(** A-Z a-z 0-9 - _ . ! ~ * ' ( ) *)
Definition unreserved (c : N) : bool :=
  between 65 90 c || between 97 122 c || between 48 57 c
  || bool_decide (c ∈ [45; 95; 46; 33; 126; 42; 39; 40; 41]%N).

Definition hex_digit (n : N) : N := (if n <? 10 then 48 + n else 55 + n)%N.

(** "%XX" *)
Definition percent (octet : N) : jsstring :=
  [37%N; hex_digit (octet / 16); hex_digit (octet mod 16)].

Definition utf8 (cp : N) : list N :=
  (if cp <? 128 then [cp]
   else if cp <? 2048 then [192 + cp / 64; 128 + cp mod 64]
   else if cp <? 65536 then
     [224 + cp / 4096; 128 + (cp / 64) mod 64; 128 + cp mod 64]
   else
     [240 + cp / 262144; 128 + (cp / 4096) mod 64;
      128 + (cp / 64) mod 64; 128 + cp mod 64])%N.

Definition leading (c : N) : bool := between 55296 56319 c.
Definition trailing (c : N) : bool := between 56320 57343 c.

Definition escape (cp : N) : jsstring := utf8 cp ≫= percent.

(** What [encodeURIComponent] lets through: an unreserved character
    or "%". *)
Definition plain (c : N) : Prop := unreserved c = true ∨ c = 37%N.

Fixpoint encodeURIComponent (s : jsstring) : option jsstring :=
  match s with
  | [] => Some []
  | c :: s' =>
      if unreserved c then (c ::.) <$> encodeURIComponent s'
      else if trailing c then None
      else if leading c then
        match s' with
        | d :: s'' =>
            if trailing d then
              (escape (65536 + (c - 55296) * 1024 + (d - 56320))%N ++.)
                <$> encodeURIComponent s''
            else None
        | [] => None
        end
      else (escape c ++.) <$> encodeURIComponent s'
  end.

End URI.

(** *** [initSearch] of [src/static/script.js] *)

Module StreamSearch.

Inductive Input := Search | CompletedSearch.

Inductive Response :=
| Rejected
| Resolved (ok : bool) (text : jsstring).

Record Page := {
  search : option jsstring;             (* value of #search *)
  completed_search : option jsstring;   (* value of #completed_search *)
  notesContainer : option jsstring;     (* innerHTML of #notes-container *)
  requests : list jsstring;             (* the URLs fetched, oldest first *)
  pending : gset nat;                   (* by position in [requests] *)
  console : list jsstring
}.

Definition element (i : Input) (p : Page) : option jsstring :=
  match i with
  | Search => search p
  | CompletedSearch => completed_search p
  end.

(** The second argument of [setupSearch]. *)
Definition completed (i : Input) : jsstring :=
  match i with
  | Search => lit "false"
  | CompletedSearch => lit "true"
  end.

(** The user edits an input: its value is [value] when the listener
    runs. *)
Definition type (i : Input) (value : jsstring) (p : Page) : Page :=
  match i with
  | Search =>
      {| search := Some value; completed_search := completed_search p;
         notesContainer := notesContainer p; requests := requests p;
         pending := pending p; console := console p |}
  | CompletedSearch =>
      {| search := search p; completed_search := Some value;
         notesContainer := notesContainer p; requests := requests p;
         pending := pending p; console := console p |}
  end.

Definition fetch (url : jsstring) (p : Page) : Page :=
  {| search := search p; completed_search := completed_search p;
     notesContainer := notesContainer p; requests := requests p ++ [url];
     pending := {[ length (requests p) ]} ∪ pending p; console := console p |}.

Definition console_error (msg : jsstring) (p : Page) : Page :=
  {| search := search p; completed_search := completed_search p;
     notesContainer := notesContainer p; requests := requests p;
     pending := pending p; console := console p ++ [msg] |}.

(** The "input" listener [setupSearch] adds, present when the element
    is; a URIError ends it before anything is sent. *)
Definition oninput (i : Input) (value : jsstring) (p : Page) : Page :=
  match element i p with
  | None => p
  | Some _ =>
      let p := type i value p in
      match URI.encodeURIComponent value with
      | None => p
      | Some q =>
          fetch (lit "/search_notes?q=" ++ q ++ lit "&completed=" ++ completed i) p
      end
  end.

(** The promise chain of the listener, once the request has settled. *)
Definition settle (req : nat) (r : Response) (p : Page) : Page :=
  if bool_decide (req ∈ pending p) then
    let p :=
      {| search := search p; completed_search := completed_search p;
         notesContainer := notesContainer p; requests := requests p;
         pending := pending p ∖ {[ req ]}; console := console p |} in
    match r with
    | Resolved true html =>
        match notesContainer p with
        | Some _ =>
            {| search := search p; completed_search := completed_search p;
               notesContainer := Some html; requests := requests p;
               pending := pending p; console := console p |}
        | None => console_error (lit "Search error:") p
        end
    | _ => console_error (lit "Search error:") p
    end
  else p.

End StreamSearch.

(** *** [initSearch] of [src/unnamed/part_000], beside the view toggle *)

Module ViewSearch.

Inductive Response :=
| Rejected
| Resolved (ok : bool) (text : jsstring).

(** The page of the view toggle with what the containers show and the
    searches under way, each with the [isCompletedView] its listener
    read. *)
Record Page := {
  view : NoteToggle.Live;
  active_html : jsstring;               (* innerHTML of #active-notes-container *)
  completed_html : jsstring;            (* innerHTML of #completed-notes-container *)
  requests : list jsstring;
  pending : gmap nat bool;
  console : list jsstring
}.

Definition set_view (v : NoteToggle.Live) (p : Page) : Page :=
  {| view := v; active_html := active_html p; completed_html := completed_html p;
     requests := requests p; pending := pending p; console := console p |}.

(** The user edits #search. *)
Definition type (value : jsstring) (v : NoteToggle.Live) : NoteToggle.Live :=
  {| NoteToggle.active_display := NoteToggle.active_display v;
     NoteToggle.completed_display := NoteToggle.completed_display v;
     NoteToggle.label := NoteToggle.label v;
     NoteToggle.search_value := Some value;
     NoteToggle.viewActiveText := NoteToggle.viewActiveText v;
     NoteToggle.viewCompletedText := NoteToggle.viewCompletedText v;
     NoteToggle.showingCompleted := NoteToggle.showingCompleted v |}.

(** [`${isCompletedView}`] *)
Definition boolean (b : bool) : jsstring := if b then lit "true" else lit "false".

(** The "input" listener of #search, present when the element is. *)
Definition oninput (value : jsstring) (p : Page) : Page :=
  match NoteToggle.search_value (view p) with
  | None => p
  | Some _ =>
      let p := set_view (type value (view p)) p in
      let isCompletedView :=
        negb (bool_decide (NoteToggle.completed_display (view p) = lit "none")) in
      match URI.encodeURIComponent value with
      | None => p
      | Some q =>
          {| view := view p; active_html := active_html p;
             completed_html := completed_html p;
             requests :=
               requests p ++
               [lit "/search_notes?q=" ++ q ++ lit "&completed=" ++ boolean isCompletedView];
             pending := <[length (requests p) := isCompletedView]> (pending p);
             console := console p |}
      end
  end.

Definition console_error (msg : jsstring) (p : Page) : Page :=
  {| view := view p; active_html := active_html p; completed_html := completed_html p;
     requests := requests p; pending := pending p; console := console p ++ [msg] |}.

(** The promise chain of the listener, once the request has settled. *)
Definition settle (req : nat) (r : Response) (p : Page) : Page :=
  match pending p !! req with
  | None => p
  | Some isCompletedView =>
      let p :=
        {| view := view p; active_html := active_html p;
           completed_html := completed_html p; requests := requests p;
           pending := delete req (pending p); console := console p |} in
      match r with
      | Resolved true html =>
          if (isCompletedView : bool) then
            {| view := view p; active_html := active_html p; completed_html := html;
               requests := requests p; pending := pending p; console := console p |}
          else
            {| view := view p; active_html := html; completed_html := completed_html p;
               requests := requests p; pending := pending p; console := console p |}
      | _ => console_error (lit "Search error:") p
      end
  end.

(** A click on the toggle button. *)
Definition click (p : Page) : Page := set_view (NoteToggle.switchView (view p)).1 p.

Definition clicks (n : nat) (p : Page) : Page := Nat.iter n click p.

End ViewSearch.

(** ** Language, [initLanguage] of both scripts *)

Module Language.

(** The texts of one language in translations.json that the script
    reads. *)
Record Translation := {
  switch_theme : jsval;
  search_notes : jsval;
  remind_at : jsval
}.

(** [CLIENT_T[lang]]: a language of the file, a member inherited from
    [Object.prototype] (truthy, without texts), or nothing. *)
Inductive entry :=
| Own (t : Translation)
| Inherited
| Missing.

Definition get (CLIENT_T : gmap (list N) Translation) (lang : jsstring) : entry :=
  match CLIENT_T !! lang with
  | Some t => Own t
  | None =>
      if bool_decide (lang ∈ MultiTheme.object_prototype) then Inherited else Missing
  end.

(** #lang-switch: the values of its options and its value, empty when
    no option is selected. *)
Record Select := {
  options : list jsstring;
  value : jsstring
}.

(** [select.value = v] selects the option of that value, or none. *)
Definition set_value (v : jsstring) (s : Select) : Select :=
  {| options := options s; value := if bool_decide (v ∈ options s) then v else [] |}.

Inductive Pending :=
| AwaitTranslations
| AwaitLanguageSet.

(** A request with the language of its JSON body, for /set_language. *)
Record Request := {
  url : jsstring;
  body_lang : option jsstring
}.

Inductive Response :=
| Rejected
| Resolved (ok : bool) (json : option (gmap (list N) Translation)).
                                        (* None: the body is not JSON *)

Record Page := {
  themeBtn : option jsstring;           (* textContent of #theme-switch *)
  searchInput : option jsstring;        (* placeholder of #search *)
  reminderLabel : option jsstring;      (* textContent of label[for='reminder_at'] *)
  langSelect : option Select;
  localStorage : gmap (list N) (list N);
  CLIENT_T : gmap (list N) Translation;
  listening : bool;                     (* the change listener is installed *)
  requests : list Request;
  pending : gmap nat Pending;
  console : list jsstring;
  reloaded : bool
}.

Definition set_texts (b s l : option jsstring) (p : Page) : Page :=
  {| themeBtn := b; searchInput := s; reminderLabel := l;
     langSelect := langSelect p; localStorage := localStorage p;
     CLIENT_T := CLIENT_T p; listening := listening p; requests := requests p;
     pending := pending p; console := console p; reloaded := reloaded p |}.

Definition set_storage (ls : gmap (list N) (list N)) (p : Page) : Page :=
  {| themeBtn := themeBtn p; searchInput := searchInput p;
     reminderLabel := reminderLabel p;
     langSelect := langSelect p; localStorage := ls;
     CLIENT_T := CLIENT_T p; listening := listening p; requests := requests p;
     pending := pending p; console := console p; reloaded := reloaded p |}.

Definition set_select (s : option Select) (on : bool) (p : Page) : Page :=
  {| themeBtn := themeBtn p; searchInput := searchInput p;
     reminderLabel := reminderLabel p;
     langSelect := s; localStorage := localStorage p;
     CLIENT_T := CLIENT_T p; listening := on; requests := requests p;
     pending := pending p; console := console p; reloaded := reloaded p |}.

Definition set_translations (t : gmap (list N) Translation) (p : Page) : Page :=
  {| themeBtn := themeBtn p; searchInput := searchInput p;
     reminderLabel := reminderLabel p;
     langSelect := langSelect p; localStorage := localStorage p;
     CLIENT_T := t; listening := listening p; requests := requests p;
     pending := pending p; console := console p; reloaded := reloaded p |}.

Definition log (msg : jsstring) (p : Page) : Page :=
  {| themeBtn := themeBtn p; searchInput := searchInput p;
     reminderLabel := reminderLabel p;
     langSelect := langSelect p; localStorage := localStorage p;
     CLIENT_T := CLIENT_T p; listening := listening p; requests := requests p;
     pending := pending p; console := console p ++ [msg]; reloaded := reloaded p |}.

Definition fetch (r : Request) (k : Pending) (p : Page) : Page :=
  {| themeBtn := themeBtn p; searchInput := searchInput p;
     reminderLabel := reminderLabel p;
     langSelect := langSelect p; localStorage := localStorage p;
     CLIENT_T := CLIENT_T p; listening := listening p;
     requests := requests p ++ [r];
     pending := <[length (requests p) := k]> (pending p);
     console := console p; reloaded := reloaded p |}.

Definition settled (req : nat) (p : Page) : Page :=
  {| themeBtn := themeBtn p; searchInput := searchInput p;
     reminderLabel := reminderLabel p;
     langSelect := langSelect p; localStorage := localStorage p;
     CLIENT_T := CLIENT_T p; listening := listening p; requests := requests p;
     pending := delete req (pending p); console := console p;
     reloaded := reloaded p |}.

Definition location_reload (p : Page) : Page :=
  {| themeBtn := themeBtn p; searchInput := searchInput p;
     reminderLabel := reminderLabel p;
     langSelect := langSelect p; localStorage := localStorage p;
     CLIENT_T := CLIENT_T p; listening := listening p; requests := requests p;
     pending := pending p; console := console p; reloaded := true |}.

Inductive completion := Returns | Throws.

(** [applyClientLanguage(lang)].  Reading a text off a language that
    is not there throws, at the first element that is on the page. *)
Definition applyClientLanguage (lang : jsstring) (p : Page) : Page * completion :=
  let lang :=
    match get (CLIENT_T p) lang with
    | Missing => lit "pt"
    | _ => lang
    end in
  let p := set_storage (setItem (lit "lang") lang (localStorage p)) p in
  match get (CLIENT_T p) lang with
  | Own t =>
      (set_texts ((λ _, set_textContent (switch_theme t)) <$> themeBtn p)
                 ((λ _, to_string (search_notes t)) <$> searchInput p)
                 ((λ _, set_textContent (remind_at t)) <$> reminderLabel p) p,
       Returns)
  | Inherited =>
      (set_texts ((λ _, set_textContent JUndefined) <$> themeBtn p)
                 ((λ _, to_string JUndefined) <$> searchInput p)
                 ((λ _, set_textContent JUndefined) <$> reminderLabel p) p,
       Returns)
  | Missing =>
      match themeBtn p, searchInput p, reminderLabel p with
      | None, None, None => (p, Returns)
      | _, _, _ => (p, Throws)
      end
  end.

(** The fallback of the stored language, as the script has it. *)
Definition placeholder : jsstring := lit "{{ current_lang|default('pt') }}".

(** [initLanguage()] up to the request of [loadTranslations]. *)
Definition initLanguage (p : Page) : Page :=
  fetch {| url := lit "/static/translations.json"; body_lang := None |}
    AwaitTranslations (set_translations ∅ p).

(** The rest of [initLanguage], once the translations have or have
    not arrived, and whether the function returns; an exception of
    [applyClientLanguage] is not caught. *)
Definition initLanguage_rest (r : Response) (p : Page) : Page * completion :=
  match r with
  | Resolved true (Some translations) =>
      let p := log (lit "Loaded translations:") (set_translations translations p) in
      let stored := or_else (getItem (lit "lang") (localStorage p)) placeholder in
      match applyClientLanguage stored p with
      | (p, Throws) => (p, Throws)
      | (p, Returns) =>
          match langSelect p with
          | None => (p, Returns)
          | Some s =>
              let s :=
                if bool_decide (value s = []) then
                  set_value (or_else (getItem (lit "lang") (localStorage p)) stored) s
                else s in
              (set_select (Some s) true p, Returns)
          end
      end
  | _ => (log (lit "Failed to load translations.json") p, Returns)
  end.

Definition initLanguage_then (r : Response) (p : Page) : Page :=
  (initLanguage_rest r p).1.

(** The "change" listener of #lang-switch, the user having selected
    [newLang]. *)
Definition onchange (newLang : jsstring) (p : Page) : Page :=
  if listening p then
    let p :=
      set_select ((λ s, {| options := options s; value := newLang |}) <$> langSelect p)
        true p in
    match applyClientLanguage newLang p with
    | (p, Throws) => p
    | (p, Returns) =>
        fetch {| url := lit "/set_language"; body_lang := Some newLang |}
          AwaitLanguageSet p
    end
  else p.

Definition settle (req : nat) (r : Response) (p : Page) : Page :=
  match pending p !! req with
  | None => p
  | Some k =>
      let p := settled req p in
      match k with
      | AwaitTranslations => initLanguage_then r p
      | AwaitLanguageSet =>
          match r with
          | Resolved true _ => location_reload p
          | _ => log (lit "Language change failed") p
          end
      end
  end.

(** Loading the page again: the markup comes from the server anew, the
    storage is the browser's. *)
Definition reload (served : Page) (p : Page) : Page :=
  set_storage (localStorage p) served.

(** The texts of a language are on the elements the page has. *)
Definition translated (t : Translation) (p p' : Page) : Prop :=
  themeBtn p' = (λ _, set_textContent (switch_theme t)) <$> themeBtn p
  ∧ searchInput p' = (λ _, to_string (search_notes t)) <$> searchInput p
  ∧ reminderLabel p' = (λ _, set_textContent (remind_at t)) <$> reminderLabel p.

End Language.

(** ** The [DOMContentLoaded] listener of [src/unnamed/part_000] *)

Module PageLoad.
Import UploadEvents.

(** The listener from [await initLanguage()] on: the language part and
    the upload part of the page, and whether [initFileUpload] has
    run. *)
Record App := {
  language : Language.Page;
  upload : Upload.Page;
  fileUpload : bool
}.

Definition onDOMContentLoaded (l : Language.Page) (u : Upload.Page) : App :=
  {| language := Language.initLanguage l; upload := u; fileUpload := false |}.

(** A request of the language part settles.  With the request of the
    translations the promise of [initLanguage] settles too, and the
    listener goes on to [initFileUpload] unless it was rejected. *)
Definition settle (req : nat) (r : Language.Response) (a : App) : App :=
  match Language.pending (language a) !! req with
  | Some Language.AwaitTranslations =>
      match Language.initLanguage_rest r (Language.settled req (language a)) with
      | (l, Language.Returns) => {| language := l; upload := upload a; fileUpload := true |}
      | (l, Language.Throws) => {| language := l; upload := upload a; fileUpload := fileUpload a |}
      end
  | _ =>
      {| language := Language.settle req r (language a); upload := upload a;
         fileUpload := fileUpload a |}
  end.

(** An event on a [.dropzone] or on a [.file-attachment-area]: the
    listeners are there once [initFileUpload] has run, every dropzone
    having its [.dropzone-input] and every area its [.drop-zone] and
    [.file-input], as the page serves them. *)
Definition zone_event (e : ZoneEvent) (d : Dropzone) (a : App) : App :=
  if fileUpload a then
    {| language := language a; upload := dropzone_on e d (upload a);
       fileUpload := true |}
  else a.

Definition area_event (e : AreaEvent) (ar : Area) (a : App) : Area * App :=
  if fileUpload a then
    let (ar', u) := area_on e ar (upload a) in
    (ar', {| language := language a; upload := u; fileUpload := true |})
  else (ar, a).

End PageLoad.

(** * Properties *)

(** ** Theme selection *)

Section theme_facts.
Import MultiTheme.

Lemma themes_get_own name s :
  own name themes = Some s → themes_get name = Own s.
Proof. unfold themes_get. by intros ->. Qed.

(** What the switch button selects: "light" from "matrix", and
    "matrix" from anything else. *)
Lemma click_currentTheme isMobile l :
  currentTheme (click isMobile l) =
  if decide (currentTheme l = lit "matrix") then lit "light" else lit "matrix".
Proof.
  unfold click, applyTheme. cbn [currentTheme].
  unfold themeOrder. cbn [indexOf length].
  destruct (decide (lit "matrix" = currentTheme l)) as [E|NE];
    destruct (decide (currentTheme l = lit "matrix")) as [E'|NE'];
    try congruence.
  - reflexivity.
  - destruct (decide (lit "light" = currentTheme l)); reflexivity.
Qed.

Lemma applyTheme_own isMobile name s l :
  own name themes = Some s →
  applyTheme isMobile name l =
  {| href := if isMobile then mobile s else desktop s;
     storage := <[lit "themeName" := name]> (storage l);
     currentTheme := currentTheme l |}.
Proof.
  intros H. unfold applyTheme.
  rewrite (themes_get_own _ _ H). cbv beta iota zeta.
  rewrite (themes_get_own _ _ H). reflexivity.
Qed.

Lemma order_own name :
  name ∈ themeOrder → is_Some (own name themes).
Proof.
  unfold themeOrder. rewrite !elem_of_cons, elem_of_nil.
  intros [-> | [-> | []]]; eexists; reflexivity.
Qed.

Lemma click_in_order isMobile l : currentTheme (click isMobile l) ∈ themeOrder.
Proof.
  rewrite click_currentTheme. unfold themeOrder.
  case_decide; set_solver.
Qed.

Lemma click_storage isMobile l :
  storage (click isMobile l) !! lit "themeName" = Some (currentTheme (click isMobile l)).
Proof.
  pose proof (click_in_order isMobile l) as Hin.
  destruct (order_own _ Hin) as [s Hs]. revert Hs.
  unfold click. set (t := default _ _).
  intros Hs. rewrite (applyTheme_own _ _ _ _ Hs). cbn.
  apply lookup_insert_eq.
Qed.

End theme_facts.

Section classList_facts.
Import ClassList.

Lemma contains_add c l : contains c (add c l) = true.
Proof.
  unfold add. destruct (contains c l) eqn:E; [done|].
  unfold contains. apply bool_decide_eq_true. set_solver.
Qed.

Lemma contains_remove c l : contains c (remove c l) = false.
Proof.
  unfold contains, remove. apply bool_decide_eq_false.
  rewrite list_elem_of_filter. intros [H _]. by apply H.
Qed.

Lemma contains_toggle c l : contains c (toggle c l) = negb (contains c l).
Proof.
  unfold toggle. destruct (contains c l) eqn:E; cbn.
  - apply contains_remove.
  - apply contains_add.
Qed.


End classList_facts.

Section theme_theorems.
Import MultiTheme.


Lemma or_else_nonempty (s d : jsstring) : s ≠ [] → or_else (JStr s) d = s.
Proof. destruct s; [done | reflexivity]. Qed.


(** C8: in the multi-theme variant, after every click of the
    theme-switch button the current theme is one of the cycle order
    ["matrix", "light"] (never "default"), the name stored under
    "themeName" is a key of the theme table, and from a theme of the
    cycle order two consecutive clicks lead back to it. *)
Theorem theme_switch_cycle (isMobile : bool) (l : Live) :
  let l1 := click isMobile l in
  currentTheme l1 ∈ themeOrder
  ∧ currentTheme l1 ≠ lit "default"
  ∧ (∃ name, storage l1 !! lit "themeName" = Some name ∧ name ∈ themes.*1)
  ∧ (currentTheme l ∈ themeOrder →
     ∀ m1 m2, currentTheme (click m2 (click m1 l)) = currentTheme l).
Proof.
  cbv zeta. split; [apply click_in_order|]. split; [|split].
  - rewrite click_currentTheme. case_decide; discriminate.
  - exists (currentTheme (click isMobile l)). split; [apply click_storage|].
    rewrite click_currentTheme. unfold themes.
    rewrite !fmap_cons, !elem_of_cons. cbn [fst].
    case_decide; auto.
  - unfold themeOrder. rewrite !elem_of_cons, elem_of_nil.
    intros Hin m1 m2. rewrite !click_currentTheme.
    destruct Hin as [-> | [-> | []]]; reflexivity.
Qed.

Lemma theme_switch_cycle_witness :
  let l :=
    {| href := lit "/static/style2.css"; storage := ∅; currentTheme := lit "light" |} in
  currentTheme l ∈ themeOrder
  ∧ currentTheme (click true (click false l)) = currentTheme l.
Proof.
  intros l.
  assert (H : currentTheme l ∈ themeOrder).
  { apply (bool_decide_unpack _). vm_compute. exact I. }
  split; [exact H|].
  exact (proj2 (proj2 (proj2 (theme_switch_cycle false l))) H false true).
Defined.

End theme_theorems.

Section theme_persistence.

Lemma dark_click_storage p :
  DarkTheme.localStorage (DarkTheme.click p) !! lit "theme" =
  Some (if ClassList.contains (lit "dark-theme")
             (DarkTheme.body_classList (DarkTheme.click p))
        then lit "dark" else lit "light").
Proof.
  unfold DarkTheme.click. cbn [DarkTheme.localStorage DarkTheme.body_classList].
  destruct (ClassList.contains _ _); apply lookup_insert_eq.
Qed.


Import MultiTheme.

(** When the timezone request of a load fails, the listener ends
    before [initTheme] and the link keeps the style sheet of the
    markup. *)
Lemma onDOMContentLoaded_rejected isMobile p :
  onDOMContentLoaded false isMobile p = None.
Proof. reflexivity. Qed.



End theme_persistence.

(** ** Reminders *)

Section reminder_texts.
Import Browser Spec.

Lemma stream_titleText title : StreamApp.titleText title = displayed_title title.
Proof. by destruct title as [| |[|c s]]. Qed.

Lemma polling_titleText title : PollingApp.titleText title = displayed_title title.
Proof. by destruct title as [| |[|c s]]. Qed.

Lemma stream_contentText content :
  StreamApp.contentText content = displayed_content content.
Proof.
  destruct content as [| |[|c s]]; try reflexivity.
  unfold StreamApp.contentText, displayed_content, slice0.
  cbn [truthy to_string].
  destruct (200 <? length (c :: s)) eqn:E.
  - apply Nat.ltb_lt in E. rewrite bool_decide_eq_false_2 by lia. reflexivity.
  - apply Nat.ltb_ge in E. rewrite bool_decide_eq_true_2 by lia. reflexivity.
Qed.

Lemma polling_contentText content :
  PollingApp.contentText content = displayed_content content.
Proof.
  destruct content as [| |[|c s]]; try reflexivity.
  unfold PollingApp.contentText, displayed_content, slice0.
  cbn [truthy to_string].
  destruct (200 <? length (c :: s)) eqn:E.
  - apply Nat.ltb_lt in E. rewrite bool_decide_eq_false_2 by lia. reflexivity.
  - apply Nat.ltb_ge in E. rewrite bool_decide_eq_true_2 by lia. reflexivity.
Qed.

(** The page after the stream variant has received one reminder. *)
Lemma stream_receive r st :
  StreamApp.receive r st =
  {| popups := popups st;
     requests :=
       requests st ++ [request (lit "partials/popup_partial.html") no_init;
                       acknowledgment (id r)];
     pending :=
       <[S (length (requests st)) := AwaitLogged (lit "Error marking as reminded:")]>
         (<[length (requests st) := AwaitTemplate (id r) (title r) (content r)]>
            (pending st));
     timers := timers st; next_timer := next_timer st;
     notifications :=
       notifications st ++ (if permission_is Granted st then [shown r] else []);
     console := console st; permission := permission st;
     prompting := prompting st; eventSource := eventSource st;
     interval := interval st |}.
Proof.
  unfold StreamApp.receive, StreamApp.showPopup, StreamApp.safeFetch, fetch, notify, shown.
  rewrite stream_titleText, stream_contentText.
  destruct (permission_is Granted st); cbn;
    rewrite ?length_app, ?Nat.add_1_r, <- ?app_assoc, ?app_nil_r; reflexivity.
Qed.

(** The page after the polling variant has received one reminder. *)
Lemma polling_receive r st :
  PollingApp.receive r st =
  {| popups := popups st;
     requests :=
       requests st ++ [request (lit "/partials/popup_partial.html") no_init;
                       acknowledgment (id r)];
     pending :=
       <[S (length (requests st)) := AwaitLogged (lit "Error marking as reminded:")]>
         (<[length (requests st) := AwaitTemplate (id r) (title r) (content r)]>
            (pending st));
     timers := timers st; next_timer := next_timer st;
     notifications :=
       notifications st ++ (if permission_is Granted st then [shown r] else []);
     console := console st; permission := permission st;
     prompting := prompting st; eventSource := eventSource st;
     interval := interval st |}.
Proof.
  unfold PollingApp.receive, PollingApp.showPopup, fetch, notify, shown.
  fold (PollingApp.titleText (title r)). fold (PollingApp.contentText (content r)).
  rewrite polling_titleText, polling_contentText.
  destruct (permission_is Granted st); cbn;
    rewrite ?length_app, ?Nat.add_1_r, <- ?app_assoc, ?app_nil_r; reflexivity.
Qed.

End reminder_texts.

Section reminder_popups.
Import Browser Spec.

(** Both variants build the same popup from the same response. *)
Lemma showPopup_then_popups node noteId title content resp st1 st2 :
  popups st1 = popups st2 →
  popups (StreamApp.showPopup_then node noteId title content resp st1) =
  popups (PollingApp.showPopup_then node noteId title content resp st2).
Proof.
  intros H. unfold StreamApp.showPopup_then, PollingApp.showPopup_then.
  rewrite stream_titleText, stream_contentText, polling_titleText, polling_contentText.
  destruct resp as [|ok [[[[] [] [] []]|]| |]]; cbn; rewrite ?H; reflexivity.
Qed.

(** With the title and content elements in the template, the popup is
    appended, carrying the texts of the reminder. *)
Lemma stream_showPopup_then node r ok t st :
  has_title t = true → has_content t = true →
  ∃ p, popups (StreamApp.showPopup_then node (id r) (title r) (content r)
                 (Resolved ok (Html (Some t))) st) = popups st ++ [p]
       ∧ popup_node p = node
       ∧ popup_title p = displayed_title (title r)
       ∧ popup_content p = displayed_content (content r).
Proof.
  intros Ht Hc. unfold StreamApp.showPopup_then.
  rewrite stream_titleText, stream_contentText.
  cbn [querySelector_popup]. rewrite Ht, Hc. cbn [negb].
  destruct (has_dismiss t), (has_mark_done t); cbn; eauto.
Qed.

Lemma polling_showPopup_then node r ok t st :
  has_title t = true → has_content t = true →
  ∃ p, popups (PollingApp.showPopup_then node (id r) (title r) (content r)
                 (Resolved ok (Html (Some t))) st) = popups st ++ [p]
       ∧ popup_node p = node
       ∧ popup_title p = displayed_title (title r)
       ∧ popup_content p = displayed_content (content r).
Proof.
  intros Ht Hc. unfold PollingApp.showPopup_then.
  rewrite polling_titleText, polling_contentText.
  cbn [querySelector_popup]. rewrite Ht, Hc. cbn [negb].
  destruct (has_dismiss t), (has_mark_done t); cbn; eauto.
Qed.

(** After a reminder is received, its template request is the one
    pending at the position the request log had before. *)
Lemma stream_settle_template r resp st :
  StreamApp.settle (length (requests st)) resp (StreamApp.receive r st) =
  StreamApp.showPopup_then (length (requests st)) (id r) (title r) (content r) resp
    (set_pending (delete (length (requests st)) (pending (StreamApp.receive r st)))
       (StreamApp.receive r st)).
Proof.
  unfold StreamApp.settle. rewrite stream_receive at 1. cbn [pending].
  rewrite lookup_insert_ne by lia. rewrite lookup_insert_eq. reflexivity.
Qed.

Lemma polling_settle_template r resp st :
  PollingApp.settle (length (requests st)) resp (PollingApp.receive r st) =
  PollingApp.showPopup_then (length (requests st)) (id r) (title r) (content r) resp
    (set_pending (delete (length (requests st)) (pending (PollingApp.receive r st)))
       (PollingApp.receive r st)).
Proof.
  unfold PollingApp.settle. rewrite polling_receive at 1. cbn [pending].
  rewrite lookup_insert_ne by lia. rewrite lookup_insert_eq. reflexivity.
Qed.

End reminder_popups.

Section reminder_display.
Import Browser Spec.

(** C4: for every reminder, the texts displayed are those the
    specification names: the body is the content when non-empty and at
    most 200 characters long, its first 200 characters followed by "…"
    when longer, and "No content" when empty or absent; the title is
    the reminder's title when non-empty and "Reminder" otherwise.  This
    holds of the expressions of both scripts, of the browser
    notification created on receipt, and of the popup appended once
    the template has loaded. *)
Theorem reminder_display (r : Reminder) (st : Page) (ok : bool) (t : Template) :
  has_title t = true →
  has_content t = true →
  let loaded := Settle (length (requests st)) (Resolved ok (Html (Some t))) in
  (StreamApp.titleText (title r) = displayed_title (title r)
   ∧ StreamApp.contentText (content r) = displayed_content (content r)
   ∧ PollingApp.titleText (title r) = displayed_title (title r)
   ∧ PollingApp.contentText (content r) = displayed_content (content r))
  ∧ (notifications (StreamApp.receive r st) =
       notifications st ++ (if permission_is Granted st then [shown r] else [])
     ∧ notifications (PollingApp.receive r st) =
       notifications st ++ (if permission_is Granted st then [shown r] else []))
  ∧ (∃ p, popups (StreamApp.handle loaded (StreamApp.receive r st)) = popups st ++ [p]
          ∧ popup_title p = displayed_title (title r)
          ∧ popup_content p = displayed_content (content r))
  ∧ (∃ p, popups (PollingApp.handle loaded (PollingApp.receive r st)) = popups st ++ [p]
          ∧ popup_title p = displayed_title (title r)
          ∧ popup_content p = displayed_content (content r)).
Proof.
  intros Ht Hc loaded. subst loaded.
  split; [|split; [|split]].
  - auto using stream_titleText, stream_contentText, polling_titleText,
      polling_contentText.
  - rewrite stream_receive, polling_receive. done.
  - cbn [StreamApp.handle]. rewrite stream_settle_template.
    edestruct (stream_showPopup_then (length (requests st)) r ok t) as (p & Hp & _ & Hti & Hco);
      [exact Ht | exact Hc |].
    exists p. rewrite Hp. cbn [popups set_pending]. rewrite stream_receive.
    cbn [popups]. done.
  - cbn [PollingApp.handle]. rewrite polling_settle_template.
    edestruct (polling_showPopup_then (length (requests st)) r ok t) as (p & Hp & _ & Hti & Hco);
      [exact Ht | exact Hc |].
    exists p. rewrite Hp. cbn [popups set_pending]. rewrite polling_receive.
    cbn [popups]. done.
Qed.

Lemma reminder_display_witness :
  let r := {| id := 7; title := JStr []; content := JStr (lit "Water the plants") |} in
  StreamApp.contentText (content r) = lit "Water the plants"
  ∧ StreamApp.titleText (title r) = lit "Reminder".
Proof.
  intros r.
  pose proof (reminder_display r (fresh (Some Granted)) true template eq_refl eq_refl) as H.
  destruct H as ((Ht & Hc & _) & _).
  split; [exact Hc | exact Ht].
Defined.

(** C3: the two variants agree on every reminder.  On receipt both
    send the same POST to /reminded/{id} and no other POST, and both
    create the same browser notification; whatever the template
    request answers, both leave the same popups in the document, and
    with a well-formed template that is one new popup with the same
    title text and content text. *)
Theorem variants_equivalent (r : Reminder) (st : Page) (resp : Response) (ok : bool) :
  let received_s := StreamApp.receive r st in
  let received_p := PollingApp.receive r st in
  let node := length (requests st) in
  let posts (l : list Request) := filter (λ q, req_method q = POST) l in
  (posts (requests received_s) = posts (requests st) ++ [acknowledgment (id r)]
   ∧ posts (requests received_p) = posts (requests st) ++ [acknowledgment (id r)])
  ∧ notifications received_s = notifications received_p
  ∧ popups (StreamApp.handle (Settle node resp) received_s) =
    popups (PollingApp.handle (Settle node resp) received_p)
  ∧ (popups (StreamApp.handle (Settle node (Resolved ok (Html (Some template)))) received_s)
       = popups st ++ [popup_of node r]
     ∧ popups (PollingApp.handle (Settle node (Resolved ok (Html (Some template)))) received_p)
       = popups st ++ [popup_of node r]).
Proof.
  cbv zeta. split; [|split; [|split]].
  - rewrite stream_receive, polling_receive. cbn [requests].
    rewrite !filter_app. split; reflexivity.
  - rewrite stream_receive, polling_receive. reflexivity.
  - cbn [StreamApp.handle PollingApp.handle].
    rewrite stream_settle_template, polling_settle_template.
    apply showPopup_then_popups. cbn [popups set_pending].
    rewrite stream_receive, polling_receive. reflexivity.
  - cbn [StreamApp.handle PollingApp.handle].
    rewrite stream_settle_template, polling_settle_template.
    unfold StreamApp.showPopup_then, PollingApp.showPopup_then.
    rewrite stream_titleText, stream_contentText, polling_titleText, polling_contentText.
    rewrite stream_receive, polling_receive. split; reflexivity.
Qed.

End reminder_display.

Section stream_messages.
Import Browser Spec.

Lemma unchanged_refl st : unchanged st st.
Proof. by destruct st. Qed.

Lemma unchanged_log entry st : unchanged st (log entry st).
Proof. by destruct st. Qed.

Lemma strict_eq_ne v s : v ≠ JStr s → StreamApp.strict_eq v s = false.
Proof.
  destruct v as [| |t]; try reflexivity.
  intros H. cbn. apply bool_decide_eq_false. congruence.
Qed.

(** The requests sent for a list of reminders, by induction on it. *)
Lemma stream_forEach_requests rs st :
  requests (foldl (λ st r, StreamApp.receive r st) st rs) =
  requests st ++ (rs ≫= stream_requests).
Proof.
  revert st. induction rs as [|r rs IH]; intros st; cbn [foldl].
  - by rewrite app_nil_r.
  - rewrite IH, stream_receive. cbn [requests].
    rewrite bind_cons, <- app_assoc. reflexivity.
Qed.

(** C9: in the stream variant a message of type 'connected',
    'heartbeat' or 'error' leaves the page as it is (the console
    apart) and sends no request; whatever is not of type 'reminders'
    shows no popup and sends nothing, and a 'reminders' message sends,
    for each of its reminders, the template request and the POST to
    /reminded/{id}. *)
Theorem stream_message_frame (m : Message) (rs : list Reminder) (st : Page) :
  let st' := StreamApp.handle (OnMessage (Some m)) st in
  (msg_type m ∈ [JStr (lit "connected"); JStr (lit "heartbeat"); JStr (lit "error")] →
   unchanged st st' ∧ requests st' = requests st)
  ∧ (msg_type m ≠ JStr (lit "reminders") →
     unchanged st st' ∧ popups st' = popups st ∧ requests st' = requests st)
  ∧ (eventSource st = true →
     msg_type m = JStr (lit "reminders") →
     msg_data m = Some rs →
     requests st' = requests st ++ (rs ≫= stream_requests)).
Proof.
  cbv zeta.
  assert (Hframe : msg_type m ≠ JStr (lit "reminders") →
            unchanged st (StreamApp.handle (OnMessage (Some m)) st)).
  { intros Hne. cbn [StreamApp.handle]. destruct (eventSource st); [|apply unchanged_refl].
    unfold StreamApp.onmessage. rewrite (strict_eq_ne _ (lit "reminders") Hne).
    destruct (StreamApp.strict_eq _ (lit "connected")); [apply unchanged_log|].
    destruct (StreamApp.strict_eq _ (lit "heartbeat")); [apply unchanged_log|].
    destruct (StreamApp.strict_eq _ (lit "error")); [apply unchanged_log|].
    apply unchanged_refl. }
  split; [|split].
  - intros Hin.
    assert (Hne : msg_type m ≠ JStr (lit "reminders")).
    { revert Hin. rewrite !elem_of_cons, elem_of_nil.
      intros [-> | [-> | [-> | []]]]; discriminate. }
    specialize (Hframe Hne). split; [exact Hframe|]. by rewrite Hframe.
  - intros Hne. specialize (Hframe Hne).
    split; [exact Hframe|]. by rewrite Hframe.
  - intros Hopen Hty Hdata. cbn [StreamApp.handle]. rewrite Hopen.
    unfold StreamApp.onmessage. rewrite Hty, Hdata. cbn [StreamApp.strict_eq].
    rewrite !bool_decide_eq_false_2 by discriminate.
    rewrite bool_decide_eq_true_2 by reflexivity.
    by rewrite stream_forEach_requests.
Qed.

Lemma stream_message_frame_witness :
  let st := StreamApp.setupNotifications (fresh (Some Granted)) in
  let m := {| msg_type := JStr (lit "heartbeat"); msg_data := None; msg_message := JUndefined |} in
  requests (StreamApp.handle (OnMessage (Some m)) st) = requests st.
Proof.
  intros st m.
  refine (proj2 (proj1 (stream_message_frame m [] st) _)).
  apply (bool_decide_unpack _). vm_compute. exact I.
Defined.

End stream_messages.

(** ** Pages that occur *)

Section well_formed.
Import Browser Spec.

Lemma well_formed_fresh perm : well_formed (fresh perm).
Proof.
  unfold well_formed, fresh. cbn. repeat split.
  - intros k [x Hx]. by rewrite lookup_empty in Hx.
  - intros p Hp. by apply elem_of_nil in Hp.
  - intros t [x Hx]. by rewrite lookup_empty in Hx.
Qed.

(** Changes that touch neither requests, popups nor timers. *)
Lemma well_formed_frame st st' :
  requests st' = requests st → pending st' = pending st →
  popups st' = popups st → timers st' = timers st →
  next_timer st' = next_timer st →
  well_formed st → well_formed st'.
Proof.
  unfold well_formed. intros -> -> -> -> ->. done.
Qed.

Lemma well_formed_fetch u i k st : well_formed st → well_formed (fetch u i k st).
Proof.
  intros (Hp & Hn & Ht). unfold well_formed, fetch. cbn.
  rewrite length_app. cbn. repeat split.
  - intros j [x Hx]. destruct (decide (j = length (requests st))) as [->|Hne]; [lia|].
    rewrite lookup_insert_ne in Hx by done. specialize (Hp j (ex_intro _ x Hx)). lia.
  - intros p Hin. specialize (Hn p Hin). lia.
  - exact Ht.
Qed.

Lemma well_formed_setTimeout cb ms st : well_formed st → well_formed (setTimeout cb ms st).
Proof.
  intros (Hp & Hn & Ht). unfold well_formed, setTimeout. cbn. repeat split; try done.
  intros t [x Hx]. destruct (decide (t = next_timer st)) as [->|Hne]; [lia|].
  rewrite lookup_insert_ne in Hx by done. specialize (Ht t (ex_intro _ x Hx)). lia.
Qed.

Lemma well_formed_appendChild p st :
  popup_node p < length (requests st) → well_formed st → well_formed (appendChild p st).
Proof.
  intros Hlt (Hp & Hn & Ht). unfold well_formed, appendChild. cbn. repeat split; try done.
  intros q [Hq | ->%list_elem_of_singleton]%elem_of_app; auto.
Qed.

Lemma well_formed_remove node st : well_formed st → well_formed (remove node st).
Proof.
  intros (Hp & Hn & Ht). unfold well_formed, remove. cbn. repeat split; try done.
  intros q [_ Hq]%list_elem_of_filter. auto.
Qed.

Lemma well_formed_settled k st :
  well_formed st → well_formed (set_pending (delete k (pending st)) st).
Proof.
  intros (Hp & Hn & Ht). unfold well_formed. cbn. repeat split; try done.
  intros j [x Hx]. apply lookup_delete_Some in Hx as [_ Hx]. eauto.
Qed.

Lemma well_formed_fired t st :
  well_formed st → well_formed (set_timers (delete t (timers st)) st).
Proof.
  intros (Hp & Hn & Ht). unfold well_formed. cbn. repeat split; try done.
  intros j [x Hx]. apply lookup_delete_Some in Hx as [_ Hx]. eauto.
Qed.

Lemma well_formed_log entry st : well_formed st → well_formed (log entry st).
Proof. by apply well_formed_frame. Qed.

Lemma well_formed_notify n st : well_formed st → well_formed (notify n st).
Proof. by apply well_formed_frame. Qed.

Create HintDb wf discriminated.
#[local] Hint Resolve well_formed_fresh well_formed_fetch well_formed_setTimeout
  well_formed_appendChild well_formed_remove well_formed_settled well_formed_fired
  well_formed_log well_formed_notify : wf.

Lemma stream_receive_well_formed r st : well_formed st → well_formed (StreamApp.receive r st).
Proof.
  intros H. unfold StreamApp.receive, StreamApp.showPopup, StreamApp.safeFetch.
  destruct (permission_is Granted st); auto with wf.
Qed.

Lemma polling_receive_well_formed r st : well_formed st → well_formed (PollingApp.receive r st).
Proof.
  intros H. unfold PollingApp.receive, PollingApp.showPopup.
  destruct (permission_is Granted st); auto with wf.
Qed.

Lemma stream_forEach_well_formed rs st :
  well_formed st → well_formed (foldl (λ st r, StreamApp.receive r st) st rs).
Proof.
  revert st. induction rs as [|r rs IH]; intros st H; cbn [foldl]; [done|].
  apply IH. by apply stream_receive_well_formed.
Qed.

Lemma polling_forEach_well_formed rs st :
  well_formed st → well_formed (foldl (λ st r, PollingApp.receive r st) st rs).
Proof.
  revert st. induction rs as [|r rs IH]; intros st H; cbn [foldl]; [done|].
  apply IH. by apply polling_receive_well_formed.
Qed.

Lemma stream_showPopup_then_well_formed node noteId title content resp st :
  node < length (requests st) → well_formed st →
  well_formed (StreamApp.showPopup_then node noteId title content resp st).
Proof.
  intros Hlt H. unfold StreamApp.showPopup_then.
  destruct resp as [|ok [[[[] [] [] []]|]| |]]; cbn [querySelector_popup negb has_title
    has_content has_dismiss has_mark_done]; auto 6 with wf.
Qed.

Lemma polling_showPopup_then_well_formed node noteId title content resp st :
  node < length (requests st) → well_formed st →
  well_formed (PollingApp.showPopup_then node noteId title content resp st).
Proof.
  intros Hlt H. unfold PollingApp.showPopup_then.
  destruct resp as [|ok [[[[] [] [] []]|]| |]]; cbn [querySelector_popup negb has_title
    has_content has_dismiss has_mark_done]; auto 6 with wf.
Qed.

Lemma stream_handle_well_formed e st :
  well_formed st → well_formed (StreamApp.handle e st).
Proof.
  intros H. destruct e as [m| |req resp|node|node|t| |p]; cbn [StreamApp.handle].
  - destruct (eventSource st); [|done].
    unfold StreamApp.onmessage. destruct m as [m|]; [|done].
    repeat (destruct (StreamApp.strict_eq _ _); auto with wf).
    destruct (msg_data m); auto using stream_forEach_well_formed with wf.
  - destruct (eventSource st); [|done]. unfold StreamApp.onerror.
    apply well_formed_setTimeout, well_formed_log.
    apply (well_formed_frame (log (Error (lit "This error is usually caused by one of the following:"))
             (log (Error (lit "EventSource readyState:"))
               (log (Error (lit "EventSource connection failed.")) st)))); auto with wf.
  - unfold StreamApp.settle.
    destruct (pending st !! req) as [[n ti co|msg|nd n|nd msg|]|] eqn:E; [| | | | |done].
    + apply stream_showPopup_then_well_formed; [|auto with wf].
      destruct H as (Hp & _). apply Hp. eauto.
    + destruct (StreamApp.fulfilled resp); auto with wf.
    + unfold StreamApp.safeFetch. destruct (StreamApp.fulfilled resp); auto 6 with wf.
    + destruct (StreamApp.fulfilled resp); auto 6 with wf.
    + auto with wf.
  - destruct (popup_at node st ≫= dismiss_onclick); [|done].
    unfold StreamApp.dismiss, StreamApp.safeFetch. auto with wf.
  - destruct (popup_at node st ≫= mark_done_onclick); [|done].
    unfold StreamApp.mark_done, StreamApp.safeFetch. auto with wf.
  - unfold StreamApp.fire. destruct (timers st !! t) as [[[nd|] ms]|]; [| |done]; cbn [callback].
    + auto with wf.
    + unfold StreamApp.setupNotifications.
      apply (well_formed_frame (set_timers (delete t (timers st)) st)); auto with wf.
  - done.
  - destruct (prompting st); [|done].
    apply well_formed_log. by apply (well_formed_frame st).
Qed.

Lemma polling_handle_well_formed e st :
  well_formed st → well_formed (PollingApp.handle e st).
Proof.
  intros H. destruct e as [m| |req resp|node|node|t| |p]; cbn [PollingApp.handle];
    try done.
  - unfold PollingApp.settle.
    destruct (pending st !! req) as [[n ti co|msg|nd n|nd msg|]|] eqn:E; [| | | | |done].
    + apply polling_showPopup_then_well_formed; [|auto with wf].
      destruct H as (Hp & _). apply Hp. eauto.
    + destruct (PollingApp.fulfilled resp); auto with wf.
    + destruct (PollingApp.fulfilled resp); auto 6 with wf.
    + destruct (PollingApp.fulfilled resp); auto 6 with wf.
    + unfold PollingApp.checkForReminders_then.
      destruct resp as [|ok [| rs |]]; auto with wf.
      destruct (0 <? length rs); auto using polling_forEach_well_formed with wf.
  - destruct (popup_at node st ≫= dismiss_onclick); [|done].
    unfold PollingApp.dismiss. auto with wf.
  - destruct (popup_at node st ≫= mark_done_onclick); [|done].
    unfold PollingApp.mark_done. auto with wf.
  - unfold PollingApp.fire. destruct (timers st !! t) as [[[nd|] ms]|]; [| |done]; cbn [callback];
      auto with wf.
  - destruct (interval st); [|done]. unfold PollingApp.checkForReminders. auto with wf.
  - destruct (prompting st); [|done]. by apply (well_formed_frame st).
Qed.

(** Every page a run of the stream variant reaches from a fresh load is
    well formed, by induction on the run. *)
Lemma stream_run_well_formed es st :
  well_formed st → well_formed (StreamApp.run es st).
Proof.
  revert st. induction es as [|e es IH]; intros st H; [done|].
  apply IH. by apply stream_handle_well_formed.
Qed.

Lemma polling_run_well_formed es st :
  well_formed st → well_formed (PollingApp.run es st).
Proof.
  revert st. induction es as [|e es IH]; intros st H; [done|].
  apply IH. by apply polling_handle_well_formed.
Qed.

Lemma stream_reachable hasEventSource perm es :
  well_formed (StreamApp.run es (StreamApp.initNotifications hasEventSource (fresh perm))).
Proof.
  apply stream_run_well_formed. unfold StreamApp.initNotifications.
  destruct hasEventSource; cbn [negb]; [|auto with wf].
  unfold StreamApp.setupNotifications, StreamApp.requestNotificationPermission.
  destruct (permission_is Default (fresh perm));
    apply (well_formed_frame (fresh perm)); auto with wf.
Qed.

Lemma polling_reachable perm es :
  well_formed (PollingApp.run es (PollingApp.initNotifications (fresh perm))).
Proof.
  apply polling_run_well_formed. unfold PollingApp.initNotifications, PollingApp.checkForReminders.
  apply well_formed_fetch.
  destruct (permission_is Default (fresh perm));
    apply (well_formed_frame (fresh perm)); auto with wf.
Qed.

(** On a well-formed page the next template request names a node that
    is not in the document, and every pending timer has an id below
    the next one. *)
Lemma well_formed_node_fresh st :
  well_formed st → length (requests st) ∉ popup_node <$> popups st.
Proof.
  intros (_ & Hn & _) (p & Hp & Hin)%list_elem_of_fmap.
  specialize (Hn p Hin). lia.
Qed.

Lemma well_formed_timer st t tm :
  well_formed st → timers st !! t = Some tm → t < next_timer st.
Proof. intros (_ & _ & Ht) H. apply Ht. eauto. Qed.

End well_formed.

Section acknowledgments.
Import Browser Spec.






Lemma stream_click_dismiss node p noteId st :
  popup_at node st = Some p → dismiss_onclick p = Some noteId →
  StreamApp.handle (ClickDismiss node) st = StreamApp.dismiss node noteId st.
Proof. intros H1 H2. cbn [StreamApp.handle]. rewrite H1. cbn. by rewrite H2. Qed.

Lemma stream_click_mark_done node p noteId st :
  popup_at node st = Some p → mark_done_onclick p = Some noteId →
  StreamApp.handle (ClickMarkDone node) st = StreamApp.mark_done node noteId st.
Proof. intros H1 H2. cbn [StreamApp.handle]. rewrite H1. cbn. by rewrite H2. Qed.






Lemma polling_click_dismiss node p noteId st :
  popup_at node st = Some p → dismiss_onclick p = Some noteId →
  PollingApp.handle (ClickDismiss node) st = PollingApp.dismiss node noteId st.
Proof. intros H1 H2. cbn [PollingApp.handle]. rewrite H1. cbn. by rewrite H2. Qed.

Lemma polling_click_mark_done node p noteId st :
  popup_at node st = Some p → mark_done_onclick p = Some noteId →
  PollingApp.handle (ClickMarkDone node) st = PollingApp.mark_done node noteId st.
Proof. intros H1 H2. cbn [PollingApp.handle]. rewrite H1. cbn. by rewrite H2. Qed.







End acknowledgments.

Section timers.
Import Browser Spec.

(** [popup.remove()] on a popup that is not in the document. *)
Lemma remove_absent node st :
  node ∉ popup_node <$> popups st → remove node st = st.
Proof.
  intros H. unfold remove.
  replace (filter (λ p, popup_node p ≠ node) (popups st)) with (popups st);
    [by destruct st|].
  induction (popups st) as [|p l IH]; [done|].
  rewrite fmap_cons, not_elem_of_cons in H. destruct H as [Hp Hl].
  rewrite filter_cons_True by done. by rewrite <- IH.
Qed.

Lemma stream_forEach_timers rs st :
  timers (foldl (λ st r, StreamApp.receive r st) st rs) = timers st
  ∧ next_timer (foldl (λ st r, StreamApp.receive r st) st rs) = next_timer st.
Proof.
  revert st. induction rs as [|r rs IH]; intros st; cbn [foldl]; [done|].
  destruct (IH (StreamApp.receive r st)) as [-> ->].
  by rewrite stream_receive.
Qed.

Lemma polling_forEach_timers rs st :
  timers (foldl (λ st r, PollingApp.receive r st) st rs) = timers st
  ∧ next_timer (foldl (λ st r, PollingApp.receive r st) st rs) = next_timer st.
Proof.
  revert st. induction rs as [|r rs IH]; intros st; cbn [foldl]; [done|].
  destruct (IH (PollingApp.receive r st)) as [-> ->].
  by rewrite polling_receive.
Qed.

Lemma stream_showPopup_then_timers node noteId title content resp st :
  keeps_timers st (StreamApp.showPopup_then node noteId title content resp st).
Proof.
  unfold StreamApp.showPopup_then, keeps_timers.
  destruct resp as [|ok [[[[] [] [] []]|]| |]]; cbn; eauto.
Qed.

Lemma polling_showPopup_then_timers node noteId title content resp st :
  keeps_timers st (PollingApp.showPopup_then node noteId title content resp st).
Proof.
  unfold PollingApp.showPopup_then, keeps_timers.
  destruct resp as [|ok [[[[] [] [] []]|]| |]]; cbn; eauto.
Qed.

Lemma stream_settle_timers req resp st :
  keeps_timers st (StreamApp.settle req resp st).
Proof.
  unfold StreamApp.settle.
  destruct (pending st !! req) as [[n ti co|msg|nd n|nd msg|]|]; try (left; reflexivity).
  - exact (stream_showPopup_then_timers req n ti co resp
             (set_pending (delete req (pending st)) st)).
  - left. destruct (StreamApp.fulfilled resp); reflexivity.
  - left. destruct (StreamApp.fulfilled resp); reflexivity.
  - left. destruct (StreamApp.fulfilled resp); reflexivity.
Qed.

Lemma polling_settle_timers req resp st :
  keeps_timers st (PollingApp.settle req resp st).
Proof.
  unfold PollingApp.settle.
  destruct (pending st !! req) as [[n ti co|msg|nd n|nd msg|]|]; try (left; reflexivity).
  - exact (polling_showPopup_then_timers req n ti co resp
             (set_pending (delete req (pending st)) st)).
  - left. destruct (PollingApp.fulfilled resp); reflexivity.
  - left. destruct (PollingApp.fulfilled resp); reflexivity.
  - left. destruct (PollingApp.fulfilled resp); reflexivity.
  - left. unfold PollingApp.checkForReminders_then.
    destruct resp as [|ok [| rs |]]; try reflexivity.
    destruct (0 <? length rs); [|reflexivity].
    apply (polling_forEach_timers rs (set_pending (delete req (pending st)) st)).
Qed.

Lemma keeps_timers_lookup st st' t tm :
  keeps_timers st st' →
  timers st !! t = Some tm → t < next_timer st →
  timers st' !! t = Some tm.
Proof.
  intros [-> | [x ->]] Ht Hlt; [done|].
  rewrite lookup_insert_ne by lia. done.
Qed.

(** No event but its own firing takes a pending timer away. *)
Lemma stream_timer_stays e st t tm :
  timers st !! t = Some tm → t < next_timer st → e ≠ Fire t →
  timers (StreamApp.handle e st) !! t = Some tm.
Proof.
  intros Ht Hlt He. destruct e as [m| |req resp|node|node|t'| |p]; cbn [StreamApp.handle].
  - destruct (eventSource st); [|done].
    unfold StreamApp.onmessage. destruct m as [m|]; [|done].
    repeat (destruct (StreamApp.strict_eq _ _); try done).
    destruct (msg_data m) as [rs|]; [|done].
    by rewrite (proj1 (stream_forEach_timers rs _)).
  - destruct (eventSource st); [|done]. cbn.
    rewrite lookup_insert_ne by lia. done.
  - by apply (keeps_timers_lookup st _ t tm (stream_settle_timers req resp st)).
  - destruct (popup_at node st ≫= dismiss_onclick); done.
  - destruct (popup_at node st ≫= mark_done_onclick); done.
  - assert (t' ≠ t) by congruence.
    unfold StreamApp.fire. destruct (timers st !! t') as [[[] ?]|]; cbn;
      rewrite ?lookup_delete_ne by done; done.
  - done.
  - destruct (prompting st); done.
Qed.

Lemma polling_timer_stays e st t tm :
  timers st !! t = Some tm → t < next_timer st → e ≠ Fire t →
  timers (PollingApp.handle e st) !! t = Some tm.
Proof.
  intros Ht Hlt He. destruct e as [m| |req resp|node|node|t'| |p]; cbn [PollingApp.handle];
    try done.
  - by apply (keeps_timers_lookup st _ t tm (polling_settle_timers req resp st)).
  - destruct (popup_at node st ≫= dismiss_onclick); done.
  - destruct (popup_at node st ≫= mark_done_onclick); done.
  - assert (t' ≠ t) by congruence.
    unfold PollingApp.fire. destruct (timers st !! t') as [[[] ?]|]; cbn;
      rewrite ?lookup_delete_ne by done; done.
  - destruct (interval st); done.
  - destruct (prompting st); done.
Qed.

(** C2, as the code has it: the 2-minute auto-close timeout of a
    popup is never cancelled.  Whatever happens other than its own
    elapsing (a dismiss or mark-done click with all that follows from
    it included) leaves it pending, also once its popup is closed;
    when it then fires on the closed popup it does nothing but leave
    the pending timers. *)
Theorem close_timer_lifecycle (st : Page) (timer node : nat) (ms : N) (e : Event) :
  timers st !! timer = Some {| callback := ClosePopup node; delay := ms |} →
  timer < next_timer st →
  (e ≠ Fire timer →
   timers (StreamApp.handle e st) !! timer
     = Some {| callback := ClosePopup node; delay := ms |}
   ∧ timers (PollingApp.handle e st) !! timer
     = Some {| callback := ClosePopup node; delay := ms |})
  ∧ (node ∉ popup_node <$> popups st →
     StreamApp.handle (Fire timer) st = set_timers (delete timer (timers st)) st
     ∧ PollingApp.handle (Fire timer) st = set_timers (delete timer (timers st)) st).
Proof.
  intros Ht Hlt. split.
  - intros He. split.
    + by apply stream_timer_stays.
    + by apply polling_timer_stays.
  - intros Hclosed. cbn [StreamApp.handle PollingApp.handle].
    unfold StreamApp.fire, PollingApp.fire. rewrite Ht. cbn [callback].
    split; by apply remove_absent.
Qed.

Lemma close_timer_lifecycle_witness :
  let r := {| id := 7; title := JStr (lit "Call"); content := JNull |} in
  let st :=
    StreamApp.run [Settle 0 (Resolved true (Html (Some template)))]
      (StreamApp.receive r (fresh None)) in
  timers (StreamApp.handle (ClickDismiss 0) st) !! 0
    = Some {| callback := ClosePopup 0; delay := 120000 |}
  ∧ StreamApp.handle (Fire 0) (StreamApp.handle (ClickDismiss 0) st)
    = set_timers (delete 0 (timers (StreamApp.handle (ClickDismiss 0) st)))
        (StreamApp.handle (ClickDismiss 0) st).
Proof.
  intros r st. split.
  - refine (proj1 (proj1 (close_timer_lifecycle st 0 0 120000 (ClickDismiss 0) _ _) _)).
    + vm_compute. reflexivity.
    + vm_compute. lia.
    + discriminate.
  - refine (proj1 (proj2 (close_timer_lifecycle (StreamApp.handle (ClickDismiss 0) st)
                             0 0 120000 Tick _ _) _)).
    + vm_compute. reflexivity.
    + vm_compute. lia.
    + apply (bool_decide_unpack _). vm_compute. exact I.
Defined.

(** The claim fails on the code: once a popup has been dismissed, its
    auto-close timer is still pending, in either variant. *)
Lemma close_timer_left_pending :
  let r := {| id := 7; title := JStr (lit "Call"); content := JNull |} in
  let message :=
    {| msg_type := JStr (lit "reminders"); msg_data := Some [r];
       msg_message := JUndefined |} in
  let loaded := Resolved true (Html (Some template)) in
  stale_timers
    (StreamApp.run [OnMessage (Some message); Settle 0 loaded; ClickDismiss 0]
       (StreamApp.initNotifications true (fresh None))) ≠ []
  ∧ stale_timers
      (PollingApp.run
         [Settle 0 (Resolved true (Json [r])); Settle 1 loaded; ClickDismiss 1]
         (PollingApp.initNotifications (fresh None))) ≠ [].
Proof. split; vm_compute; discriminate. Qed.

End timers.

(** ** The view toggle *)

Section note_toggle.
Import NoteToggle.

(** One click, on any state of the closure. *)
Lemma switchView_step l s :
  search_value l = Some s →
  let l' := (switchView l).1 in
  showingCompleted l' = negb (showingCompleted l)
  ∧ active_display l' = (if showingCompleted l' then lit "none" else lit "block")
  ∧ completed_display l' = (if showingCompleted l' then lit "block" else lit "none")
  ∧ label l' = set_textContent
                 (if showingCompleted l' then viewActiveText l else viewCompletedText l)
  ∧ search_value l' = Some []
  ∧ viewActiveText l' = viewActiveText l
  ∧ viewCompletedText l' = viewCompletedText l.
Proof.
  intros Hs. unfold switchView.
  destruct (showingCompleted l); cbn; rewrite Hs; cbn; done.
Qed.

Lemma clicks_S n l : clicks (S n) l = (switchView (clicks n l)).1.
Proof. reflexivity. Qed.

(** The closure texts and the search input survive every click. *)
Lemma clicks_invariant n l s :
  search_value l = Some s →
  is_Some (search_value (clicks n l))
  ∧ viewActiveText (clicks n l) = viewActiveText l
  ∧ viewCompletedText (clicks n l) = viewCompletedText l.
Proof.
  intros Hs. induction n as [|n (Hsome & Ha & Hc)].
  - cbn. rewrite Hs. eauto.
  - rewrite clicks_S. destruct Hsome as [s' Hs'].
    destruct (switchView_step (clicks n l) s' Hs') as (_ & _ & _ & _ & H1 & H2 & H3).
    rewrite H1, H2, H3. eauto.
Qed.

(** C10: after every click of the toggle button exactly one of the
    two containers has display "block" and the other "none", the
    button carries the text that names the hidden view (the one a
    further click brings back), and the search input is empty. *)
Theorem view_toggle (p : Page) (b : Button) (a c s : jsstring) (n : nat) :
  toggleBtn p = Some b →
  activeContainer p = Some a →
  completedContainer p = Some c →
  search p = Some s →
  ∃ l0, initNoteToggle p = Some l0
    ∧ let l := clicks (S n) l0 in
      ((active_display l = lit "block" ∧ completed_display l = lit "none")
       ∨ (active_display l = lit "none" ∧ completed_display l = lit "block"))
      ∧ label l =
          set_textContent
            (getAttribute
               (if bool_decide (active_display l = lit "none")
                then data_view_active b else data_view_completed b))
      ∧ search_value l = Some [].
Proof.
  intros Hb Ha Hc Hs. unfold initNoteToggle. rewrite Hb, Ha, Hc, Hs.
  eexists. split; [reflexivity|]. cbv zeta.
  set (l0 := Build_Live _ _ _ _ _ _ _).
  destruct (clicks_invariant n l0 s eq_refl) as ([s' Hs'] & HA & HC).
  rewrite clicks_S.
  destruct (switchView_step (clicks n l0) s' Hs') as (_ & H1 & H2 & H3 & H4 & _).
  rewrite H1, H2, H3, H4, HA, HC.
  destruct (showingCompleted (switchView (clicks n l0)).1).
  - rewrite bool_decide_eq_true_2 by reflexivity. auto.
  - rewrite bool_decide_eq_false_2 by discriminate. auto.
Qed.

Lemma view_toggle_witness :
  let b := {| textContent := lit "View completed";
              data_view_active := Some (lit "View active");
              data_view_completed := Some (lit "View completed") |} in
  let p := {| toggleBtn := Some b; activeContainer := Some [];
              completedContainer := Some (lit "none");
              search := Some (lit "milk") |} in
  ∃ l0, initNoteToggle p = Some l0
    ∧ search_value (clicks 3 l0) = Some [].
Proof.
  intros b p.
  destruct (view_toggle p b [] (lit "none") (lit "milk") 2
              eq_refl eq_refl eq_refl eq_refl) as (l0 & H0 & _ & _ & H).
  exists l0. split; [exact H0 | exact H].
Defined.

End note_toggle.

(** ** File upload *)

Section upload.
Import Upload UploadSpec.

Local Ltac upload_cbn :=
  cbn [progress attached zones timers next_timer hide setTimeout set_attached
       set_progress set_timers set_zones console_error alert location_reload].

Lemma handleFiles_start files noteId st box w t :
  files ≠ [] →
  progress st !! noteId = Some box →
  fill_width box = Some w →
  progress_text box = Some t →
  handleFiles files noteId st =
  fetch (lit "/upload_file/" ++ noteId) files (AwaitFiles noteId)
    (set_progress (<[noteId := uploading_box]> (progress st)) st).
Proof.
  intros Hfiles Hbox Hw Ht. unfold handleFiles.
  rewrite bool_decide_eq_false_2 by (by destruct files).
  rewrite Hbox. cbn. rewrite Hw. cbn. rewrite Ht. reflexivity.
Qed.

(** The request just sent is the one pending at the end of the log. *)
Lemma settle_started u files k resp st n :
  n = length (requests st) →
  settle n resp (fetch u files k st) =
  match k with
  | AwaitFiles noteId => handleFiles_then noteId resp
  | AwaitZone zone => uploadFile_then zone resp
  end (set_pending (delete n (<[n := k]> (pending st))) (fetch u files k st)).
Proof.
  intros ->. unfold settle. cbn [pending fetch]. rewrite lookup_insert_eq.
  destruct k; reflexivity.
Qed.

Lemma handleFiles_then_failed noteId resp st :
  uploaded resp = None →
  handleFiles_then noteId resp st = handleFiles_catch noteId st.
Proof.
  unfold uploaded, handleFiles_then.
  destruct resp as [|b [data|]]; try reflexivity.
  destruct (ok data); [discriminate | reflexivity].
Qed.

(** C5: in the file-attachment-area variant, an upload with a
    non-empty file list shows the progress box and sends the files;
    when the response has ok true the bar is set to 100%, the text to
    'Upload complete!' and an item carrying the returned file id and
    file name is appended to the attached files; when ok is false or
    the request fails the bar is reset to 0% and the text set to
    'Upload failed. Please try again.'; in both outcomes a timer is
    left that hides the progress box when it fires.  With an empty
    file list nothing changes. *)
Theorem handleFiles_outcome
    (files : list jsstring) (noteId : jsstring) (st : Page)
    (box : ProgressBox) (w t : jsstring) (items : list FileItem) (resp : Response) :
  files ≠ [] →
  progress st !! noteId = Some box →
  fill_width box = Some w →
  progress_text box = Some t →
  attached st !! noteId = Some items →
  let started := handleFiles files noteId st in
  let settled := handle (Settle (length (requests st)) resp) started in
  let later := handle (Fire (next_timer st)) settled in
  (requests started =
     requests st ++ [{| url := lit "/upload_file/" ++ noteId; form_files := files |}]
   ∧ progress started !! noteId = Some uploading_box)
  ∧ match uploaded resp with
    | Some data =>
        progress settled !! noteId =
          Some {| display := lit "block"; fill_width := Some (lit "100%");
                  progress_text := Some (lit "Upload complete!") |}
        ∧ (∃ item, attached settled !! noteId = Some (items ++ [item])
                   ∧ item_file_id item = file_id_string (file_id data)
                   ∧ item_name item = set_textContent (filename data))
    | None =>
        progress settled !! noteId =
          Some {| display := lit "block"; fill_width := Some (lit "0%");
                  progress_text := Some (lit "Upload failed. Please try again.") |}
        ∧ attached settled !! noteId = Some items
    end
  ∧ timers settled !! next_timer st =
      Some {| hide := noteId;
              delay := match uploaded resp with Some _ => 1500 | None => 3000 end |}
  ∧ (∃ b, progress later !! noteId = Some b ∧ display b = lit "none")
  ∧ handleFiles [] noteId st = st.
Proof.
  intros Hfiles Hbox Hw Ht Hitems started settled later.
  subst later settled started.
  rewrite (handleFiles_start _ _ _ _ _ _ Hfiles Hbox Hw Ht).
  split; [split; [reflexivity | apply lookup_insert_eq]|].
  cbn [handle]. rewrite settle_started by reflexivity.
  set (st1 := set_pending _ _).
  assert (Hbox1 : progress st1 !! noteId = Some uploading_box)
    by apply lookup_insert_eq.
  assert (Hitems1 : attached st1 !! noteId = Some items) by exact Hitems.
  assert (Hnext : next_timer st1 = next_timer st) by reflexivity.
  destruct (uploaded resp) as [data|] eqn:Hup.
  - destruct resp as [|b [data'|]]; try discriminate. cbn in Hup.
    destruct (ok data') eqn:Hok; [|discriminate]. injection Hup as ->.
    unfold handleFiles_then. rewrite Hok.
    cbn [attached set_progress]. rewrite Hitems1.
    unfold fire. upload_cbn.
    rewrite Hnext, !lookup_insert_eq. upload_cbn.
    rewrite !lookup_alter_eq, Hbox1. cbn.
    repeat split; eauto.
  - rewrite (handleFiles_then_failed _ _ _ Hup).
    unfold handleFiles_catch, fire. upload_cbn.
    rewrite Hnext, !lookup_insert_eq. upload_cbn.
    rewrite !lookup_alter_eq, Hbox1. cbn.
    repeat split; eauto.
Qed.

Lemma handleFiles_outcome_witness :
  let st :=
    {| progress := {[ lit "5" := {| display := lit "none";
                                    fill_width := Some (lit "0%");
                                    progress_text := Some [] |} ]};
       attached := {[ lit "5" := [] ]};
       zones := ∅; requests := []; pending := ∅; timers := ∅; next_timer := 0;
       alerts := []; console := []; reloaded := false |} in
  let data :=
    {| ok := true; file_id := Some 12%N; filename := JStr (lit "list.txt");
       error := JUndefined |} in
  let settled :=
    handle (Settle 0 (Responded true (Some data))) (handleFiles [lit "list.txt"] (lit "5") st) in
  progress settled !! lit "5" =
    Some {| display := lit "block"; fill_width := Some (lit "100%");
            progress_text := Some (lit "Upload complete!") |}.
Proof.
  intros st data settled.
  refine (proj1 (proj1 (proj2
    (handleFiles_outcome [lit "list.txt"] (lit "5") st
       {| display := lit "none"; fill_width := Some (lit "0%"); progress_text := Some [] |}
       (lit "0%") [] [] (Responded true (Some data)) _ _ _ _ _)))).
  - discriminate.
  - vm_compute. reflexivity.
  - reflexivity.
  - reflexivity.
  - vm_compute. reflexivity.
Defined.

Lemma add_elem c l : c ∈ ClassList.add c l.
Proof.
  pose proof (contains_add c l) as H.
  unfold ClassList.contains in H. by apply bool_decide_eq_true in H.
Qed.

Lemma remove_not_elem c l : c ∉ ClassList.remove c l.
Proof.
  pose proof (contains_remove c l) as H.
  unfold ClassList.contains in H. by apply bool_decide_eq_false in H.
Qed.

(** Whichever way the [try] block ends, the zone is still there. *)
Lemma uploadFile_try_zone zone resp st st' :
  uploadFile_try zone resp st = Some st' →
  is_Some (zones st !! zone) → is_Some (zones st' !! zone).
Proof.
  unfold uploadFile_try. intros H Hz.
  destruct resp as [|b [data|]]; try discriminate.
  destruct (b && ok data).
  - destruct (zones st !! zone) as [z|] eqn:Ez; [|discriminate].
    destruct (note_files z); injection H as <-; upload_cbn.
    + rewrite lookup_insert_eq. eauto.
    + rewrite Ez. eauto.
  - injection H as <-. exact Hz.
Qed.

(** [finally]: the zone does not carry the class once
    [uploadFile] is over. *)
Lemma uploadFile_then_released zone resp st :
  is_Some (zones st !! zone) →
  ∃ z, zones (uploadFile_then zone resp st) !! zone = Some z
       ∧ lit "uploading" ∉ classList z.
Proof.
  intros Hz. unfold uploadFile_then, zone_classes. upload_cbn.
  rewrite lookup_alter_eq.
  match goal with |- context [zones ?s !! zone] =>
    assert (Hz' : is_Some (zones s !! zone)) end.
  { destruct (uploadFile_try zone resp st) as [st'|] eqn:E.
    - by apply (uploadFile_try_zone zone resp st).
    - exact Hz. }
  destruct Hz' as [z ->]. eexists. split; [reflexivity|].
  apply remove_not_elem.
Qed.

(** C6: in the dropzone variant, [uploadFile] puts the "uploading"
    class on the zone before it sends the request, the zone carries
    it while the request is pending, and when the upload is over,
    with a success, an error reported by the server, or an exception,
    the zone does not carry it any more; this holds of every page on
    which the upload is pending when the response arrives. *)
Theorem uploading_class_released
    (noteId : jsval) (file : jsstring) (zone : nat) (z : Zone) (st : Page)
    (resp : Response) :
  zones st !! zone = Some z →
  let marked := zone_classes (ClassList.add (lit "uploading")) zone st in
  let started := uploadFile noteId file zone st in
  let finished := handle (Settle (length (requests st)) resp) started in
  (started = fetch (lit "/upload_file/" ++ to_string noteId) [file] (AwaitZone zone) marked
   ∧ ∃ z1, zones marked !! zone = Some z1 ∧ lit "uploading" ∈ classList z1)
  ∧ (∃ z1, zones started !! zone = Some z1 ∧ lit "uploading" ∈ classList z1)
  ∧ (∃ z2, zones finished !! zone = Some z2 ∧ lit "uploading" ∉ classList z2)
  ∧ (∀ (later : Page) (req : nat),
       pending later !! req = Some (AwaitZone zone) →
       is_Some (zones later !! zone) →
       ∃ z2, zones (handle (Settle req resp) later) !! zone = Some z2
             ∧ lit "uploading" ∉ classList z2).
Proof.
  intros Hz marked started finished.
  assert (Hmarked : ∃ z1, zones marked !! zone = Some z1
                          ∧ lit "uploading" ∈ classList z1).
  { subst marked. unfold zone_classes. upload_cbn.
    rewrite lookup_alter_eq, Hz. eexists. split; [reflexivity|]. apply add_elem. }
  split; [split; [reflexivity | exact Hmarked]|].
  split; [exact Hmarked|]. split.
  - subst finished started. unfold uploadFile. cbn [handle].
    rewrite settle_started by reflexivity.
    apply uploadFile_then_released. destruct Hmarked as (z1 & H1 & _).
    exists z1. exact H1.
  - intros later req Hreq Hzone. cbn [handle]. unfold settle. rewrite Hreq.
    by apply uploadFile_then_released.
Qed.

Lemma uploading_class_released_witness :
  let st :=
    {| progress := ∅; attached := ∅;
       zones := {[ 0 := {| classList := [lit "dropzone"]; note_files := Some [] |} ]};
       requests := []; pending := ∅; timers := ∅; next_timer := 0;
       alerts := []; console := []; reloaded := false |} in
  ∃ z2, zones (handle (Settle 0 Rejected) (uploadFile (JStr (lit "5")) (lit "a.txt") 0 st))
          !! 0 = Some z2
        ∧ lit "uploading" ∉ classList z2.
Proof.
  intros st.
  refine (proj1 (proj2 (proj2
    (uploading_class_released (JStr (lit "5")) (lit "a.txt") 0
       {| classList := [lit "dropzone"]; note_files := Some [] |} st Rejected _)))).
  vm_compute. reflexivity.
Defined.

End upload.

(** * Further properties *)

(** ** Polling for reminders *)

Section polling_poll.
Import Browser Spec.

(** The requests sent for a list of reminders, by induction on it. *)
Lemma polling_forEach_requests rs st :
  requests (foldl (λ st r, PollingApp.receive r st) st rs) =
  requests st ++ (rs ≫= polling_requests).
Proof.
  revert st. induction rs as [|r rs IH]; intros st; cbn [foldl].
  - by rewrite app_nil_r.
  - rewrite IH, polling_receive. cbn [requests].
    rewrite bind_cons, <- app_assoc. reflexivity.
Qed.

Lemma polling_forEach_console rs st :
  console (foldl (λ st r, PollingApp.receive r st) st rs) = console st.
Proof.
  revert st. induction rs as [|r rs IH]; intros st; cbn [foldl]; [done|].
  by rewrite IH, polling_receive.
Qed.

Lemma polling_forEach_popups rs st :
  popups (foldl (λ st r, PollingApp.receive r st) st rs) = popups st.
Proof.
  revert st. induction rs as [|r rs IH]; intros st; cbn [foldl]; [done|].
  by rewrite IH, polling_receive.
Qed.

(** X1: when the one-minute interval elapses, [checkForReminders]
    sends one GET /get_reminders.  A response with a JSON array of
    reminders sends, for each of them in order, the template request
    and the POST to /reminded/{id}, and logs nothing; a failed request
    or a body that is not JSON sends nothing, shows nothing, and
    leaves one "Error checking reminders:" entry in the console. *)
Theorem polling_poll_outcome (st : Page) (resp : Response) :
  interval st = true →
  let polled := PollingApp.handle Tick st in
  let answered := PollingApp.handle (Settle (length (requests st)) resp) polled in
  requests polled = requests st ++ [request (lit "/get_reminders") no_init]
  ∧ popups answered = popups st
  ∧ timers answered = timers st
  ∧ match resp with
    | Resolved _ (Json rs) =>
        requests answered = requests polled ++ (rs ≫= polling_requests)
        ∧ console answered = console st
    | _ =>
        requests answered = requests polled
        ∧ notifications answered = notifications st
        ∧ console answered = console st ++ [Error (lit "Error checking reminders:")]
    end.
Proof.
  intros Hint polled answered. subst answered polled.
  cbn [PollingApp.handle]. rewrite Hint.
  unfold PollingApp.checkForReminders, PollingApp.settle.
  cbn [pending fetch]. rewrite lookup_insert_eq.
  unfold PollingApp.checkForReminders_then.
  split; [reflexivity|].
  destruct resp as [|ok [t|rs|]]; try (cbn; done).
  destruct (0 <? length rs) eqn:E.
  - rewrite polling_forEach_popups, polling_forEach_requests, polling_forEach_console.
    rewrite (proj1 (polling_forEach_timers rs _)). cbn. done.
  - apply Nat.ltb_ge in E. destruct rs; [|cbn in E; lia]. cbn.
    rewrite app_nil_r. done.
Qed.

Lemma polling_poll_outcome_witness :
  let st := PollingApp.initNotifications (fresh None) in
  requests (PollingApp.handle Tick st) =
  requests st ++ [request (lit "/get_reminders") no_init].
Proof.
  intros st.
  exact (proj1 (polling_poll_outcome st Rejected eq_refl)).
Defined.

End polling_poll.

(** ** Browser notifications *)

Section permission.
Import Browser Spec.

Lemma stream_forEach_notifications rs st :
  permission_is Granted st = false →
  notifications (foldl (λ st r, StreamApp.receive r st) st rs) = notifications st
  ∧ permission (foldl (λ st r, StreamApp.receive r st) st rs) = permission st.
Proof.
  revert st. induction rs as [|r rs IH]; intros st H; cbn [foldl]; [done|].
  assert (Hp : permission (StreamApp.receive r st) = permission st)
    by (by rewrite stream_receive).
  assert (Hg : permission_is Granted (StreamApp.receive r st) = false)
    by (unfold permission_is in *; by rewrite Hp).
  destruct (IH _ Hg) as [-> ->]. split; [|done].
  rewrite stream_receive. cbn [notifications]. rewrite H. by rewrite app_nil_r.
Qed.

Lemma polling_forEach_notifications rs st :
  permission_is Granted st = false →
  notifications (foldl (λ st r, PollingApp.receive r st) st rs) = notifications st
  ∧ permission (foldl (λ st r, PollingApp.receive r st) st rs) = permission st.
Proof.
  revert st. induction rs as [|r rs IH]; intros st H; cbn [foldl]; [done|].
  assert (Hp : permission (PollingApp.receive r st) = permission st)
    by (by rewrite polling_receive).
  assert (Hg : permission_is Granted (PollingApp.receive r st) = false)
    by (unfold permission_is in *; by rewrite Hp).
  destruct (IH _ Hg) as [-> ->]. split; [|done].
  rewrite polling_receive. cbn [notifications]. rewrite H. by rewrite app_nil_r.
Qed.

Lemma stream_showPopup_then_notifications node noteId title content resp st :
  notifications (StreamApp.showPopup_then node noteId title content resp st)
    = notifications st
  ∧ permission (StreamApp.showPopup_then node noteId title content resp st)
    = permission st.
Proof.
  unfold StreamApp.showPopup_then.
  destruct resp as [|ok [[[[] [] [] []]|]| |]]; cbn; done.
Qed.

Lemma polling_showPopup_then_notifications node noteId title content resp st :
  notifications (PollingApp.showPopup_then node noteId title content resp st)
    = notifications st
  ∧ permission (PollingApp.showPopup_then node noteId title content resp st)
    = permission st.
Proof.
  unfold PollingApp.showPopup_then.
  destruct resp as [|ok [[[[] [] [] []]|]| |]]; cbn; done.
Qed.

Lemma not_granted_permission st st' :
  permission st' = permission st →
  permission_is Granted st = false → permission_is Granted st' = false.
Proof. unfold permission_is. by intros ->. Qed.

(** One event on a page without the permission creates no
    notification and leaves the page without the permission, unless the
    user grants it. *)
Lemma stream_no_notification e st :
  permission_is Granted st = false → e ≠ Answer Granted →
  notifications (StreamApp.handle e st) = notifications st
  ∧ permission_is Granted (StreamApp.handle e st) = false.
Proof.
  intros H He. destruct e as [m| |req resp|node|node|t| |p]; cbn [StreamApp.handle].
  - destruct (eventSource st); [|done].
    unfold StreamApp.onmessage. destruct m as [m|]; [|done].
    repeat (destruct (StreamApp.strict_eq _ _); try done).
    destruct (msg_data m) as [rs|]; [|done].
    destruct (stream_forEach_notifications rs
                (log (Info (lit "Received reminders from server:")) st) H) as [-> Hp].
    split; [done|]. by apply (not_granted_permission st).
  - destruct (eventSource st); done.
  - unfold StreamApp.settle.
    destruct (pending st !! req) as [[n ti co|msg|nd n|nd msg|]|]; try done.
    + destruct (stream_showPopup_then_notifications req n ti co resp
                  (set_pending (delete req (pending st)) st)) as [-> Hp].
      split; [done|]. by apply (not_granted_permission st).
    + destruct (StreamApp.fulfilled resp); done.
    + destruct (StreamApp.fulfilled resp); done.
    + destruct (StreamApp.fulfilled resp); done.
  - destruct (popup_at node st ≫= dismiss_onclick); done.
  - destruct (popup_at node st ≫= mark_done_onclick); done.
  - unfold StreamApp.fire. destruct (timers st !! t) as [[[nd|] ms]|]; done.
  - done.
  - destruct (prompting st); [|done]. split; [done|].
    destruct p; done.
Qed.

Lemma polling_no_notification e st :
  permission_is Granted st = false → e ≠ Answer Granted →
  notifications (PollingApp.handle e st) = notifications st
  ∧ permission_is Granted (PollingApp.handle e st) = false.
Proof.
  intros H He. destruct e as [m| |req resp|node|node|t| |p]; cbn [PollingApp.handle];
    try done.
  - unfold PollingApp.settle.
    destruct (pending st !! req) as [[n ti co|msg|nd n|nd msg|]|]; try done.
    + destruct (polling_showPopup_then_notifications req n ti co resp
                  (set_pending (delete req (pending st)) st)) as [-> Hp].
      split; [done|]. by apply (not_granted_permission st).
    + destruct (PollingApp.fulfilled resp); done.
    + destruct (PollingApp.fulfilled resp); done.
    + destruct (PollingApp.fulfilled resp); done.
    + unfold PollingApp.checkForReminders_then.
      destruct resp as [|ok [t|rs|]]; try done.
      destruct (0 <? length rs); [|done].
      destruct (polling_forEach_notifications rs
                  (set_pending (delete req (pending st)) st) H) as [-> Hp].
      split; [done|]. by apply (not_granted_permission st).
  - destruct (popup_at node st ≫= dismiss_onclick); done.
  - destruct (popup_at node st ≫= mark_done_onclick); done.
  - unfold PollingApp.fire. destruct (timers st !! t) as [[[nd|] ms]|]; done.
  - destruct (interval st); done.
  - destruct (prompting st); [|done]. split; [done|].
    destruct p; done.
Qed.

(** X2: no browser notification without the permission.  From a page
    on which the permission is not granted (default, denied, or no
    Notification API), no run of events in which the user does not
    grant it creates a browser notification, whatever reminders
    arrive; by induction on the run, in both variants. *)
Theorem notifications_need_permission (es : list Event) (st : Page) :
  permission_is Granted st = false →
  Answer Granted ∉ es →
  notifications (StreamApp.run es st) = notifications st
  ∧ notifications (PollingApp.run es st) = notifications st.
Proof.
  intros H Hes. split.
  - revert st H. induction es as [|e es IH]; intros st H; [done|].
    apply not_elem_of_cons in Hes as [He Hes].
    destruct (stream_no_notification e st H) as [Hn Hg]; [congruence|].
    unfold StreamApp.run in *. cbn [foldl]. rewrite (IH Hes _ Hg). exact Hn.
  - revert st H. induction es as [|e es IH]; intros st H; [done|].
    apply not_elem_of_cons in Hes as [He Hes].
    destruct (polling_no_notification e st H) as [Hn Hg]; [congruence|].
    unfold PollingApp.run in *. cbn [foldl]. rewrite (IH Hes _ Hg). exact Hn.
Qed.

Lemma notifications_need_permission_witness :
  let r := {| id := 7; title := JStr (lit "Call"); content := JNull |} in
  let st := PollingApp.initNotifications (fresh (Some Denied)) in
  notifications (PollingApp.run [Settle 0 (Resolved true (Json [r]))] st)
    = notifications st.
Proof.
  intros r st.
  refine (proj2 (notifications_need_permission
                   [Settle 0 (Resolved true (Json [r]))] st _ _)).
  - reflexivity.
  - intros H. apply list_elem_of_singleton in H. discriminate H.
Defined.

End permission.

(** ** The popup and its template *)

Section popup_template.
Import Browser Spec.

(** X3: what [showPopup] does with an incomplete template, in both
    variants.  Without a .reminder-popup element, a #popup-title or a
    #popup-content, or when the request fails, the document is left as
    it is.  With those but without a .dismiss or a .mark-done element,
    the popup is appended with the reminder's texts, yet its mark-done
    handler is not installed and no auto-close timer is started.  Each
    of these failures leaves one "Failed to load popup template:" entry
    in the console. *)
Theorem popup_template_edges
    (req : nat) (noteId : N) (title content : jsval) (resp : Response) (st : Page) :
  pending st !! req = Some (AwaitTemplate noteId title content) →
  let complete t :=
    has_title t && has_content t && has_dismiss t && has_mark_done t in
  let shows t := has_title t && has_content t in
  let s := StreamApp.handle (Settle req resp) st in
  let p := PollingApp.handle (Settle req resp) st in
  let failure := console st ++ [Error (lit "Failed to load popup template:")] in
  match resp with
  | Resolved _ (Html (Some t)) =>
      if complete t then
        popups s = popups st ++ [{| popup_node := req;
                                    popup_title := displayed_title title;
                                    popup_content := displayed_content content;
                                    dismiss_onclick := Some noteId;
                                    mark_done_onclick := Some noteId |}]
        ∧ timers s = <[next_timer st :=
                         {| callback := ClosePopup req; delay := 120000 |}]> (timers st)
        ∧ console s = console st
      else if shows t then
        popups s = popups st ++ [{| popup_node := req;
                                    popup_title := displayed_title title;
                                    popup_content := displayed_content content;
                                    dismiss_onclick :=
                                      if has_dismiss t then Some noteId else None;
                                    mark_done_onclick := None |}]
        ∧ timers s = timers st
        ∧ console s = failure
      else popups s = popups st ∧ timers s = timers st ∧ console s = failure
  | _ => popups s = popups st ∧ timers s = timers st ∧ console s = failure
  end
  ∧ popups p = popups s ∧ timers p = timers s ∧ console p = console s
  ∧ requests s = requests st ∧ requests p = requests st.
Proof.
  intros Hreq complete shows s p failure. subst complete shows s p failure.
  cbn [StreamApp.handle PollingApp.handle].
  unfold StreamApp.settle, PollingApp.settle. rewrite Hreq.
  unfold StreamApp.showPopup_then, PollingApp.showPopup_then.
  rewrite stream_titleText, stream_contentText, polling_titleText, polling_contentText.
  destruct resp as [|ok [[[[] [] [] []]|]| |]]; cbn; done.
Qed.

Lemma popup_template_edges_witness :
  let r := {| id := 7; title := JStr (lit "Call"); content := JNull |} in
  let st := StreamApp.receive r (fresh None) in
  let t := {| has_title := true; has_content := true;
              has_dismiss := true; has_mark_done := false |} in
  timers (StreamApp.handle (Settle 0 (Resolved true (Html (Some t)))) st) = timers st.
Proof.
  intros r st t.
  refine (proj1 (proj2 (proj1
    (popup_template_edges 0 7 (JStr (lit "Call")) JNull
       (Resolved true (Html (Some t))) st _)))).
  vm_compute. reflexivity.
Defined.

End popup_template.

(** ** Every popup is closed in the end *)

Section popup_timers.
Import Browser Spec PopupSpec.

Lemma timed_frame st st' :
  popups st' = popups st → timers st' = timers st → timed st → timed st'.
Proof. unfold timed. intros -> ->. done. Qed.

Lemma timed_remove node st : timed st → timed (remove node st).
Proof.
  unfold timed, remove. cbn. intros H p [_ Hp]%list_elem_of_filter. by apply H.
Qed.

Lemma timed_setTimeout cb ms st :
  well_formed st → timed st → timed (setTimeout cb ms st).
Proof.
  intros (_ & _ & Hwf) H p Hp Hd. destruct (H p Hp Hd) as [t Ht].
  exists t. unfold setTimeout. cbn.
  rewrite lookup_insert_ne; [done|].
  intros <-. specialize (Hwf (next_timer st) (ex_intro _ _ Ht)). lia.
Qed.

Lemma stream_showPopup_then_timed node noteId title content resp st :
  well_formed st → timed st →
  timed (StreamApp.showPopup_then node noteId title content resp st).
Proof.
  intros Hwf H. unfold StreamApp.showPopup_then.
  destruct resp as [|ok [[[[] [] [] []]|]| |]];
    cbn [querySelector_popup negb has_title has_content has_dismiss has_mark_done];
    try (by apply (timed_frame st)).
  - intros p [Hp | ->%list_elem_of_singleton]%elem_of_app Hd.
    + destruct (timed_setTimeout (ClosePopup node) 120000 st Hwf H p Hp Hd) as [t Ht].
      exists t. exact Ht.
    + exists (next_timer st). cbn. apply lookup_insert_eq.
  - intros p [Hp | ->%list_elem_of_singleton]%elem_of_app Hd.
    + by apply H.
    + cbn in Hd. by destruct Hd.
  - intros p [Hp | ->%list_elem_of_singleton]%elem_of_app Hd.
    + by apply H.
    + cbn in Hd. by destruct Hd.
  - intros p [Hp | ->%list_elem_of_singleton]%elem_of_app Hd.
    + by apply H.
    + cbn in Hd. by destruct Hd.
Qed.

Lemma polling_showPopup_then_timed node noteId title content resp st :
  well_formed st → timed st →
  timed (PollingApp.showPopup_then node noteId title content resp st).
Proof.
  intros Hwf H. unfold PollingApp.showPopup_then.
  destruct resp as [|ok [[[[] [] [] []]|]| |]];
    cbn [querySelector_popup negb has_title has_content has_dismiss has_mark_done];
    try (by apply (timed_frame st)).
  - intros p [Hp | ->%list_elem_of_singleton]%elem_of_app Hd.
    + destruct (timed_setTimeout (ClosePopup node) 120000 st Hwf H p Hp Hd) as [t Ht].
      exists t. exact Ht.
    + exists (next_timer st). cbn. apply lookup_insert_eq.
  - intros p [Hp | ->%list_elem_of_singleton]%elem_of_app Hd.
    + by apply H.
    + cbn in Hd. by destruct Hd.
  - intros p [Hp | ->%list_elem_of_singleton]%elem_of_app Hd.
    + by apply H.
    + cbn in Hd. by destruct Hd.
  - intros p [Hp | ->%list_elem_of_singleton]%elem_of_app Hd.
    + by apply H.
    + cbn in Hd. by destruct Hd.
Qed.

Lemma stream_forEach_timed rs st :
  timed st → timed (foldl (λ st r, StreamApp.receive r st) st rs).
Proof.
  intros H. apply (timed_frame st); [|by apply stream_forEach_timers|done].
  clear H. revert st. induction rs as [|r rs IH]; intros st; cbn [foldl]; [done|].
  by rewrite IH, stream_receive.
Qed.

Lemma polling_forEach_timed rs st :
  timed st → timed (foldl (λ st r, PollingApp.receive r st) st rs).
Proof.
  intros H. apply (timed_frame st); [|by apply polling_forEach_timers|done].
  clear H. revert st. induction rs as [|r rs IH]; intros st; cbn [foldl]; [done|].
  by rewrite IH, polling_receive.
Qed.

(** A timer that elapses takes no popup's timer away but its own, and
    then the popup goes with it. *)
Lemma timed_fire_close t node ms st :
  timers st !! t = Some {| callback := ClosePopup node; delay := ms |} →
  timed st → timed (remove node (set_timers (delete t (timers st)) st)).
Proof.
  intros Ht H p [Hne Hp]%list_elem_of_filter Hd. cbn in Hp.
  destruct (H p Hp Hd) as [t' Ht']. exists t'. cbn.
  rewrite lookup_delete_ne; [done|]. intros <-. rewrite Ht in Ht'. congruence.
Qed.

Lemma timed_fire_other t ms st :
  timers st !! t = Some {| callback := SetupNotifications; delay := ms |} →
  timed st → timed (set_timers (delete t (timers st)) st).
Proof.
  intros Ht H p Hp Hd.
  destruct (H p Hp Hd) as [t' Ht']. exists t'. cbn.
  rewrite lookup_delete_ne; [done|]. intros <-. rewrite Ht in Ht'. congruence.
Qed.

Lemma stream_handle_timed e st :
  well_formed st → timed st → timed (StreamApp.handle e st).
Proof.
  intros Hwf H. destruct e as [m| |req resp|node|node|t| |p]; cbn [StreamApp.handle].
  - destruct (eventSource st); [|done].
    unfold StreamApp.onmessage. destruct m as [m|]; [|done].
    repeat (destruct (StreamApp.strict_eq _ _); try by apply (timed_frame st)).
    destruct (msg_data m) as [rs|]; [|by apply (timed_frame st)].
    apply stream_forEach_timed. by apply (timed_frame st).
  - destruct (eventSource st); [|done]. unfold StreamApp.onerror.
    apply timed_setTimeout.
    + apply (well_formed_frame st); done.
    + by apply (timed_frame st).
  - unfold StreamApp.settle.
    destruct (pending st !! req) as [[n ti co|msg|nd n|nd msg|]|]; [| | | | |done].
    + apply stream_showPopup_then_timed.
      * by apply well_formed_settled.
      * by apply (timed_frame st).
    + destruct (StreamApp.fulfilled resp); by apply (timed_frame st).
    + destruct (StreamApp.fulfilled resp).
      * by apply (timed_frame st).
      * apply timed_remove. by apply (timed_frame st).
    + apply timed_remove. destruct (StreamApp.fulfilled resp); by apply (timed_frame st).
    + by apply (timed_frame st).
  - destruct (popup_at node st ≫= dismiss_onclick); [|done].
    apply timed_remove. by apply (timed_frame st).
  - destruct (popup_at node st ≫= mark_done_onclick); [|done].
    by apply (timed_frame st).
  - unfold StreamApp.fire.
    destruct (timers st !! t) as [[[nd|] ms]|] eqn:E; [| |done]; cbn [callback].
    + by apply (timed_fire_close t nd ms).
    + apply (timed_frame (set_timers (delete t (timers st)) st)); [done..|].
      by apply (timed_fire_other t ms).
  - done.
  - destruct (prompting st); [|done]. by apply (timed_frame st).
Qed.

Lemma polling_handle_timed e st :
  well_formed st → timed st → timed (PollingApp.handle e st).
Proof.
  intros Hwf H. destruct e as [m| |req resp|node|node|t| |p]; cbn [PollingApp.handle];
    try done.
  - unfold PollingApp.settle.
    destruct (pending st !! req) as [[n ti co|msg|nd n|nd msg|]|]; [| | | | |done].
    + apply polling_showPopup_then_timed.
      * by apply well_formed_settled.
      * by apply (timed_frame st).
    + destruct (PollingApp.fulfilled resp); by apply (timed_frame st).
    + destruct (PollingApp.fulfilled resp).
      * by apply (timed_frame st).
      * apply timed_remove. by apply (timed_frame st).
    + apply timed_remove. destruct (PollingApp.fulfilled resp); by apply (timed_frame st).
    + unfold PollingApp.checkForReminders_then.
      destruct resp as [|ok [tm|rs|]]; try by apply (timed_frame st).
      destruct (0 <? length rs); [|by apply (timed_frame st)].
      apply polling_forEach_timed. by apply (timed_frame st).
  - destruct (popup_at node st ≫= dismiss_onclick); [|done].
    apply timed_remove. by apply (timed_frame st).
  - destruct (popup_at node st ≫= mark_done_onclick); [|done].
    by apply (timed_frame st).
  - unfold PollingApp.fire.
    destruct (timers st !! t) as [[[nd|] ms]|] eqn:E; [| |done]; cbn [callback].
    + by apply (timed_fire_close t nd ms).
    + by apply (timed_fire_other t ms).
  - destruct (interval st); [|done]. by apply (timed_frame st).
  - destruct (prompting st); [|done]. by apply (timed_frame st).
Qed.

Lemma stream_run_timed es st :
  well_formed st → timed st → timed (StreamApp.run es st).
Proof.
  revert st. induction es as [|e es IH]; intros st Hwf H; [done|].
  apply IH; [by apply stream_handle_well_formed | by apply stream_handle_timed].
Qed.

Lemma polling_run_timed es st :
  well_formed st → timed st → timed (PollingApp.run es st).
Proof.
  revert st. induction es as [|e es IH]; intros st Hwf H; [done|].
  apply IH; [by apply polling_handle_well_formed | by apply polling_handle_timed].
Qed.

Lemma timed_no_popups st : popups st = [] → timed st.
Proof. intros H p Hp. rewrite H in Hp. by apply elem_of_nil in Hp. Qed.

(** X4: no popup is left open for ever.  On every page a run reaches
    from a fresh load, in both variants, each popup in the document
    whose handlers are installed has its two-minute close timer
    pending, and when that timer elapses the popup is no longer in
    the document. *)
Theorem popup_closed_in_the_end
    (hasEventSource : bool) (perm : option Permission) (es : list Event) (p : Popup) :
  let s := StreamApp.run es (StreamApp.initNotifications hasEventSource (fresh perm)) in
  let q := PollingApp.run es (PollingApp.initNotifications (fresh perm)) in
  is_Some (mark_done_onclick p) →
  (p ∈ popups s →
   ∃ t, timers s !! t = Some {| callback := ClosePopup (popup_node p); delay := 120000 |}
        ∧ p ∉ popups (StreamApp.handle (Fire t) s))
  ∧ (p ∈ popups q →
     ∃ t, timers q !! t = Some {| callback := ClosePopup (popup_node p); delay := 120000 |}
          ∧ p ∉ popups (PollingApp.handle (Fire t) q)).
Proof.
  intros s q Hd. split.
  - intros Hp.
    assert (Ht : timed s).
    { apply stream_run_timed.
      - apply (stream_reachable hasEventSource perm []).
      - apply timed_no_popups. unfold StreamApp.initNotifications.
        destruct hasEventSource; [|done]. cbn [negb].
        unfold StreamApp.requestNotificationPermission.
        by destruct (permission_is Default (fresh perm)). }
    destruct (Ht p Hp Hd) as [t Ht']. exists t. split; [exact Ht'|].
    cbn [StreamApp.handle]. unfold StreamApp.fire. rewrite Ht'. cbn.
    rewrite list_elem_of_filter. intros [Hne _]. by apply Hne.
  - intros Hp.
    assert (Ht : timed q).
    { apply polling_run_timed.
      - apply (polling_reachable perm []).
      - apply timed_no_popups. unfold PollingApp.initNotifications.
        by destruct (permission_is Default (fresh perm)). }
    destruct (Ht p Hp Hd) as [t Ht']. exists t. split; [exact Ht'|].
    cbn [PollingApp.handle]. unfold PollingApp.fire. rewrite Ht'. cbn.
    rewrite list_elem_of_filter. intros [Hne _]. by apply Hne.
Qed.

Lemma popup_closed_in_the_end_witness :
  let r := {| id := 7; title := JStr (lit "Call"); content := JNull |} in
  let message :=
    {| msg_type := JStr (lit "reminders"); msg_data := Some [r];
       msg_message := JUndefined |} in
  let es := [OnMessage (Some message); Settle 0 (Resolved true (Html (Some template)))] in
  let s := StreamApp.run es (StreamApp.initNotifications true (fresh None)) in
  ∃ t, timers s !! t = Some {| callback := ClosePopup 0; delay := 120000 |}
       ∧ popup_of 0 r ∉ popups (StreamApp.handle (Fire t) s).
Proof.
  intros r message es s.
  refine (proj1 (popup_closed_in_the_end true None es (popup_of 0 r) _) _).
  - vm_compute. eexists. reflexivity.
  - match goal with |- _ ∈ ?l =>
      assert (l = [popup_of 0 r]) as -> by (vm_compute; reflexivity) end.
    by apply list_elem_of_singleton.
Defined.

End popup_timers.

(** ** The event stream and its reconnection *)

Section reconnect.
Import Browser Spec.

(** X5: when the event stream fails, [onerror] closes it and starts a
    five-second timer; when that timer elapses [setupNotifications]
    opens the stream again.  Popups, requests, pending promises and
    notifications are the same before, between and after, and the
    pending timers end as they began. *)
Theorem stream_reconnects (st : Page) :
  eventSource st = true →
  timers st !! next_timer st = None →
  let failed := StreamApp.handle OnError st in
  let back := StreamApp.handle (Fire (next_timer st)) failed in
  (eventSource failed = false
   ∧ timers failed =
       <[next_timer st := {| callback := SetupNotifications; delay := 5000 |}]> (timers st))
  ∧ (eventSource back = true ∧ timers back = timers st)
  ∧ (popups failed = popups st ∧ requests failed = requests st
     ∧ pending failed = pending st ∧ notifications failed = notifications st)
  ∧ (popups back = popups st ∧ requests back = requests st
     ∧ pending back = pending st ∧ notifications back = notifications st).
Proof.
  intros Hopen Hfree failed back. subst back failed.
  cbn [StreamApp.handle]. rewrite Hopen.
  unfold StreamApp.onerror, StreamApp.fire.
  cbn [timers setTimeout log set_console set_eventSource next_timer].
  rewrite lookup_insert_eq. cbn.
  rewrite delete_insert_eq, delete_id by done. done.
Qed.

Lemma stream_reconnects_witness :
  let st := StreamApp.initNotifications true (fresh None) in
  eventSource (StreamApp.handle (Fire 0) (StreamApp.handle OnError st)) = true.
Proof.
  intros st.
  refine (proj1 (proj1 (proj2 (stream_reconnects st _ _)))).
  - reflexivity.
  - vm_compute. reflexivity.
Defined.

End reconnect.

(** ** Closing a popup by hand *)

Section closing.
Import Browser Spec.

Lemma remove_gone node st : node ∉ popup_node <$> popups (remove node st).
Proof.
  unfold remove. cbn. intros (p & Hp & [Hne _]%list_elem_of_filter)%list_elem_of_fmap.
  by apply Hne.
Qed.

Lemma popup_at_gone node st :
  node ∉ popup_node <$> popups st → popup_at node st = None.
Proof.
  intros H. unfold popup_at.
  destruct (list_find _ (popups st)) as [[i p]|] eqn:E; [|done].
  apply list_find_Some in E as (Hi & Hp & _).
  destruct H. apply list_elem_of_fmap. exists p. split; [done|].
  by apply list_elem_of_lookup_2 in Hi.
Qed.

(** X6: a click on Dismiss closes the popup at once, whatever becomes
    of the request it sends.  Right after the click the popup is out of
    the document and one POST /reminded/{id} has been sent; a second
    click finds nothing to act on; the answer to the request changes
    neither popups nor requests nor timers, and a failure leaves
    "Error marking as reminded:" in the console.  In both variants. *)
Theorem dismiss_closes_at_once
    (node : nat) (p : Popup) (noteId : N) (resp : Response) (st : Page) :
  popup_at node st = Some p →
  dismiss_onclick p = Some noteId →
  let s := StreamApp.handle (ClickDismiss node) st in
  let s' := StreamApp.handle (Settle (length (requests st)) resp) s in
  let q := PollingApp.handle (ClickDismiss node) st in
  let q' := PollingApp.handle (Settle (length (requests st)) resp) q in
  let failure := [Error (lit "Error marking as reminded:")] in
  ((node ∉ popup_node <$> popups s)
   ∧ requests s = requests st ++ [acknowledgment noteId]
   ∧ StreamApp.handle (ClickDismiss node) s = s
   ∧ popups s' = popups s ∧ requests s' = requests s ∧ timers s' = timers st
   ∧ console s' = console st ++ (if StreamApp.fulfilled resp then [] else failure))
  ∧ ((node ∉ popup_node <$> popups q)
     ∧ requests q = requests st ++ [acknowledgment noteId]
     ∧ PollingApp.handle (ClickDismiss node) q = q
     ∧ popups q' = popups q ∧ requests q' = requests q ∧ timers q' = timers st
     ∧ console q' = console st ++ (if PollingApp.fulfilled resp then [] else failure)).
Proof.
  intros Hat Hd s s' q q' failure. subst s' s q' q failure.
  rewrite (stream_click_dismiss _ _ _ _ Hat Hd), (polling_click_dismiss _ _ _ _ Hat Hd).
  split.
  - pose proof (remove_gone node
      (StreamApp.safeFetch (reminded_url noteId) post
         (AwaitLogged (lit "Error marking as reminded:")) st)) as Hgone.
    split; [exact Hgone|]. split; [reflexivity|]. split.
    { cbn [StreamApp.handle]. unfold StreamApp.dismiss.
      by rewrite (popup_at_gone _ _ Hgone). }
    cbn [StreamApp.handle]. unfold StreamApp.settle, StreamApp.dismiss, StreamApp.safeFetch.
    cbn [pending remove set_popups fetch]. rewrite lookup_insert_eq.
    destruct (StreamApp.fulfilled resp); cbn; rewrite ?app_nil_r; done.
  - pose proof (remove_gone node
      (fetch (reminded_url noteId) post
         (AwaitLogged (lit "Error marking as reminded:")) st)) as Hgone.
    split; [exact Hgone|]. split; [reflexivity|]. split.
    { cbn [PollingApp.handle]. unfold PollingApp.dismiss.
      by rewrite (popup_at_gone _ _ Hgone). }
    cbn [PollingApp.handle]. unfold PollingApp.settle, PollingApp.dismiss.
    cbn [pending remove set_popups fetch]. rewrite lookup_insert_eq.
    destruct (PollingApp.fulfilled resp); cbn; rewrite ?app_nil_r; done.
Qed.

Lemma dismiss_closes_at_once_witness :
  let r := {| id := 7; title := JStr (lit "Call"); content := JNull |} in
  let st :=
    StreamApp.run [Settle 0 (Resolved true (Html (Some template)))]
      (StreamApp.receive r (fresh None)) in
  0 ∉ popup_node <$> popups (StreamApp.handle (ClickDismiss 0) st).
Proof.
  intros r st.
  refine (proj1 (proj1 (dismiss_closes_at_once 0 (popup_of 0 r) 7 Rejected st _ _))).
  - vm_compute. reflexivity.
  - reflexivity.
Defined.

(** The request just sent is the one pending at the end of the log. *)
Lemma stream_settle_done u i node noteId resp st n :
  n = length (requests st) →
  StreamApp.settle n resp (fetch u i (AwaitDone node noteId) st) =
  let st' := set_pending (delete n (<[n := AwaitDone node noteId]> (pending st)))
               (fetch u i (AwaitDone node noteId) st) in
  if StreamApp.fulfilled resp then
    StreamApp.safeFetch (reminded_url noteId) post
      (AwaitClose node (lit "Error marking note as done:")) st'
  else remove node (log (Error (lit "Error marking note as done:")) st').
Proof.
  intros ->. unfold StreamApp.settle. cbn [pending fetch].
  by rewrite lookup_insert_eq.
Qed.

Lemma polling_settle_done u i node noteId resp st n :
  n = length (requests st) →
  PollingApp.settle n resp (fetch u i (AwaitDone node noteId) st) =
  let st' := set_pending (delete n (<[n := AwaitDone node noteId]> (pending st)))
               (fetch u i (AwaitDone node noteId) st) in
  if PollingApp.fulfilled resp then
    fetch (reminded_url noteId) post
      (AwaitClose node (lit "Error marking note as done:")) st'
  else remove node (log (Error (lit "Error marking note as done:")) st').
Proof.
  intros ->. unfold PollingApp.settle. cbn [pending fetch].
  by rewrite lookup_insert_eq.
Qed.

Lemma stream_settle_close u i node msg resp st n :
  n = length (requests st) →
  StreamApp.settle n resp (fetch u i (AwaitClose node msg) st) =
  let st' := set_pending (delete n (<[n := AwaitClose node msg]> (pending st)))
               (fetch u i (AwaitClose node msg) st) in
  remove node (if StreamApp.fulfilled resp then st' else log (Error msg) st').
Proof.
  intros ->. unfold StreamApp.settle. cbn [pending fetch].
  by rewrite lookup_insert_eq.
Qed.

Lemma polling_settle_close u i node msg resp st n :
  n = length (requests st) →
  PollingApp.settle n resp (fetch u i (AwaitClose node msg) st) =
  let st' := set_pending (delete n (<[n := AwaitClose node msg]> (pending st)))
               (fetch u i (AwaitClose node msg) st) in
  remove node (if PollingApp.fulfilled resp then st' else log (Error msg) st').
Proof.
  intros ->. unfold PollingApp.settle. cbn [pending fetch].
  by rewrite lookup_insert_eq.
Qed.

(** X7: a click on Mark done keeps the popup open until its requests
    have settled, and closes it in every outcome.  The click sends POST
    /done/{id} and leaves the popup in the document.  When that
    request is fulfilled, POST /reminded/{id} follows, and the popup is
    closed when the second request has settled, fulfilled or not.  When
    the first request fails, nothing more is sent, "Error marking note
    as done:" is logged, and the popup is closed at once.  The stream
    variant counts a response that is not ok as a failure; the polling
    variant counts only a failed request. *)
Theorem mark_done_closes
    (node : nat) (p : Popup) (noteId : N) (resp1 resp2 : Response) (st : Page) :
  popup_at node st = Some p →
  mark_done_onclick p = Some noteId →
  let k := length (requests st) in
  let failure := [Error (lit "Error marking note as done:")] in
  (let clicked := StreamApp.handle (ClickMarkDone node) st in
   let answered := StreamApp.handle (Settle k resp1) clicked in
   let settled := StreamApp.handle (Settle (S k) resp2) answered in
   popups clicked = popups st
   ∧ requests clicked = requests st ++ [done_request noteId]
   ∧ if StreamApp.fulfilled resp1 then
       popups answered = popups st
       ∧ requests answered = requests clicked ++ [acknowledgment noteId]
       ∧ (node ∉ popup_node <$> popups settled)
       ∧ requests settled = requests answered
       ∧ console settled =
           console st ++ (if StreamApp.fulfilled resp2 then [] else failure)
     else
       (node ∉ popup_node <$> popups answered)
       ∧ requests answered = requests clicked
       ∧ console answered = console st ++ failure)
  ∧ (let clicked := PollingApp.handle (ClickMarkDone node) st in
     let answered := PollingApp.handle (Settle k resp1) clicked in
     let settled := PollingApp.handle (Settle (S k) resp2) answered in
     popups clicked = popups st
     ∧ requests clicked = requests st ++ [done_request noteId]
     ∧ if PollingApp.fulfilled resp1 then
         popups answered = popups st
         ∧ requests answered = requests clicked ++ [acknowledgment noteId]
         ∧ (node ∉ popup_node <$> popups settled)
         ∧ requests settled = requests answered
         ∧ console settled =
             console st ++ (if PollingApp.fulfilled resp2 then [] else failure)
       else
         (node ∉ popup_node <$> popups answered)
         ∧ requests answered = requests clicked
         ∧ console answered = console st ++ failure).
Proof.
  intros Hat Hd k failure. subst k failure. cbv zeta.
  rewrite (stream_click_mark_done _ _ _ _ Hat Hd), (polling_click_mark_done _ _ _ _ Hat Hd).
  cbn [StreamApp.handle PollingApp.handle].
  unfold StreamApp.mark_done, PollingApp.mark_done, StreamApp.safeFetch.
  rewrite stream_settle_done, polling_settle_done by reflexivity. cbv zeta.
  split.
  - split; [reflexivity|]. split; [reflexivity|].
    destruct (StreamApp.fulfilled resp1).
    + unfold StreamApp.safeFetch.
      rewrite stream_settle_close
        by (cbn [requests fetch set_pending]; rewrite length_app; cbn; lia).
      cbv zeta. split; [reflexivity|]. split; [reflexivity|].
      split; [apply remove_gone|].
      destruct (StreamApp.fulfilled resp2); cbn; rewrite ?app_nil_r; done.
    + split; [apply remove_gone|]. done.
  - split; [reflexivity|]. split; [reflexivity|].
    destruct (PollingApp.fulfilled resp1).
    + rewrite polling_settle_close
        by (cbn [requests fetch set_pending]; rewrite length_app; cbn; lia).
      cbv zeta. split; [reflexivity|]. split; [reflexivity|].
      split; [apply remove_gone|].
      destruct (PollingApp.fulfilled resp2); cbn; rewrite ?app_nil_r; done.
    + split; [apply remove_gone|]. done.
Qed.

Lemma mark_done_closes_witness :
  let r := {| id := 7; title := JStr (lit "Call"); content := JNull |} in
  let st :=
    PollingApp.run [Settle 0 (Resolved true (Html (Some template)))]
      (PollingApp.receive r (fresh None)) in
  requests (PollingApp.handle (Settle 2 (Resolved false Unreadable))
              (PollingApp.handle (ClickMarkDone 0) st)) =
  requests (PollingApp.handle (ClickMarkDone 0) st) ++ [acknowledgment 7].
Proof.
  intros r st.
  refine (proj1 (proj2 (proj2 (proj2 (proj2
    (mark_done_closes 0 (popup_of 0 r) 7 (Resolved false Unreadable) Rejected st _ _)))))).
  - vm_compute. reflexivity.
  - reflexivity.
Defined.

End closing.

(** ** More on the themes *)

Section theme_runs.
Import MultiTheme ThemeRuns.

(** [applyTheme] with a name that [themes] has, or has not at all. *)
Lemma applyTheme_missing isMobile name l :
  themes_get name = Missing →
  applyTheme isMobile name l = applyTheme isMobile (lit "matrix") l.
Proof. intros H. unfold applyTheme. by rewrite H. Qed.

Lemma themes_get_cases name :
  (∃ s, own name themes = Some s)
  ∨ ((name ∈ object_prototype) ∧ themes_get name = Inherited)
  ∨ ((name ∉ object_prototype) ∧ themes_get name = Missing).
Proof.
  unfold themes_get. destruct (own name themes) as [s|]; [eauto|]. right.
  destruct (decide (name ∈ object_prototype)) as [Hin|Hout].
  - left. by rewrite bool_decide_eq_true_2.
  - right. by rewrite bool_decide_eq_false_2.
Qed.

(** No theme of the table bears the name of an inherited member. *)
Lemma inherited_not_own name : name ∈ object_prototype → own name themes = None.
Proof.
  unfold object_prototype. rewrite !elem_of_cons, elem_of_nil.
  intros H. repeat (destruct H as [-> | H]; [reflexivity|]). destruct H.
Qed.

Lemma matrix_sheets :
  own (lit "matrix") themes =
  Some {| desktop := lit "/static/style2.css"; mobile := lit "/static/style2_mobile.css" |}.
Proof. reflexivity. Qed.

(** X8: a first load.  With no theme stored, an empty one, or a name
    the theme table does not know, [initTheme] links the matrix style
    sheet of the device and stores "matrix".  The closure variable keeps
    an unknown name as it was read, so that the first click on the
    switch selects matrix once more; after no or an empty stored name
    the first click selects light. *)
Theorem initTheme_default (isMobile : bool) (p : Page) (h : jsstring) :
  themeLink p = Some h →
  switchButton p = true →
  (∀ name, localStorage p !! lit "themeName" = Some name →
           name = [] ∨ themes_get name = Missing) →
  ∃ l, initTheme isMobile p = Some l
    ∧ href l = (if isMobile then lit "/static/style2_mobile.css"
                else lit "/static/style2.css")
    ∧ storage l = <[lit "themeName" := lit "matrix"]> (localStorage p)
    ∧ currentTheme (click isMobile l) =
        match localStorage p !! lit "themeName" with
        | Some (c :: name) => lit "matrix"
        | _ => lit "light"
        end.
Proof.
  intros Hlink Hbtn Hstored. unfold initTheme. rewrite Hlink, Hbtn.
  eexists. split; [reflexivity|]. unfold getItem.
  destruct (localStorage p !! lit "themeName") as [[|c name]|] eqn:E.
  - cbn [or_else truthy]. rewrite (applyTheme_own _ _ _ _ matrix_sheets).
    rewrite click_currentTheme. cbn. destruct isMobile; done.
  - destruct (Hstored _ eq_refl) as [?|Hmiss]; [done|].
    cbn [or_else truthy to_string]. rewrite (applyTheme_missing _ _ _ Hmiss).
    rewrite (applyTheme_own _ _ _ _ matrix_sheets).
    rewrite click_currentTheme. cbn [currentTheme].
    rewrite decide_False; [destruct isMobile; done|].
    intros Heq. rewrite Heq in Hmiss. vm_compute in Hmiss. discriminate Hmiss.
  - cbn [or_else truthy]. rewrite (applyTheme_own _ _ _ _ matrix_sheets).
    rewrite click_currentTheme. cbn. destruct isMobile; done.
Qed.

Lemma initTheme_default_witness :
  let p := {| themeLink := Some (lit "/static/style1.css"); switchButton := true;
              localStorage := {[ lit "themeName" := lit "solarized" ]} |} in
  ∃ l, initTheme true p = Some l
    ∧ href l = lit "/static/style2_mobile.css".
Proof.
  intros p.
  destruct (initTheme_default true p (lit "/static/style1.css") eq_refl eq_refl)
    as (l & Hl & Hh & _).
  - intros name Hname. right.
    assert (name = lit "solarized") as ->.
    { revert Hname. vm_compute. congruence. }
    vm_compute. reflexivity.
  - exists l. split; [exact Hl | exact Hh].
Defined.

Lemma applyTheme_follows isMobile name l :
  themes_get name ≠ Inherited →
  themes_get (currentTheme l) ≠ Inherited →
  follows isMobile (applyTheme isMobile name l).
Proof.
  intros Hname Hcur. split; [exact Hcur|].
  destruct (themes_get_cases name) as [[s Hs] | [[_ Hi] | [_ Hm]]]; [| done |].
  - exists name, s. rewrite (applyTheme_own _ _ _ _ Hs). cbn.
    split; [apply lookup_insert_eq | done].
  - rewrite (applyTheme_missing _ _ _ Hm), (applyTheme_own _ _ _ _ matrix_sheets).
    eexists _, _. cbn. split; [apply lookup_insert_eq|]. split; [apply matrix_sheets | done].
Qed.

Lemma own_get name s : own name themes = Some s → themes_get name ≠ Inherited.
Proof. intros H. by rewrite (themes_get_own _ _ H). Qed.

Lemma handle_follows e m l :
  follows m l → follows (device m [e]) (handle e l).
Proof.
  intros [Hcur _]. destruct e as [m'|m']; cbn [device foldl handle].
  - pose proof (click_in_order m' l) as Hin.
    destruct (order_own _ Hin) as [s Hs]. revert Hs. unfold click.
    set (t := default _ _). intros Hs.
    apply applyTheme_follows; cbn [currentTheme]; by apply (own_get _ s).
  - unfold resize. by apply applyTheme_follows.
Qed.

Lemma run_follows es m l :
  follows m l → follows (device m es) (run es l).
Proof.
  revert m l. induction es as [|e es IH]; intros m l H; [done|].
  apply (IH (device m [e]) (handle e l)). by apply handle_follows.
Qed.

(** X9: the link follows the storage.  After [initTheme] on a page
    whose stored theme name is not one of the members [themes] inherits
    from [Object.prototype], and after any run of clicks on the switch
    and window resizes, the name stored under "themeName" is a theme of
    the table and the link points to that theme's style sheet, the
    mobile or the desktop one as the last handler found the device. *)
Theorem theme_link_follows_storage
    (isMobile : bool) (p : Page) (h : jsstring) (es : list Event) :
  themeLink p = Some h →
  switchButton p = true →
  (∀ name, localStorage p !! lit "themeName" = Some name → name ∉ object_prototype) →
  ∃ l0, initTheme isMobile p = Some l0
    ∧ ∃ n s, storage (run es l0) !! lit "themeName" = Some n
             ∧ own n themes = Some s
             ∧ href (run es l0) = sheet (device isMobile es) s.
Proof.
  intros Hlink Hbtn Hstored. unfold initTheme. rewrite Hlink, Hbtn.
  eexists. split; [reflexivity|].
  apply run_follows.
  set (cur := or_else _ _).
  assert (Hcur : themes_get cur ≠ Inherited).
  { subst cur. unfold getItem.
    destruct (localStorage p !! lit "themeName") as [[|c name]|] eqn:E; try done.
    cbn [or_else truthy to_string].
    destruct (themes_get_cases (c :: name)) as [[s Hs] | [[Hin _] | [_ Hm]]].
    - by apply (own_get _ s).
    - by destruct (Hstored _ eq_refl).
    - by rewrite Hm. }
  by apply applyTheme_follows.
Qed.

Lemma theme_link_follows_storage_witness :
  let p := {| themeLink := Some (lit "/static/style1.css"); switchButton := true;
              localStorage := ∅ |} in
  ∃ l0, initTheme false p = Some l0
    ∧ ∃ n s, storage (run [Click false; Resize true] l0) !! lit "themeName" = Some n
             ∧ own n themes = Some s
             ∧ href (run [Click false; Resize true] l0) = sheet true s.
Proof.
  intros p.
  refine (theme_link_follows_storage false p (lit "/static/style1.css")
            [Click false; Resize true] eq_refl eq_refl _).
  intros name Hname. vm_compute in Hname. discriminate Hname.
Defined.

Lemma inherited_get name : name ∈ object_prototype → themes_get name = Inherited.
Proof.
  intros H. unfold themes_get. rewrite (inherited_not_own _ H).
  by rewrite bool_decide_eq_true_2.
Qed.

Lemma inherited_nonempty name : name ∈ object_prototype → name ≠ [].
Proof.
  unfold object_prototype. rewrite !elem_of_cons, elem_of_nil.
  intros H. repeat (destruct H as [-> | H]; [discriminate|]). destruct H.
Qed.

(** X10: a stored name that [themes] only inherits.  When the name
    stored under "themeName" is a member of [Object.prototype]
    ("constructor", "toString", ...), [themes[name]] is truthy, so
    [initTheme] keeps the name, stores it again, and sets the link to
    "undefined"; a resize changes nothing of that, and the first click
    on the switch selects matrix and repairs the link. *)
Theorem initTheme_inherited_name
    (isMobile isMobile' : bool) (p : Page) (h name : jsstring) :
  themeLink p = Some h →
  switchButton p = true →
  localStorage p !! lit "themeName" = Some name →
  name ∈ object_prototype →
  ∃ l, initTheme isMobile p = Some l
    ∧ href l = lit "undefined"
    ∧ storage l !! lit "themeName" = Some name
    ∧ resize isMobile' l = l
    ∧ currentTheme (click isMobile' l) = lit "matrix"
    ∧ href (click isMobile' l) =
        (if isMobile' then lit "/static/style2_mobile.css" else lit "/static/style2.css").
Proof.
  intros Hlink Hbtn Hstored Hin. unfold initTheme. rewrite Hlink, Hbtn.
  eexists. split; [reflexivity|]. unfold getItem. rewrite Hstored.
  rewrite (or_else_nonempty _ _ (inherited_nonempty _ Hin)).
  pose proof (inherited_get _ Hin) as Hget.
  unfold resize, applyTheme at 1 2 3 4. rewrite !Hget. cbn [href storage currentTheme to_string].
  split; [reflexivity|]. split; [apply lookup_insert_eq|]. split.
  { unfold applyTheme. rewrite !Hget. cbn. unfold setItem.
    by rewrite insert_insert_eq. }
  set (l := Build_Live _ _ _).
  assert (Hcur : currentTheme (click isMobile' l) = lit "matrix").
  { rewrite click_currentTheme. subst l. cbn [currentTheme].
    rewrite decide_False; [done|]. intros ->. vm_compute in Hget. discriminate Hget. }
  split; [exact Hcur|].
  revert Hcur. unfold click. set (t := default _ _). cbn [currentTheme applyTheme].
  unfold applyTheme. cbn [currentTheme]. intros ->. cbn. by destruct isMobile'.
Qed.

Lemma initTheme_inherited_name_witness :
  let p := {| themeLink := Some (lit "/static/style1.css"); switchButton := true;
              localStorage := {[ lit "themeName" := lit "constructor" ]} |} in
  ∃ l, initTheme false p = Some l ∧ href l = lit "undefined".
Proof.
  intros p.
  destruct (initTheme_inherited_name false false p (lit "/static/style1.css")
              (lit "constructor") eq_refl eq_refl) as (l & Hl & Hh & _).
  - vm_compute. reflexivity.
  - apply (bool_decide_unpack _). vm_compute. exact I.
  - exists l. split; [exact Hl | exact Hh].
Defined.

Lemma dark_clicks_S n p : dark_clicks (S n) p = DarkTheme.click (dark_clicks n p).
Proof. reflexivity. Qed.

Lemma remove_other (c d : jsstring) l : d ≠ c → d ∈ ClassList.remove c l ↔ d ∈ l.
Proof.
  intros H. unfold ClassList.remove. rewrite list_elem_of_filter.
  split; [by intros [_ Hd] | by intros Hd].
Qed.

Lemma add_other (c d : jsstring) l : d ≠ c → d ∈ ClassList.add c l ↔ d ∈ l.
Proof.
  intros H. unfold ClassList.add. destruct (ClassList.contains c l); [done|].
  rewrite elem_of_app, list_elem_of_singleton.
  split; [intros [Hd|Hd]; [exact Hd | by destruct H] | by left].
Qed.

(** X11: the dark-theme toggle after any number of clicks.  The body
    carries the dark-theme class exactly when it did at first and the
    number of clicks is even, or did not and the number is odd; no
    other class of the body is added or removed; and once the switch
    has been clicked, "theme" in the storage says "dark" exactly when
    the class is there, and "light" otherwise. *)
Theorem dark_toggle_clicks (n : nat) (p : DarkTheme.Page) (c : jsstring) :
  let q := dark_clicks n p in
  ClassList.contains (lit "dark-theme") (DarkTheme.body_classList q) =
    (if Nat.even n then ClassList.contains (lit "dark-theme") (DarkTheme.body_classList p)
     else negb (ClassList.contains (lit "dark-theme") (DarkTheme.body_classList p)))
  ∧ (c ≠ lit "dark-theme" →
     c ∈ DarkTheme.body_classList q ↔ c ∈ DarkTheme.body_classList p)
  ∧ (0 < n →
     DarkTheme.localStorage q !! lit "theme" =
       Some (if ClassList.contains (lit "dark-theme") (DarkTheme.body_classList q)
             then lit "dark" else lit "light")).
Proof.
  cbv zeta. split; [|split].
  - induction n as [|n IH]; [done|].
    rewrite dark_clicks_S. unfold DarkTheme.click at 1. cbn [DarkTheme.body_classList].
    rewrite contains_toggle, IH, Nat.even_succ, <- Nat.negb_even.
    destruct (Nat.even n); cbn; by rewrite ?negb_involutive.
  - intros Hc. induction n as [|n IH]; [done|].
    rewrite dark_clicks_S. unfold DarkTheme.click at 1. cbn [DarkTheme.body_classList].
    rewrite <- IH. unfold ClassList.toggle.
    destruct (ClassList.contains _ _); [by apply remove_other | by apply add_other].
  - intros Hn. destruct n as [|n]; [lia|].
    rewrite dark_clicks_S. apply dark_click_storage.
Qed.

Lemma dark_toggle_clicks_witness :
  let p := {| DarkTheme.body_classList := [lit "page"]; DarkTheme.switchButton := true;
              DarkTheme.localStorage := ∅ |} in
  lit "page" ∈ DarkTheme.body_classList (dark_clicks 3 p)
  ∧ DarkTheme.localStorage (dark_clicks 3 p) !! lit "theme" = Some (lit "dark").
Proof.
  intros p.
  destruct (dark_toggle_clicks 3 p (lit "page")) as (_ & Hframe & Hstored).
  split.
  - apply Hframe; [discriminate|]. by apply list_elem_of_singleton.
  - rewrite Hstored by lia. reflexivity.
Defined.

End theme_runs.

(** ** More on the uploads *)

Section upload_outcomes.
Import Upload UploadSpec UploadEvents.

Local Ltac upload_cbn :=
  cbn [progress attached zones timers next_timer hide requests pending alerts console
       reloaded setTimeout set_attached set_progress set_timers set_zones set_pending
       console_error alert location_reload fetch].

(** The end of [uploadFile] on any page that has the zone. *)
Lemma uploadFile_then_outcome zone z resp st :
  zones st !! zone = Some z →
  let finished := uploadFile_then zone resp st in
  let files := note_files <$> zones finished !! zone in
  requests finished = requests st
  ∧ match resp with
    | Responded true (Some data) =>
        if ok data then
          match note_files z with
          | Some entries =>
              files = Some (Some (file_entry data :: entries))
              ∧ alerts finished = alerts st ∧ reloaded finished = reloaded st
          | None =>
              files = Some None
              ∧ alerts finished = alerts st ∧ reloaded finished = true
          end
        else
          files = Some (note_files z)
          ∧ alerts finished = alerts st ++ [or_else (error data) (lit "Upload failed")]
          ∧ reloaded finished = reloaded st
    | Responded false (Some data) =>
        files = Some (note_files z)
        ∧ alerts finished = alerts st ++ [or_else (error data) (lit "Upload failed")]
        ∧ reloaded finished = reloaded st
    | _ =>
        files = Some (note_files z)
        ∧ alerts finished = alerts st ++ [lit "Upload error"]
        ∧ reloaded finished = reloaded st
    end.
Proof.
  intros Hz finished files. subst files finished.
  unfold uploadFile_then, uploadFile_try, zone_classes, file_entry.
  destruct resp as [|[] [data|]]; cbn [andb].
  - upload_cbn. rewrite !lookup_alter_eq, Hz. done.
  - destruct (ok data).
    + rewrite Hz. destruct (note_files z) as [entries|] eqn:Hf; upload_cbn.
      * rewrite lookup_alter_eq, lookup_insert_eq. cbn.
        destruct (file_id_truthy (file_id data)); done.
      * rewrite lookup_alter_eq, Hz. cbn. by rewrite Hf.
    + upload_cbn. rewrite !lookup_alter_eq, Hz. done.
  - upload_cbn. rewrite !lookup_alter_eq, Hz. done.
  - upload_cbn. rewrite !lookup_alter_eq, Hz. done.
  - upload_cbn. rewrite !lookup_alter_eq, Hz. done.
Qed.

(** X12: what [uploadFile] leaves behind.  One POST /upload_file/{noteId}
    with the one file is sent.  When the response is ok and its JSON
    says ok, the file is put in front of the note's file list, with a
    download link to its id, and nobody is alerted; when the list
    element is missing the page is reloaded instead.  When the response
    or its JSON is not ok, the user is alerted with the server's error
    text, or "Upload failed" when there is none; when the request fails
    or the body is not JSON, with "Upload error".  In neither failure
    is the file list touched or the page reloaded. *)
Theorem uploadFile_outcome
    (noteId : jsval) (file : jsstring) (zone : nat) (z : Zone) (st : Page)
    (resp : Response) :
  zones st !! zone = Some z →
  let finished :=
    handle (Settle (length (requests st)) resp) (uploadFile noteId file zone st) in
  let files := note_files <$> zones finished !! zone in
  requests finished =
    requests st ++ [{| url := lit "/upload_file/" ++ to_string noteId;
                       form_files := [file] |}]
  ∧ match resp with
    | Responded true (Some data) =>
        if ok data then
          match note_files z with
          | Some entries =>
              files = Some (Some (file_entry data :: entries))
              ∧ alerts finished = alerts st ∧ reloaded finished = reloaded st
          | None =>
              files = Some None
              ∧ alerts finished = alerts st ∧ reloaded finished = true
          end
        else
          files = Some (note_files z)
          ∧ alerts finished = alerts st ++ [or_else (error data) (lit "Upload failed")]
          ∧ reloaded finished = reloaded st
    | Responded false (Some data) =>
        files = Some (note_files z)
        ∧ alerts finished = alerts st ++ [or_else (error data) (lit "Upload failed")]
        ∧ reloaded finished = reloaded st
    | _ =>
        files = Some (note_files z)
        ∧ alerts finished = alerts st ++ [lit "Upload error"]
        ∧ reloaded finished = reloaded st
    end.
Proof.
  intros Hz finished files. subst files finished.
  cbn [handle]. unfold uploadFile. rewrite settle_started by reflexivity.
  set (z1 := {| classList := ClassList.add (lit "uploading") (classList z);
                note_files := note_files z |}).
  set (st1 := set_pending _ _).
  assert (Hz1 : zones st1 !! zone = Some z1).
  { subst st1. unfold zone_classes. upload_cbn. by rewrite lookup_alter_eq, Hz. }
  destruct (uploadFile_then_outcome zone z1 resp st1 Hz1) as [Hreq Hout].
  split; [rewrite Hreq; reflexivity|]. exact Hout.
Qed.

Lemma uploadFile_outcome_witness :
  let st :=
    {| progress := ∅; attached := ∅;
       zones := {[ 0 := {| classList := [lit "dropzone"]; note_files := Some [] |} ]};
       requests := []; pending := ∅; timers := ∅; next_timer := 0;
       alerts := []; console := []; reloaded := false |} in
  let data := {| ok := false; file_id := None; filename := JUndefined;
                 error := JStr (lit "File too large") |} in
  alerts (handle (Settle 0 (Responded true (Some data)))
            (uploadFile (JStr (lit "5")) (lit "a.txt") 0 st)) = [lit "File too large"].
Proof.
  intros st data.
  refine (proj1 (proj2 (proj2
    (uploadFile_outcome (JStr (lit "5")) (lit "a.txt") 0
       {| classList := [lit "dropzone"]; note_files := Some [] |} st
       (Responded true (Some data)) _)))).
  vm_compute. reflexivity.
Defined.

(** X13: uploads of different notes do not disturb each other.  For a
    note other than the one uploaded to, the progress box and the
    attached files are the same after [handleFiles], after the response
    has been handled, and after the hide timer of the upload has
    elapsed; the dropzones are never touched. *)
Theorem handleFiles_other_notes
    (files : list jsstring) (noteId other : jsstring) (resp : Response)
    (t : nat) (ms : N) (st : Page) :
  other ≠ noteId →
  let same (st' : Page) :=
    progress st' !! other = progress st !! other
    ∧ attached st' !! other = attached st !! other
    ∧ zones st' = zones st in
  same (handleFiles files noteId st)
  ∧ same (handleFiles_then noteId resp st)
  ∧ (timers st !! t = Some {| hide := noteId; delay := ms |} → same (fire t st)).
Proof.
  intros Hne same. subst same. cbv beta.
  assert (Hcatch : ∀ st0,
    progress (handleFiles_catch noteId st0) !! other = progress st0 !! other
    ∧ attached (handleFiles_catch noteId st0) !! other = attached st0 !! other
    ∧ zones (handleFiles_catch noteId st0) = zones st0).
  { intros st0. unfold handleFiles_catch. upload_cbn.
    by rewrite lookup_alter_ne. }
  split; [|split].
  - unfold handleFiles. case_bool_decide; [done|].
    destruct (progress st !! noteId) as [box|]; [|done]. cbn [fill_width set_display].
    destruct (fill_width box); upload_cbn; [|by rewrite lookup_insert_ne].
    cbn [progress_text set_width set_display].
    destruct (progress_text box); upload_cbn; by rewrite lookup_insert_ne.
  - unfold handleFiles_then. destruct resp as [|b [data|]]; try apply Hcatch.
    destruct (ok data); [|apply Hcatch]. upload_cbn.
    destruct (attached st !! noteId) as [items|] eqn:E.
    + upload_cbn. by rewrite lookup_alter_ne, lookup_insert_ne.
    + destruct (Hcatch (set_progress
        (alter (λ b0, set_text (lit "Upload complete!") (set_width (lit "100%") b0))
           noteId (progress st)) st)) as (-> & -> & ->).
      upload_cbn. by rewrite lookup_alter_ne.
  - intros Ht. unfold fire. rewrite Ht. upload_cbn. by rewrite lookup_alter_ne.
Qed.

Lemma handleFiles_other_notes_witness :
  let box := {| display := lit "none"; fill_width := Some (lit "0%");
                progress_text := Some [] |} in
  let st :=
    {| progress := {[ lit "5" := box; lit "6" := box ]};
       attached := {[ lit "5" := []; lit "6" := [] ]};
       zones := ∅; requests := []; pending := ∅; timers := ∅; next_timer := 0;
       alerts := []; console := []; reloaded := false |} in
  progress (handleFiles [lit "a.txt"] (lit "5") st) !! lit "6" = progress st !! lit "6".
Proof.
  intros box st.
  refine (proj1 (proj1
    (handleFiles_other_notes [lit "a.txt"] (lit "5") (lit "6") Rejected 0 0 st _))).
  discriminate.
Defined.

(** X14: [handleFiles] on a page that lacks an element.  Without the
    progress container nothing happens at all, no request is sent.
    Without its .progress-fill the container is shown and nothing is
    sent, and no timer is left to hide it again.  Without the
    attached-files container the files are sent, but a response that
    says ok ends like a failure: the bar at 0%, the text
    'Upload failed. Please try again.', the 3000 ms hide timer, and a
    console entry. *)
Theorem handleFiles_missing_elements
    (files : list jsstring) (noteId : jsstring) (st : Page) (box : ProgressBox)
    (b : bool) (data : Data) :
  files ≠ [] →
  (progress st !! noteId = None → handleFiles files noteId st = st)
  ∧ (progress st !! noteId = Some box → fill_width box = None →
     let st' := handleFiles files noteId st in
     requests st' = requests st ∧ timers st' = timers st
     ∧ progress st' !! noteId = Some (set_display (lit "block") box))
  ∧ (progress st !! noteId = Some box → is_Some (fill_width box) →
     is_Some (progress_text box) → attached st !! noteId = None → ok data = true →
     let st' := handle (Settle (length (requests st)) (Responded b (Some data)))
                  (handleFiles files noteId st) in
     requests st' =
       requests st ++ [{| url := lit "/upload_file/" ++ noteId; form_files := files |}]
     ∧ progress st' !! noteId =
         Some {| display := lit "block"; fill_width := Some (lit "0%");
                 progress_text := Some (lit "Upload failed. Please try again.") |}
     ∧ timers st' !! next_timer st = Some {| hide := noteId; delay := 3000 |}
     ∧ console st' = console st ++ [lit "Error uploading file:"]).
Proof.
  intros Hfiles.
  assert (Hnonempty : bool_decide (length files = 0) = false).
  { apply bool_decide_eq_false. by destruct files. }
  split; [|split].
  - intros Hnone. unfold handleFiles. by rewrite Hnonempty, Hnone.
  - intros Hbox Hfill. unfold handleFiles. rewrite Hnonempty, Hbox.
    cbn [fill_width set_display]. rewrite Hfill. upload_cbn.
    by rewrite lookup_insert_eq.
  - intros Hbox [w Hw] [t Ht] Hnone Hok.
    rewrite (handleFiles_start _ _ _ _ _ _ Hfiles Hbox Hw Ht).
    cbn [handle]. rewrite settle_started by reflexivity.
    unfold handleFiles_then. rewrite Hok. upload_cbn. rewrite Hnone.
    unfold handleFiles_catch. upload_cbn.
    rewrite !lookup_alter_eq, !lookup_insert_eq. cbn. done.
Qed.

Lemma handleFiles_missing_elements_witness :
  let st :=
    {| progress := ∅; attached := ∅; zones := ∅; requests := []; pending := ∅;
       timers := ∅; next_timer := 0; alerts := []; console := []; reloaded := false |} in
  handleFiles [lit "a.txt"] (lit "5") st = st.
Proof.
  intros st.
  refine (proj1 (handleFiles_missing_elements [lit "a.txt"] (lit "5") st
                   {| display := []; fill_width := None; progress_text := None |}
                   true
                   {| ok := true; file_id := None; filename := JUndefined;
                      error := JUndefined |} _) _).
  - discriminate.
  - vm_compute. reflexivity.
Defined.

End upload_outcomes.

(** ** Starting an upload *)

Section upload_events.
Import Upload UploadSpec UploadEvents.

Lemma strip_prefix_app pat s : strip_prefix pat (pat ++ s) = Some s.
Proof.
  induction pat as [|p pat IH]; cbn; [by destruct s|].
  by rewrite decide_True.
Qed.

Lemma strip_prefix_Some pat s rest : strip_prefix pat s = Some rest → s = pat ++ rest.
Proof.
  revert s. induction pat as [|p pat IH]; intros s; cbn.
  - destruct s; congruence.
  - destruct s as [|c s]; [done|]. case_decide; [|done]. subst c.
    intros H. by rewrite (IH _ H).
Qed.

Lemma replace_prefix pat s : replace pat (pat ++ s) = s.
Proof.
  destruct (pat ++ s) as [|c l] eqn:E; cbn [replace];
    rewrite <- E, strip_prefix_app; reflexivity.
Qed.

(** A string without an occurrence of [pat] is returned as it is. *)
Lemma replace_absent pat s :
  (∀ pre suf, s ≠ pre ++ pat ++ suf) → replace pat s = s.
Proof.
  induction s as [|c s IH]; intros H.
  - cbn. destruct (strip_prefix pat []) as [rest|] eqn:E; [|done].
    apply strip_prefix_Some in E. destruct (H [] rest). done.
  - cbn [replace]. destruct (strip_prefix pat (c :: s)) as [rest|] eqn:E.
    + apply strip_prefix_Some in E. destruct (H [] rest). done.
    + f_equal. apply IH. intros pre suf ->. by destruct (H (c :: pre) suf).
Qed.

(** X15: the note a drop goes to.  [handleDrop] reads the note id off
    the id of the attachment area by taking out "file-drop-": for an
    area whose id is "file-drop-" followed by the note id it gets the
    note id back, so that a drop does to the page what choosing the
    same files in the input of that note does; an id that does not
    contain "file-drop-" is taken as the note id as it is. *)
Theorem handleDrop_note
    (noteId : jsstring) (a : Area) (files : list jsstring) (st : Page) :
  (area_id a = lit "file-drop-" ++ noteId →
   handleDrop a files st = handleFiles files noteId st
   ∧ (input_noteId a = JStr noteId →
      (area_on (Drop files) a st).2 = (area_on (Change files) a st).2))
  ∧ ((∀ pre suf, area_id a ≠ pre ++ lit "file-drop-" ++ suf) →
     handleDrop a files st = handleFiles files (area_id a) st).
Proof.
  split.
  - intros Hid. unfold handleDrop. rewrite Hid, replace_prefix.
    split; [reflexivity|]. intros Hn. cbn [area_on snd]. unfold handleDrop.
    by rewrite Hid, replace_prefix, Hn.
  - intros Habs. unfold handleDrop. by rewrite replace_absent.
Qed.

Lemma handleDrop_note_witness :
  let a := {| area_id := lit "file-drop-42"; input_noteId := JStr (lit "42");
              drop_classList := [lit "drop-zone"] |} in
  let st :=
    {| progress := ∅; attached := ∅; zones := ∅; requests := []; pending := ∅;
       timers := ∅; next_timer := 0; alerts := []; console := []; reloaded := false |} in
  handleDrop a [lit "a.txt"] st = handleFiles [lit "a.txt"] (lit "42") st.
Proof.
  intros a st.
  exact (proj1 (proj1 (handleDrop_note (lit "42") a [lit "a.txt"] st) eq_refl)).
Defined.

(** X16: how many files an upload carries.  A dropzone uploads the
    first file only, of a drop as of a choice in its input, in one POST
    to /upload_file/{noteId}; an attachment area sends all the files in
    one request.  With no file neither sends anything. *)
Theorem files_per_upload
    (d : Dropzone) (a : Area) (file : jsstring) (rest : list jsstring) (st : Page)
    (box : ProgressBox) (w t : jsstring) :
  let note := to_string (input_noteId a) in
  progress st !! note = Some box →
  fill_width box = Some w →
  progress_text box = Some t →
  let first :=
    {| url := lit "/upload_file/" ++ to_string (dataset_noteId d);
       form_files := [file] |} in
  let all := {| url := lit "/upload_file/" ++ note; form_files := file :: rest |} in
  (requests (dropzone_on (ZoneDrop (file :: rest)) d st) = requests st ++ [first]
   ∧ requests (dropzone_on (InputChange (file :: rest)) d st) = requests st ++ [first]
   ∧ requests (dropzone_on (ZoneDrop []) d st) = requests st
   ∧ requests (dropzone_on (InputChange []) d st) = requests st)
  ∧ (requests (area_on (Change (file :: rest)) a st).2 = requests st ++ [all]
     ∧ (area_on (Change []) a st).2 = st
     ∧ (area_on (Drop []) a st).2 = st).
Proof.
  intros note Hbox Hw Ht first all. subst note first all. split.
  - done.
  - split; [|done]. cbn [area_on snd].
    assert (Hne : file :: rest ≠ []) by discriminate.
    by rewrite (handleFiles_start _ _ _ _ _ _ Hne Hbox Hw Ht).
Qed.

Lemma files_per_upload_witness :
  let box := {| display := lit "none"; fill_width := Some (lit "0%");
                progress_text := Some [] |} in
  let st :=
    {| progress := {[ lit "5" := box ]}; attached := {[ lit "5" := [] ]};
       zones := ∅; requests := []; pending := ∅; timers := ∅; next_timer := 0;
       alerts := []; console := []; reloaded := false |} in
  let a := {| area_id := lit "file-drop-5"; input_noteId := JStr (lit "5");
              drop_classList := [] |} in
  let d := {| zone := 0; dataset_noteId := JStr (lit "5") |} in
  requests (dropzone_on (ZoneDrop [lit "a.txt"; lit "b.txt"]) d st) =
  requests st ++ [{| url := lit "/upload_file/" ++ lit "5"; form_files := [lit "a.txt"] |}].
Proof.
  intros box st a d.
  refine (proj1 (proj1
    (files_per_upload d a (lit "a.txt") [lit "b.txt"] st box (lit "0%") [] _ _ _))).
  - vm_compute. reflexivity.
  - reflexivity.
  - reflexivity.
Defined.

Lemma area_run_snoc es e a st :
  area_run (es ++ [e]) a st = area_on e (area_run es a st).1 (area_run es a st).2.
Proof. unfold area_run. by rewrite foldl_app. Qed.

Lemma area_on_frame e a st (c : jsstring) :
  c ≠ lit "drag-over" →
  (c ∈ drop_classList (area_on e a st).1 ↔ c ∈ drop_classList a)
  ∧ area_id (area_on e a st).1 = area_id a
  ∧ input_noteId (area_on e a st).1 = input_noteId a.
Proof.
  intros Hc. destruct e; cbn [area_on fst highlight unhighlight drop_classList area_id
                               input_noteId];
    (split; [|done]); try done; by (apply add_other || apply remove_other).
Qed.

(** X17: the highlight of a drop area.  After any run of events on an
    attachment area, its drop area carries the drag-over class exactly
    when the last drag event was a dragenter or a dragover, so never
    after a drop or a dragleave; a choice of files in the input leaves
    it as it was.  No other class of the drop area is added or removed,
    and the ids the uploads go by stay the same. *)
Theorem drag_highlight
    (es : list AreaEvent) (e : AreaEvent) (a : Area) (st : Page) (c : jsstring) :
  let before := (area_run es a st).1 in
  let after := (area_run (es ++ [e]) a st).1 in
  ClassList.contains (lit "drag-over") (drop_classList after) =
    match e with
    | Dragenter | Dragover => true
    | Dragleave | Drop _ => false
    | Change _ => ClassList.contains (lit "drag-over") (drop_classList before)
    end
  ∧ (c ≠ lit "drag-over" → c ∈ drop_classList after ↔ c ∈ drop_classList a)
  ∧ area_id after = area_id a
  ∧ input_noteId after = input_noteId a.
Proof.
  cbv zeta. rewrite area_run_snoc. split.
  - destruct e; cbn [area_on fst highlight unhighlight drop_classList];
      auto using contains_add, contains_remove.
  - assert (Hframe : ∀ es',
      (c ≠ lit "drag-over" →
       c ∈ drop_classList (area_run es' a st).1 ↔ c ∈ drop_classList a)
      ∧ area_id (area_run es' a st).1 = area_id a
      ∧ input_noteId (area_run es' a st).1 = input_noteId a).
    { intros es'. induction es' as [|e' es' IH] using rev_ind; [done|].
      rewrite area_run_snoc. destruct IH as (IH1 & IH2 & IH3).
      split; [intros Hc|].
      - rewrite <- (IH1 Hc). by apply area_on_frame.
      - destruct e'; cbn [area_on fst highlight unhighlight area_id input_noteId]; done. }
    rewrite <- area_run_snoc. apply Hframe.
Qed.

Lemma drag_highlight_witness :
  let a := {| area_id := lit "file-drop-5"; input_noteId := JStr (lit "5");
              drop_classList := [lit "drop-zone"] |} in
  let st :=
    {| progress := ∅; attached := ∅; zones := ∅; requests := []; pending := ∅;
       timers := ∅; next_timer := 0; alerts := []; console := []; reloaded := false |} in
  lit "drop-zone" ∈ drop_classList (area_run ([Dragenter; Dragover] ++ [Drop []]) a st).1.
Proof.
  intros a st.
  apply (proj1 (proj2 (drag_highlight [Dragenter; Dragover] (Drop []) a st (lit "drop-zone")))).
  - discriminate.
  - by apply list_elem_of_singleton.
Defined.

End upload_events.

(** ** Search *)

Section uri.
Import URI.

Lemma percent_plain octet : (octet < 256)%N → Forall plain (percent octet).
Proof.
  intros H.
  assert (Hall : forallb (λ n, forallb (λ c, unreserved c || (c =? 37)%N)
                                 (percent (N.of_nat n))) (seq 0 256) = true)
    by (vm_compute; reflexivity).
  rewrite forallb_forall in Hall.
  specialize (Hall (N.to_nat octet)). rewrite N2Nat.id in Hall.
  assert (Hin : In (N.to_nat octet) (seq 0 256)) by (apply in_seq; lia).
  specialize (Hall Hin). rewrite forallb_forall in Hall.
  apply List.Forall_forall. intros c Hc. specialize (Hall c Hc).
  apply orb_true_iff in Hall as [Hu | He]; [by left | right; by apply N.eqb_eq].
Qed.

Lemma utf8_octets cp : (cp < 1114112)%N → Forall (λ o, (o < 256)%N) (utf8 cp).
Proof.
  intros H. unfold utf8.
  destruct (cp <? 128)%N eqn:E1; [apply N.ltb_lt in E1; repeat constructor; lia|].
  destruct (cp <? 2048)%N eqn:E2.
  { apply N.ltb_lt in E2. repeat constructor.
    - pose proof (N.Div0.div_lt_upper_bound cp 64 32). lia.
    - pose proof (N.mod_lt cp 64). lia. }
  destruct (cp <? 65536)%N eqn:E3.
  { apply N.ltb_lt in E3. repeat constructor.
    - pose proof (N.Div0.div_lt_upper_bound cp 4096 16). lia.
    - pose proof (N.mod_lt (cp / 64) 64). lia.
    - pose proof (N.mod_lt cp 64). lia. }
  repeat constructor.
  - pose proof (N.Div0.div_lt_upper_bound cp 262144 8). lia.
  - pose proof (N.mod_lt (cp / 4096) 64). lia.
  - pose proof (N.mod_lt (cp / 64) 64). lia.
  - pose proof (N.mod_lt cp 64). lia.
Qed.

Lemma escape_plain cp : (cp < 1114112)%N → Forall plain (escape cp).
Proof.
  intros H. unfold escape. apply Forall_bind.
  eapply Forall_impl; [by apply utf8_octets|]. intros o Ho. by apply percent_plain.
Qed.

Lemma between_spec lo hi c : between lo hi c = true ↔ (lo ≤ c ∧ c ≤ hi)%N.
Proof. unfold between. rewrite andb_true_iff, !N.leb_le. done. Qed.

(** The output of [encodeURIComponent] holds nothing but unreserved
    characters and "%", by induction on the length of the input. *)
Lemma encodeURIComponent_plain s q :
  Forall (λ c, (c < 65536)%N) s →
  encodeURIComponent s = Some q → Forall plain q.
Proof.
  remember (length s) as n eqn:Hn. revert s q Hn.
  induction n as [n IH] using lt_wf_ind. intros s q Hn Hs.
  destruct s as [|c s]; cbn [encodeURIComponent].
  { intros [= <-]. constructor. }
  apply Forall_cons in Hs as [Hc Hs]. cbn in Hn.
  destruct (unreserved c) eqn:Eu.
  { destruct (encodeURIComponent s) as [q'|] eqn:E; [|done]. intros [= <-].
    constructor; [by left|]. apply (IH (length s) ltac:(lia) s q' eq_refl Hs E). }
  destruct (trailing c) eqn:Et; [done|].
  destruct (leading c) eqn:El.
  - destruct s as [|d s]; [done|]. destruct (trailing d) eqn:Ed; [|done].
    apply Forall_cons in Hs as [Hd Hs]. cbn in Hn.
    destruct (encodeURIComponent s) as [q'|] eqn:E; [|done]. intros [= <-].
    apply Forall_app. split.
    + apply escape_plain. apply between_spec in El, Ed. lia.
    + apply (IH (length s) ltac:(lia) s q' eq_refl Hs E).
  - destruct (encodeURIComponent s) as [q'|] eqn:E; [|done]. intros [= <-].
    apply Forall_app. split.
    + apply escape_plain. lia.
    + apply (IH (length s) ltac:(lia) s q' eq_refl Hs E).
Qed.

(** A string without surrogates is always encoded. *)
Lemma encodeURIComponent_total s :
  Forall (λ c, leading c = false ∧ trailing c = false) s →
  is_Some (encodeURIComponent s).
Proof.
  induction 1 as [|c s [Hl Ht] Hs [q Hq]]; cbn [encodeURIComponent]; [by eexists|].
  rewrite Ht, Hl, Hq. destruct (unreserved c); by eexists.
Qed.

(** Unreserved characters are sent as they are. *)
Lemma encodeURIComponent_unreserved s :
  Forall (λ c, unreserved c = true) s → encodeURIComponent s = Some s.
Proof.
  induction 1 as [|c s Hc Hs IH]; cbn [encodeURIComponent]; [done|].
  by rewrite Hc, IH.
Qed.

End uri.

Section stream_search.
Import URI StreamSearch.

Lemma plain_not c q : Forall plain q → unreserved c = false → c ≠ 37%N → c ∉ q.
Proof.
  intros Hq Hu Hp Hin. rewrite List.Forall_forall in Hq.
  apply list_elem_of_In in Hin. destruct (Hq c Hin) as [H|H]; congruence.
Qed.

(** X18: the request of a search.  Typing into #search or
    #completed_search sends one GET to
    /search_notes?q=<query>&completed=<false|true>, the flag according
    to the input typed into.  The query is percent-encoded: what stands
    between "q=" and "&completed=" holds nothing but unreserved
    characters and "%", so no "&", "=", "#", "?" or "+" of the user's
    text reaches the URL as such.  A query with an unpaired surrogate
    sends nothing; a query without surrogates is always sent, and one
    of unreserved characters only is sent as it is. *)
Theorem search_request (i : Input) (value old : jsstring) (p : Page) :
  element i p = Some old →
  Forall (λ c, (c < 65536)%N) value →
  let p' := oninput i value p in
  (element i p' = Some value ∧ notesContainer p' = notesContainer p)
  ∧ match encodeURIComponent value with
    | Some q =>
        requests p' =
          requests p ++ [lit "/search_notes?q=" ++ q ++ lit "&completed=" ++ completed i]
        ∧ Forall plain q
        ∧ Forall (λ c, c ∉ q) [38; 61; 35; 63; 43]%N
    | None => requests p' = requests p
    end
  ∧ (Forall (λ c, leading c = false ∧ trailing c = false) value →
     is_Some (encodeURIComponent value))
  ∧ (Forall (λ c, unreserved c = true) value → encodeURIComponent value = Some value).
Proof.
  intros Hel Hvalue p'. subst p'. unfold oninput. rewrite Hel.
  split; [|split; [|split]].
  - destruct (encodeURIComponent value); destruct i; done.
  - destruct (encodeURIComponent value) as [q|] eqn:E; [|by destruct i].
    pose proof (encodeURIComponent_plain _ _ Hvalue E) as Hq.
    split; [by destruct i|]. split; [exact Hq|].
    repeat constructor; by apply (plain_not _ _ Hq).
  - apply encodeURIComponent_total.
  - apply encodeURIComponent_unreserved.
Qed.

Lemma search_request_witness :
  let p := {| search := Some []; completed_search := None; notesContainer := Some [];
              requests := []; pending := ∅; console := [] |} in
  Forall (λ c, c ∉ lit "milk%20%26%20eggs") [38; 61; 35; 63; 43]%N.
Proof.
  intros p.
  assert (Hq : encodeURIComponent (lit "milk & eggs") = Some (lit "milk%20%26%20eggs"))
    by (vm_compute; reflexivity).
  assert (Hv : Forall (λ c, (c < 65536)%N) (lit "milk & eggs")).
  { apply (bool_decide_unpack _). vm_compute. exact I. }
  destruct (search_request Search (lit "milk & eggs") [] p eq_refl Hv) as (_ & H & _).
  rewrite Hq in H. exact (proj2 (proj2 H)).
Defined.

Lemma settle_pending req r old p :
  req ∈ pending p →
  notesContainer p = Some old →
  settle req r p =
  {| search := search p; completed_search := completed_search p;
     notesContainer :=
       Some (match r with Resolved true html => html | _ => old end);
     requests := requests p;
     pending := pending p ∖ {[ req ]};
     console :=
       console p ++ match r with Resolved true _ => [] | _ => [lit "Search error:"] end |}.
Proof.
  intros Hreq Hold. unfold settle. rewrite bool_decide_eq_true_2 by done.
  cbn [notesContainer]. rewrite Hold.
  destruct r as [|[] html]; unfold console_error; cbn; rewrite ?app_nil_r, ?Hold; done.
Qed.

Lemma settle_not_pending req r p : req ∉ pending p → settle req r p = p.
Proof. intros H. unfold settle. rewrite bool_decide_eq_false_2; done. Qed.

(** X19: the answer to a search.  An ok response puts its text into
    #notes-container and logs nothing; a response that is not ok, or a
    failed request, leaves the container as it was and logs "Search
    error:".  Each answer is handled once.  Nothing orders the
    answers: of two searches under way the one answered last fills the
    container, whichever was typed last. *)
Theorem search_result
    (req other : nat) (r : Response) (first last old : jsstring) (p : Page) :
  req ∈ pending p →
  notesContainer p = Some old →
  let p' := settle req r p in
  match r with
  | Resolved true html => notesContainer p' = Some html ∧ console p' = console p
  | _ => notesContainer p' = Some old
         ∧ console p' = console p ++ [lit "Search error:"]
  end
  ∧ requests p' = requests p
  ∧ settle req r p' = p'
  ∧ (other ∈ pending p → other ≠ req →
     notesContainer (settle req (Resolved true last)
                       (settle other (Resolved true first) p)) = Some last).
Proof.
  intros Hreq Hold p'. subst p'.
  rewrite (settle_pending _ r _ _ Hreq Hold).
  split; [|split; [|split]].
  - destruct r as [|[] html]; cbn; rewrite ?app_nil_r; done.
  - reflexivity.
  - apply settle_not_pending. cbn [pending].
    rewrite elem_of_difference, elem_of_singleton. intros [_ H]. by apply H.
  - intros Hother Hne.
    rewrite (settle_pending _ (Resolved true first) _ _ Hother Hold).
    rewrite (settle_pending req (Resolved true last) first); [done| |done].
    cbn [pending]. set_solver.
Qed.

Lemma search_result_witness :
  let p := {| search := Some (lit "b"); completed_search := None;
              notesContainer := Some [];
              requests := [lit "/search_notes?q=a&completed=false";
                           lit "/search_notes?q=b&completed=false"];
              pending := {[ 0; 1 ]}; console := [] |} in
  notesContainer (settle 0 (Resolved true (lit "<li>a</li>"))
                    (settle 1 (Resolved true (lit "<li>b</li>")) p))
    = Some (lit "<li>a</li>").
Proof.
  intros p.
  refine (proj2 (proj2 (proj2
    (search_result 0 1 Rejected (lit "<li>b</li>") (lit "<li>a</li>") [] p _ _))) _ _).
  - apply (bool_decide_unpack _). vm_compute. exact I.
  - reflexivity.
  - apply (bool_decide_unpack _). vm_compute. exact I.
  - discriminate.
Defined.

End stream_search.

Section view_search.
Import URI NoteToggle ViewSearch.

Lemma view_click p : view (click p) = (switchView (view p)).1.
Proof. reflexivity. Qed.

Lemma clicks_view n p : view (ViewSearch.clicks n p) = NoteToggle.clicks n (view p).
Proof.
  induction n as [|n IH]; [done|].
  change (ViewSearch.clicks (S n) p) with (click (ViewSearch.clicks n p)).
  rewrite view_click, IH. reflexivity.
Qed.

Lemma clicks_frame n p :
  active_html (ViewSearch.clicks n p) = active_html p
  ∧ completed_html (ViewSearch.clicks n p) = completed_html p
  ∧ requests (ViewSearch.clicks n p) = requests p
  ∧ pending (ViewSearch.clicks n p) = pending p.
Proof.
  induction n as [|n IH]; [done|].
  change (ViewSearch.clicks (S n) p) with (click (ViewSearch.clicks n p)).
  exact IH.
Qed.

(** X20: the search follows the view.  Once the toggle button has been
    clicked, a search typed into #search asks for the notes of the view
    on display (completed=true exactly when the completed notes are
    shown), and its answer is put into the container of that view,
    the other container staying as it is.  The container is chosen when
    the user types: an answer that arrives after a further click still
    goes to the view the search was typed in. *)
Theorem search_follows_view
    (n : nat) (value q html s : jsstring) (p : Page) :
  search_value (view p) = Some s →
  encodeURIComponent value = Some q →
  let clicked := ViewSearch.clicks (S n) p in
  let shown := showingCompleted (view clicked) in
  let typed := oninput value clicked in
  let answer := Resolved true html in
  let here (p' : Page) :=
    if shown then completed_html p' = html ∧ active_html p' = active_html p
    else active_html p' = html ∧ completed_html p' = completed_html p in
  completed_display (view clicked) = (if shown then lit "block" else lit "none")
  ∧ requests typed =
      requests p ++ [lit "/search_notes?q=" ++ q ++ lit "&completed=" ++ boolean shown]
  ∧ here (settle (length (requests p)) answer typed)
  ∧ here (settle (length (requests p)) answer (click typed)).
Proof.
  intros Hs Hq clicked shown typed answer here. subst here answer typed shown.
  destruct (clicks_frame (S n) p) as (Ha & Hc & Hr & Hp).
  destruct (clicks_invariant n (view p) s Hs) as ([s' Hs'] & _ & _).
  pose proof (switchView_step (NoteToggle.clicks n (view p)) s' Hs') as Hstep.
  cbv zeta in Hstep. rewrite <- clicks_S, <- clicks_view in Hstep.
  fold clicked in Ha, Hc, Hr, Hp, Hstep. destruct Hstep as (_ & _ & Hd & _ & Hsv & _).
  split; [exact Hd|].
  unfold oninput. rewrite Hsv. cbn [view set_view type completed_display]. rewrite Hd, Hq.
  assert (Hflag : negb (bool_decide
            ((if showingCompleted (view clicked) then lit "block" else lit "none")
             = lit "none")) = showingCompleted (view clicked)).
  { by destruct (showingCompleted (view clicked)). }
  rewrite Hflag. cbn [requests set_view]. rewrite Hr.
  split; [reflexivity|].
  unfold settle, click. cbn [pending set_view requests]. rewrite !lookup_insert_eq.
  cbn [active_html completed_html set_view]. rewrite Ha, Hc.
  by destruct (showingCompleted (view clicked)).
Qed.

Lemma search_follows_view_witness :
  let v := {| active_display := []; completed_display := lit "none";
              label := lit "View completed"; search_value := Some [];
              viewActiveText := JStr (lit "View active");
              viewCompletedText := JStr (lit "View completed");
              showingCompleted := false |} in
  let p := {| view := v; active_html := lit "<li>a</li>"; completed_html := [];
              requests := []; pending := ∅; console := [] |} in
  requests (oninput (lit "tax") (ViewSearch.clicks 1 p)) =
    [lit "/search_notes?q=tax&completed=true"].
Proof.
  intros v p.
  assert (Hq : encodeURIComponent (lit "tax") = Some (lit "tax"))
    by (vm_compute; reflexivity).
  exact (proj1 (proj2
    (search_follows_view 0 (lit "tax") (lit "tax") [] [] p eq_refl Hq))).
Defined.

End view_search.

(** ** Language *)

Section language.
Import Language.

Lemma get_own T lang t : T !! lang = Some t → get T lang = Own t.
Proof. unfold get. by intros ->. Qed.

Lemma applyClientLanguage_own lang t p :
  CLIENT_T p !! lang = Some t →
  applyClientLanguage lang p =
  (set_texts ((λ _, set_textContent (switch_theme t)) <$> themeBtn p)
             ((λ _, to_string (search_notes t)) <$> searchInput p)
             ((λ _, set_textContent (remind_at t)) <$> reminderLabel p)
             (set_storage (setItem (lit "lang") lang (localStorage p)) p),
   Returns).
Proof.
  intros H. unfold applyClientLanguage. rewrite (get_own _ _ _ H).
  cbn [CLIENT_T set_storage]. by rewrite (get_own _ _ _ H).
Qed.

Lemma applyClientLanguage_missing lang p :
  get (CLIENT_T p) lang = Missing →
  applyClientLanguage lang p = applyClientLanguage (lit "pt") p.
Proof.
  intros H. unfold applyClientLanguage. rewrite H.
  destruct (get (CLIENT_T p) (lit "pt")) eqn:E; cbn [CLIENT_T set_storage]; by rewrite ?E.
Qed.

Lemma get_none T lang :
  T !! lang = None → lang ∉ MultiTheme.object_prototype → get T lang = Missing.
Proof.
  intros H Hout. unfold get. rewrite H. by rewrite bool_decide_eq_false_2.
Qed.

Lemma pt_not_inherited : lit "pt" ∉ MultiTheme.object_prototype.
Proof. apply (bool_decide_unpack _). vm_compute. exact I. Qed.

Lemma applyClientLanguage_fallback lang pt p :
  get (CLIENT_T p) lang = Missing →
  CLIENT_T p !! lit "pt" = Some pt →
  applyClientLanguage lang p =
  (set_texts ((λ _, set_textContent (switch_theme pt)) <$> themeBtn p)
             ((λ _, to_string (search_notes pt)) <$> searchInput p)
             ((λ _, set_textContent (remind_at pt)) <$> reminderLabel p)
             (set_storage (setItem (lit "lang") (lit "pt") (localStorage p)) p),
   Returns).
Proof.
  intros Hmiss Hpt.
  by rewrite (applyClientLanguage_missing _ _ Hmiss), (applyClientLanguage_own _ pt).
Qed.

Lemma applyClientLanguage_stuck lang p :
  get (CLIENT_T p) lang = Missing →
  CLIENT_T p !! lit "pt" = None →
  applyClientLanguage lang p =
  let p' := set_storage (setItem (lit "lang") (lit "pt") (localStorage p)) p in
  match themeBtn p, searchInput p, reminderLabel p with
  | None, None, None => (p', Returns)
  | _, _, _ => (p', Throws)
  end.
Proof.
  intros Hmiss Hpt. unfold applyClientLanguage. rewrite Hmiss.
  cbn [CLIENT_T set_storage themeBtn searchInput reminderLabel].
  by rewrite (get_none _ _ Hpt pt_not_inherited).
Qed.

(** What [localStorage.getItem("lang") || placeholder] is when the
    storage has no language the translations know. *)
Lemma stored_missing T ls :
  (∀ s, ls !! lit "lang" = Some s → s = [] ∨ get T s = Missing) →
  get T placeholder = Missing →
  get T (or_else (getItem (lit "lang") ls) placeholder) = Missing.
Proof.
  intros Hls Hph. unfold getItem.
  destruct (ls !! lit "lang") as [s|] eqn:E; [|exact Hph].
  destruct (Hls s eq_refl) as [-> | Hs]; [exact Hph|].
  destruct s; [exact Hph | exact Hs].
Qed.

(** The request of [loadTranslations] is the one pending at the end of
    the log. *)
Lemma initLanguage_settle r p :
  settle (length (requests p)) r (initLanguage p) =
  initLanguage_then r (settled (length (requests p)) (initLanguage p)).
Proof.
  unfold settle, initLanguage. cbn [pending fetch set_translations requests].
  by rewrite lookup_insert_eq.
Qed.

Lemma initLanguage_failed r p :
  (∀ T, r ≠ Resolved true (Some T)) →
  settle (length (requests p)) r (initLanguage p) =
  log (lit "Failed to load translations.json")
    (settled (length (requests p)) (initLanguage p)).
Proof.
  intros Hr. rewrite initLanguage_settle. unfold initLanguage_then, initLanguage_rest.
  destruct r as [|[] [T|]]; try reflexivity. by destruct (Hr T).
Qed.

Lemma onchange_settle r p q :
  pending q = <[length (requests p) := AwaitLanguageSet]> (pending p) →
  settle (length (requests p)) r q =
  match r with
  | Resolved true _ => location_reload (settled (length (requests p)) q)
  | _ => log (lit "Language change failed") (settled (length (requests p)) q)
  end.
Proof. intros Hq. unfold settle. by rewrite Hq, lookup_insert_eq. Qed.

(** A load with the translations at hand and a stored language they
    have. *)
Lemma initLanguage_stored lang t T p :
  localStorage p !! lit "lang" = Some lang → lang ≠ [] →
  T !! lang = Some t →
  let loaded := settle (length (requests p)) (Resolved true (Some T)) (initLanguage p) in
  localStorage loaded !! lit "lang" = Some lang
  ∧ translated t p loaded
  ∧ (is_Some (langSelect p) → listening loaded = true)
  ∧ reloaded loaded = reloaded p.
Proof.
  intros Hstored Hne Ht loaded. subst loaded.
  rewrite initLanguage_settle. unfold initLanguage_then, initLanguage_rest.
  set (p1 := log _ _).
  assert (Hget : getItem (lit "lang") (localStorage p1) = JStr lang).
  { unfold getItem.
    change (localStorage p1) with (localStorage p). by rewrite Hstored. }
  rewrite Hget, (or_else_nonempty _ _ Hne).
  rewrite (applyClientLanguage_own lang t p1) by done.
  set (p2 := set_texts _ _ _ _).
  assert (H2 : localStorage p2 !! lit "lang" = Some lang) by apply lookup_insert_eq.
  assert (Htr : translated t p p2) by done.
  destruct (langSelect p2) as [s|] eqn:Hs.
  - split; [exact H2|]. split; [exact Htr|]. done.
  - split; [exact H2|]. split; [exact Htr|]. split; [|done].
    intros [s Hs']. subst p2 p1. cbn in Hs. congruence.
Qed.

(** X21: the language is persisted.  Choosing in #lang-switch a
    language the translations have stores it under "lang", puts its
    texts on the theme button, the search placeholder and the reminder
    label, and tells the server in one POST to /set_language.  The next
    load, once it has the translations, reads the stored language back
    and applies it: the same language is stored, its texts are on the
    elements of the page, and the selector listens again. *)
Theorem language_persisted
    (newLang : jsstring) (t t' : Translation) (T : gmap (list N) Translation)
    (p served : Page) :
  listening p = true →
  newLang ≠ [] →
  CLIENT_T p !! newLang = Some t →
  T !! newLang = Some t' →
  let changed := onchange newLang p in
  let loaded :=
    settle (length (requests served)) (Resolved true (Some T))
      (initLanguage (reload served changed)) in
  (localStorage changed !! lit "lang" = Some newLang
   ∧ translated t p changed
   ∧ requests changed =
       requests p ++ [{| url := lit "/set_language"; body_lang := Some newLang |}])
  ∧ (localStorage loaded !! lit "lang" = Some newLang
     ∧ translated t' served loaded
     ∧ (is_Some (langSelect served) → listening loaded = true)).
Proof.
  intros Hon Hne Ht Ht' changed loaded.
  assert (Hchanged : localStorage changed !! lit "lang" = Some newLang
                     ∧ translated t p changed
                     ∧ requests changed =
                         requests p ++ [{| url := lit "/set_language";
                                          body_lang := Some newLang |}]).
  { subst changed. unfold onchange. rewrite Hon.
    rewrite (applyClientLanguage_own newLang t) by done.
    split; [apply lookup_insert_eq|]. done. }
  split; [exact Hchanged|]. destruct Hchanged as (Hstored & _ & _).
  destruct (initLanguage_stored newLang t' T (reload served changed))
    as (H1 & H2 & H3 & _); [exact Hstored | exact Hne | exact Ht' |].
  change (length (requests (reload served changed))) with (length (requests served)) in H1, H2, H3.
  split; [exact H1|]. split; [exact H2|]. exact H3.
Qed.

Lemma language_persisted_witness :
  let en := {| switch_theme := JStr (lit "Switch theme");
               search_notes := JStr (lit "Search notes");
               remind_at := JStr (lit "Remind at") |} in
  let T : gmap (list N) Translation := {[ lit "en" := en ]} in
  let served := {| themeBtn := Some (lit "Mudar tema"); searchInput := Some [];
                   reminderLabel := None;
                   langSelect := Some {| options := [lit "pt"; lit "en"]; value := lit "pt" |};
                   localStorage := ∅; CLIENT_T := ∅; listening := false;
                   requests := []; pending := ∅; console := []; reloaded := false |} in
  let p := set_select (langSelect served) true (set_translations T served) in
  themeBtn (settle 0 (Resolved true (Some T))
              (initLanguage (reload served (onchange (lit "en") p))))
  = Some (lit "Switch theme").
Proof.
  intros en T served p.
  assert (Hen : T !! lit "en" = Some en) by (vm_compute; reflexivity).
  assert (Hne : lit "en" ≠ []) by discriminate.
  exact (proj1 (proj1 (proj2 (proj2
    (language_persisted (lit "en") en en T p served eq_refl Hne Hen Hen))))).
Defined.

(** X22: Portuguese is the fallback.  When the translations arrive and
    the storage holds no language, an empty one, or one the translations
    do not have, and the fallback text of the script is no language
    either, the page is put in "pt": "pt" is stored under "lang", the
    texts of "pt" are on the elements, and a selector without a value is
    set to "pt" (to no option when it has no "pt" option). *)
Theorem language_default
    (T : gmap (list N) Translation) (pt : Translation) (p : Page) :
  T !! lit "pt" = Some pt →
  (∀ s, localStorage p !! lit "lang" = Some s → s = [] ∨ get T s = Missing) →
  get T placeholder = Missing →
  let loaded :=
    settle (length (requests p)) (Resolved true (Some T)) (initLanguage p) in
  localStorage loaded !! lit "lang" = Some (lit "pt")
  ∧ translated pt p loaded
  ∧ listening loaded = (if bool_decide (langSelect p = None) then listening p else true)
  ∧ ∀ s, langSelect p = Some s →
      langSelect loaded =
        Some (if bool_decide (value s = []) then set_value (lit "pt") s else s).
Proof.
  intros Hpt Hls Hph loaded. subst loaded.
  rewrite initLanguage_settle. unfold initLanguage_then, initLanguage_rest.
  set (p1 := log _ _).
  assert (Hmiss : get (CLIENT_T p1)
            (or_else (getItem (lit "lang") (localStorage p1)) placeholder) = Missing)
    by exact (stored_missing T (localStorage p) Hls Hph).
  rewrite (applyClientLanguage_fallback _ pt p1 Hmiss Hpt).
  set (p2 := set_texts _ _ _ _).
  assert (H2 : localStorage p2 !! lit "lang" = Some (lit "pt")) by apply lookup_insert_eq.
  assert (Hget : or_else (getItem (lit "lang") (localStorage p2))
                   (or_else (getItem (lit "lang") (localStorage p1)) placeholder)
                 = lit "pt").
  { unfold getItem. rewrite H2. reflexivity. }
  rewrite Hget.
  change (langSelect p2) with (langSelect p).
  destruct (langSelect p) as [s|].
  - split; [exact H2|]. split; [done|]. split; [done|].
    intros s' [= <-]. cbn [langSelect set_select]. by destruct (bool_decide (value s = [])).
  - split; [exact H2|]. split; [done|]. split; [done|]. intros s' [=].
Qed.

Lemma language_default_witness :
  let pt := {| switch_theme := JStr (lit "Mudar tema");
               search_notes := JStr (lit "Pesquisar notas");
               remind_at := JUndefined |} in
  let T : gmap (list N) Translation := {[ lit "pt" := pt ]} in
  let p := {| themeBtn := Some (lit "Switch theme"); searchInput := Some [];
              reminderLabel := Some (lit "Remind at");
              langSelect := Some {| options := [lit "pt"; lit "en"]; value := [] |};
              localStorage := {[ lit "lang" := lit "en" ]}; CLIENT_T := ∅;
              listening := false;
              requests := []; pending := ∅; console := []; reloaded := false |} in
  let loaded := settle 0 (Resolved true (Some T)) (initLanguage p) in
  themeBtn loaded = Some (lit "Mudar tema")
  ∧ searchInput loaded = Some (lit "Pesquisar notas")
  ∧ reminderLabel loaded = Some [].
Proof.
  intros pt T p loaded.
  assert (Hpt : T !! lit "pt" = Some pt) by (vm_compute; reflexivity).
  assert (Hph : get T placeholder = Missing) by (vm_compute; reflexivity).
  assert (Hen : get T (lit "en") = Missing) by (vm_compute; reflexivity).
  assert (Hls : ∀ s, localStorage p !! lit "lang" = Some s → s = [] ∨ get T s = Missing).
  { intros s Hs.
    assert (Hl : localStorage p !! lit "lang" = Some (lit "en")) by (vm_compute; reflexivity).
    rewrite Hl in Hs. injection Hs as <-. right. exact Hen. }
  exact (proj1 (proj2 (language_default T pt p Hpt Hls Hph))).
Defined.

(** X23: the page without Portuguese.  When neither the wanted
    language nor "pt" is in the translations, "pt" is stored all the
    same and no text changes; with one of the three elements on the page
    the script stops there, so that the selector is not preset and gets
    no listener. *)
Theorem language_without_pt (T : gmap (list N) Translation) (p : Page) :
  T !! lit "pt" = None →
  (∀ s, localStorage p !! lit "lang" = Some s → s = [] ∨ get T s = Missing) →
  get T placeholder = Missing →
  let loaded :=
    settle (length (requests p)) (Resolved true (Some T)) (initLanguage p) in
  localStorage loaded !! lit "lang" = Some (lit "pt")
  ∧ themeBtn loaded = themeBtn p
  ∧ searchInput loaded = searchInput p
  ∧ reminderLabel loaded = reminderLabel p
  ∧ (is_Some (themeBtn p) ∨ is_Some (searchInput p) ∨ is_Some (reminderLabel p) →
     langSelect loaded = langSelect p ∧ listening loaded = listening p).
Proof.
  intros Hpt Hls Hph loaded. subst loaded.
  rewrite initLanguage_settle. unfold initLanguage_then, initLanguage_rest.
  set (p1 := log _ _).
  assert (Hmiss : get (CLIENT_T p1)
            (or_else (getItem (lit "lang") (localStorage p1)) placeholder) = Missing)
    by exact (stored_missing T (localStorage p) Hls Hph).
  rewrite (applyClientLanguage_stuck _ p1 Hmiss Hpt).
  cbv zeta. set (p2 := set_storage _ _).
  assert (H2 : localStorage p2 !! lit "lang" = Some (lit "pt")) by apply lookup_insert_eq.
  change (themeBtn p1) with (themeBtn p). change (searchInput p1) with (searchInput p).
  change (reminderLabel p1) with (reminderLabel p).
  destruct (themeBtn p) as [b|] eqn:Eb; [|destruct (searchInput p) as [i|] eqn:Ei;
    [|destruct (reminderLabel p) as [l|] eqn:El]].
  1-3: by (split; [exact H2|]; repeat (split; [done|])).
  change (langSelect p2) with (langSelect p).
  destruct (langSelect p) as [s|].
  - split; [exact H2|]. repeat (split; [done|]).
    intros [[? [=]] | [[? [=]] | [? [=]]]].
  - split; [exact H2|]. repeat (split; [done|]).
    intros [[? [=]] | [[? [=]] | [? [=]]]].
Qed.

Lemma language_without_pt_witness :
  let en := {| switch_theme := JStr (lit "Switch theme");
               search_notes := JStr (lit "Search notes");
               remind_at := JStr (lit "Remind at") |} in
  let T : gmap (list N) Translation := {[ lit "en" := en ]} in
  let sel := {| options := [lit "en"]; value := [] |} in
  let p := {| themeBtn := Some (lit "Mudar tema"); searchInput := None;
              reminderLabel := None; langSelect := Some sel;
              localStorage := ∅; CLIENT_T := ∅; listening := false;
              requests := []; pending := ∅; console := []; reloaded := false |} in
  let loaded := settle 0 (Resolved true (Some T)) (initLanguage p) in
  langSelect loaded = Some sel ∧ listening loaded = false.
Proof.
  intros en T sel p loaded.
  assert (Hpt : T !! lit "pt" = None) by (vm_compute; reflexivity).
  assert (Hph : get T placeholder = Missing) by (vm_compute; reflexivity).
  assert (Hls : ∀ s, localStorage p !! lit "lang" = Some s → s = [] ∨ get T s = Missing).
  { intros s Hs. exfalso. revert Hs. by change (localStorage p) with (∅ : gmap (list N) (list N)). }
  assert (Hb : is_Some (themeBtn p) ∨ is_Some (searchInput p) ∨ is_Some (reminderLabel p)).
  { left. by eexists. }
  exact (proj2 (proj2 (proj2 (proj2 (language_without_pt T p Hpt Hls Hph)))) Hb).
Defined.

(** X24: how a change of language ends.  With the listener installed
    and a language the translations have, the choice is applied and
    stored before the server answers; the page is reloaded exactly when
    the server answers ok, and in every other case "Language change
    failed" is logged and the page stays, the new language still stored
    and shown. *)
Theorem language_change_outcome
    (newLang : jsstring) (t : Translation) (r : Response) (p : Page) :
  listening p = true →
  CLIENT_T p !! newLang = Some t →
  reloaded p = false →
  let changed := onchange newLang p in
  let answered := settle (length (requests p)) r changed in
  reloaded changed = false
  ∧ localStorage answered !! lit "lang" = Some newLang
  ∧ translated t p answered
  ∧ requests answered = requests changed
  ∧ match r with
    | Resolved true _ => reloaded answered = true ∧ console answered = console p
    | _ => reloaded answered = false
           ∧ console answered = console p ++ [lit "Language change failed"]
    end.
Proof.
  intros Hon Ht Hre changed answered. subst answered changed.
  unfold onchange. rewrite Hon.
  rewrite (applyClientLanguage_own newLang t) by done.
  set (q := fetch _ _ _).
  rewrite (onchange_settle r p q) by reflexivity.
  assert (Hst : localStorage q !! lit "lang" = Some newLang) by apply lookup_insert_eq.
  split; [exact Hre|].
  destruct r as [|[] j]; (split; [exact Hst|]); (split; [done|]); (split; [done|]); done.
Qed.

Lemma language_change_outcome_witness :
  let en := {| switch_theme := JStr (lit "Switch theme");
               search_notes := JStr (lit "Search notes");
               remind_at := JStr (lit "Remind at") |} in
  let T : gmap (list N) Translation := {[ lit "en" := en ]} in
  let p := {| themeBtn := Some (lit "Mudar tema"); searchInput := None;
              reminderLabel := None;
              langSelect := Some {| options := [lit "pt"; lit "en"]; value := lit "pt" |};
              localStorage := {[ lit "lang" := lit "pt" ]}; CLIENT_T := T;
              listening := true;
              requests := [{| url := lit "/static/translations.json"; body_lang := None |}];
              pending := ∅; console := [lit "Loaded translations:"];
              reloaded := false |} in
  let answered := settle 1 (Resolved false None) (onchange (lit "en") p) in
  reloaded answered = false
  ∧ console answered = [lit "Loaded translations:"; lit "Language change failed"].
Proof.
  intros en T p answered.
  assert (Hen : CLIENT_T p !! lit "en" = Some en) by (vm_compute; reflexivity).
  exact (proj2 (proj2 (proj2 (proj2
    (language_change_outcome (lit "en") en (Resolved false None) p eq_refl Hen eq_refl))))).
Defined.

(** X25: a selection the translations do not have.  The page falls
    back to "pt", stored and shown, while the server is told the
    selection as it was made: after the change the two disagree. *)
Theorem language_change_unknown (newLang : jsstring) (pt : Translation) (p : Page) :
  listening p = true →
  get (CLIENT_T p) newLang = Missing →
  CLIENT_T p !! lit "pt" = Some pt →
  let changed := onchange newLang p in
  localStorage changed !! lit "lang" = Some (lit "pt")
  ∧ translated pt p changed
  ∧ requests changed =
      requests p ++ [{| url := lit "/set_language"; body_lang := Some newLang |}]
  ∧ (value <$> langSelect changed) = ((λ _, newLang) <$> langSelect p).
Proof.
  intros Hon Hmiss Hpt changed. subst changed.
  unfold onchange. rewrite Hon.
  rewrite (applyClientLanguage_fallback newLang pt) by done.
  split; [apply lookup_insert_eq|]. split; [done|]. split; [done|].
  cbn [langSelect fetch set_texts set_storage set_select]. by destruct (langSelect p).
Qed.

Lemma language_change_unknown_witness :
  let pt := {| switch_theme := JStr (lit "Mudar tema");
               search_notes := JStr (lit "Pesquisar notas");
               remind_at := JStr (lit "Lembrar em") |} in
  let T : gmap (list N) Translation := {[ lit "pt" := pt ]} in
  let p := {| themeBtn := Some (lit "Mudar tema"); searchInput := None;
              reminderLabel := None;
              langSelect := Some {| options := [lit "pt"; lit "de"]; value := lit "pt" |};
              localStorage := {[ lit "lang" := lit "pt" ]}; CLIENT_T := T;
              listening := true;
              requests := []; pending := ∅; console := []; reloaded := false |} in
  let changed := onchange (lit "de") p in
  localStorage changed !! lit "lang" = Some (lit "pt")
  ∧ requests changed = [{| url := lit "/set_language"; body_lang := Some (lit "de") |}].
Proof.
  intros pt T p changed.
  assert (Hpt : CLIENT_T p !! lit "pt" = Some pt) by (vm_compute; reflexivity).
  assert (Hde : get (CLIENT_T p) (lit "de") = Missing) by (vm_compute; reflexivity).
  destruct (language_change_unknown (lit "de") pt p eq_refl Hde Hpt) as (H1 & _ & H2 & _).
  split; [exact H1 | exact H2].
Defined.

(** X26: without translations nothing is translated.  When
    translations.json cannot be fetched, is answered with an error
    status or is not JSON, the load logs "Failed to load
    translations.json" and leaves texts, storage and selector as they
    were; no listener is installed, so a later choice in the selector
    changes nothing and sends nothing. *)
Theorem translations_failed (r : Response) (newLang : jsstring) (p : Page) :
  (∀ T, r ≠ Resolved true (Some T)) →
  listening p = false →
  let loaded := settle (length (requests p)) r (initLanguage p) in
  themeBtn loaded = themeBtn p
  ∧ searchInput loaded = searchInput p
  ∧ reminderLabel loaded = reminderLabel p
  ∧ localStorage loaded = localStorage p
  ∧ langSelect loaded = langSelect p
  ∧ console loaded = console p ++ [lit "Failed to load translations.json"]
  ∧ onchange newLang loaded = loaded.
Proof.
  intros Hr Hoff loaded. subst loaded. rewrite (initLanguage_failed r p Hr).
  repeat (split; [reflexivity|]).
  unfold onchange. cbn [listening log settled initLanguage fetch set_translations].
  by rewrite Hoff.
Qed.

Lemma translations_failed_witness :
  let p := {| themeBtn := Some (lit "Mudar tema"); searchInput := None;
              reminderLabel := None;
              langSelect := Some {| options := [lit "pt"; lit "en"]; value := lit "pt" |};
              localStorage := {[ lit "lang" := lit "en" ]}; CLIENT_T := ∅;
              listening := false;
              requests := []; pending := ∅; console := []; reloaded := false |} in
  let loaded := settle 0 (Resolved false None) (initLanguage p) in
  themeBtn loaded = Some (lit "Mudar tema")
  ∧ onchange (lit "en") loaded = loaded.
Proof.
  intros p loaded.
  assert (Hr : ∀ T, Resolved false None ≠ Resolved true (Some T)) by (intros T; discriminate).
  destruct (translations_failed (Resolved false None) (lit "en") p Hr eq_refl)
    as (H1 & _ & _ & _ & _ & _ & H2).
  split; [exact H1 | exact H2].
Defined.

End language.

(** ** The order of the page load *)

Section page_load.
Import Language UploadEvents PageLoad.

Lemma applyClientLanguage_returns lang pt p :
  CLIENT_T p !! lit "pt" = Some pt → (applyClientLanguage lang p).2 = Returns.
Proof.
  intros Hpt. destruct (get (CLIENT_T p) lang) as [t| |] eqn:E.
  - unfold get in E. destruct (CLIENT_T p !! lang) as [t'|] eqn:E'.
    + by rewrite (applyClientLanguage_own lang t').
    + by destruct (bool_decide _).
  - unfold applyClientLanguage. rewrite E. cbn [CLIENT_T set_storage]. by rewrite E.
  - by rewrite (applyClientLanguage_fallback lang pt).
Qed.

Lemma initLanguage_rest_returns r p :
  (∀ T, r = Resolved true (Some T) → is_Some (T !! lit "pt")) →
  (initLanguage_rest r p).2 = Returns.
Proof.
  intros Hr. unfold initLanguage_rest.
  destruct r as [|[] [T|]]; try reflexivity.
  destruct (Hr T eq_refl) as [pt Hpt].
  set (p1 := log _ _). set (stored := or_else _ _).
  pose proof (applyClientLanguage_returns stored pt p1 Hpt) as H.
  destruct (applyClientLanguage stored p1) as [p2 c]. cbn [snd] in H. subst c.
  by destruct (langSelect p2).
Qed.

Lemma initLanguage_rest_throws T p :
  T !! lit "pt" = None →
  (∀ s, localStorage p !! lit "lang" = Some s → s = [] ∨ get T s = Missing) →
  get T placeholder = Missing →
  is_Some (themeBtn p) ∨ is_Some (searchInput p) ∨ is_Some (reminderLabel p) →
  (initLanguage_rest (Resolved true (Some T)) p).2 = Throws.
Proof.
  intros Hpt Hls Hph Hel. unfold initLanguage_rest.
  set (p1 := log _ _).
  assert (Hmiss : get (CLIENT_T p1)
            (or_else (getItem (lit "lang") (localStorage p1)) placeholder) = Missing)
    by exact (stored_missing T (localStorage p) Hls Hph).
  rewrite (applyClientLanguage_stuck _ p1 Hmiss Hpt). cbv zeta.
  change (themeBtn p1) with (themeBtn p). change (searchInput p1) with (searchInput p).
  change (reminderLabel p1) with (reminderLabel p).
  destruct (themeBtn p); [done|]. destruct (searchInput p); [done|].
  destruct (reminderLabel p); [done|].
  by destruct Hel as [[? [=]] | [[? [=]] | [? [=]]]].
Qed.

Lemma settle_translations r l u :
  PageLoad.settle (length (requests l)) r (onDOMContentLoaded l u) =
  match initLanguage_rest r (settled (length (requests l)) (initLanguage l)) with
  | (l', Returns) => {| language := l'; upload := u; fileUpload := true |}
  | (l', Throws) => {| language := l'; upload := u; fileUpload := false |}
  end.
Proof.
  unfold PageLoad.settle, onDOMContentLoaded. cbn [language upload fileUpload].
  unfold initLanguage at 1. cbn [pending fetch set_translations requests].
  by rewrite lookup_insert_eq.
Qed.

(** X27: uploads wait for the language.  In the page of
    [src/unnamed/part_000] the upload listeners are added after
    [await initLanguage()]: until translations.json is answered, an
    event on a dropzone or on a file attachment area starts nothing.
    Once it is answered, be it with a failure, and "pt" is among the
    translations when they arrive, the events do what the listeners of
    [initDropzones] and [initFileAttachmentAreas] do. *)
Theorem upload_after_language
    (r : Language.Response) (l : Language.Page) (u : Upload.Page)
    (e : ZoneEvent) (d : Dropzone) (ae : AreaEvent) (ar : Area) :
  (∀ T, r = Resolved true (Some T) → is_Some (T !! lit "pt")) →
  let waiting := onDOMContentLoaded l u in
  let ready := PageLoad.settle (length (requests l)) r waiting in
  (zone_event e d waiting = waiting ∧ area_event ae ar waiting = (ar, waiting))
  ∧ upload ready = u
  ∧ upload (zone_event e d ready) = dropzone_on e d u
  ∧ (area_event ae ar ready).1 = (area_on ae ar u).1
  ∧ upload (area_event ae ar ready).2 = (area_on ae ar u).2.
Proof.
  intros Hr waiting ready. split; [done|]. subst ready waiting.
  rewrite settle_translations.
  pose proof (initLanguage_rest_returns r
                (settled (length (requests l)) (initLanguage l)) Hr) as H.
  destruct (initLanguage_rest r _) as [l' c]. cbn [snd] in H. subst c.
  split; [done|]. split; [done|].
  unfold area_event. cbn [fileUpload upload]. by destruct (area_on ae ar u).
Qed.

Lemma upload_after_language_witness :
  let l := {| themeBtn := None; searchInput := None; reminderLabel := None;
              langSelect := None; localStorage := ∅; CLIENT_T := ∅;
              listening := false; requests := []; pending := ∅; console := [];
              reloaded := false |} in
  let u := {| Upload.progress := ∅; Upload.attached := ∅; Upload.zones := ∅;
              Upload.requests := []; Upload.pending := ∅; Upload.timers := ∅;
              Upload.next_timer := 0; Upload.alerts := []; Upload.console := [];
              Upload.reloaded := false |} in
  let d := {| zone := 0; dataset_noteId := JStr (lit "7") |} in
  upload (zone_event (ZoneDrop [lit "a.txt"]) d
            (PageLoad.settle 0 Rejected (onDOMContentLoaded l u)))
  = dropzone_on (ZoneDrop [lit "a.txt"]) d u.
Proof.
  intros l u d.
  assert (Hr : ∀ T, Rejected = Resolved true (Some T) → is_Some (T !! lit "pt"))
    by (intros T; discriminate).
  exact (proj1 (proj2 (proj2
    (upload_after_language Rejected l u (ZoneDrop [lit "a.txt"]) d Dragenter
       {| area_id := []; input_noteId := JNull; drop_classList := [] |} Hr)))).
Defined.

(** X28: uploads lost with the language.  When the translations arrive
    without "pt" and without the wanted language while one of the
    translated elements is on the page, [initLanguage] is rejected and
    [initFileUpload] is never called: events on the dropzones and file
    attachment areas start nothing. *)
Theorem upload_never_wired
    (T : gmap (list N) Translation) (l : Language.Page) (u : Upload.Page)
    (e : ZoneEvent) (d : Dropzone) (ae : AreaEvent) (ar : Area) :
  T !! lit "pt" = None →
  (∀ s, localStorage l !! lit "lang" = Some s → s = [] ∨ get T s = Missing) →
  get T placeholder = Missing →
  is_Some (themeBtn l) ∨ is_Some (searchInput l) ∨ is_Some (reminderLabel l) →
  let stuck :=
    PageLoad.settle (length (requests l)) (Resolved true (Some T))
      (onDOMContentLoaded l u) in
  upload stuck = u
  ∧ zone_event e d stuck = stuck
  ∧ area_event ae ar stuck = (ar, stuck).
Proof.
  intros Hpt Hls Hph Hel stuck. subst stuck.
  rewrite settle_translations.
  pose proof (initLanguage_rest_throws T
                (settled (length (requests l)) (initLanguage l)) Hpt Hls Hph Hel) as H.
  destruct (initLanguage_rest _ _) as [l' c]. cbn [snd] in H. subst c. done.
Qed.

Lemma upload_never_wired_witness :
  let en := {| switch_theme := JStr (lit "Switch theme");
               search_notes := JStr (lit "Search notes");
               remind_at := JStr (lit "Remind at") |} in
  let T : gmap (list N) Translation := {[ lit "en" := en ]} in
  let l := {| themeBtn := Some (lit "Mudar tema"); searchInput := None;
              reminderLabel := None; langSelect := None;
              localStorage := ∅; CLIENT_T := ∅; listening := false;
              requests := []; pending := ∅; console := []; reloaded := false |} in
  let u := {| Upload.progress := ∅; Upload.attached := ∅; Upload.zones := ∅;
              Upload.requests := []; Upload.pending := ∅; Upload.timers := ∅;
              Upload.next_timer := 0; Upload.alerts := []; Upload.console := [];
              Upload.reloaded := false |} in
  let d := {| zone := 0; dataset_noteId := JStr (lit "7") |} in
  let stuck := PageLoad.settle 0 (Resolved true (Some T)) (onDOMContentLoaded l u) in
  zone_event (ZoneDrop [lit "a.txt"]) d stuck = stuck.
Proof.
  intros en T l u d stuck.
  assert (Hpt : T !! lit "pt" = None) by (vm_compute; reflexivity).
  assert (Hph : get T placeholder = Missing) by (vm_compute; reflexivity).
  assert (Hls : ∀ s, localStorage l !! lit "lang" = Some s → s = [] ∨ get T s = Missing).
  { intros s Hs. exfalso. revert Hs.
    by change (localStorage l) with (∅ : gmap (list N) (list N)). }
  assert (Hb : is_Some (themeBtn l) ∨ is_Some (searchInput l) ∨ is_Some (reminderLabel l)).
  { left. by eexists. }
  exact (proj1 (proj2
    (upload_never_wired T l u (ZoneDrop [lit "a.txt"]) d Dragenter
       {| area_id := []; input_noteId := JNull; drop_classList := [] |}
       Hpt Hls Hph Hb))).
Defined.

End page_load.
